(** * tf-retinanet: the detection filter ([tf_retinanet/layers/filter_detections.py])

    A shallow embedding of [filter_detections] and of the TensorFlow
    primitives it is built from.  Tensors of rank one are lists, the
    score matrix is a list of rows together with its static column count,
    floating-point values are IEEE-754 single precision values in the
    Standard Library's [spec_float] (NaN and the infinities included), and
    a primitive that raises in TensorFlow returns [Err]. *)

From Stdlib Require Import List ZArith Lia Bool Arith PeanoNat.
From Stdlib Require Import Sorting.Sorted Sorting.Permutation.
From Stdlib Require Import Floats.SpecFloat.
From Stdlib Require Strings.String.
Import ListNotations.

(** ** Errors raised by the primitives *)

Inductive tf_error : Type :=
| IndexOutOfRange        (* gather / gather_nd with an index outside the tensor *)
| InvalidIouThreshold    (* non_max_suppression: iou_threshold must be in [0, 1] *)
| NegativeOutputSize     (* non_max_suppression: max_output_size must be non-negative *)
| ScoresBoxesMismatch    (* non_max_suppression: scores and boxes differ in length *)
| InvalidK               (* top_k: k negative or larger than the input *)
| Int32Overflow          (* a Python integer outside the int32 it is converted to *)
| EmptyConcat            (* concatenate of an empty list of tensors *)
| EmptyReductionAxis     (* argmax along an axis of size zero *)
| IncompatibleShape.     (* set_shape against a different static shape *)

Inductive result (A : Type) : Type :=
| Ok  (a : A)
| Err (e : tf_error).

Arguments Ok {A} a.
Arguments Err {A} e.

Definition bind {A B : Type} (r : result A) (f : A -> result B) : result B :=
  match r with
  | Ok a => f a
  | Err e => Err e
  end.

Notation "x <- c1 ;; c2" := (bind c1 (fun x => c2))
  (at level 61, c1 at next level, right associativity).

Fixpoint mapM {A B : Type} (f : A -> result B) (l : list A) : result (list B) :=
  match l with
  | [] => Ok []
  | a :: l' =>
      b <- f a ;;
      bs <- mapM f l' ;;
      Ok (b :: bs)
  end.

(** ** Single precision floats *)

Abbreviation float := spec_float (only parsing).

Definition prec32 : Z := 24.
Definition emax32 : Z := 128.

Definition f32_of_Z (z : Z) : float := binary_normalize prec32 emax32 z 0 false.
Definition f32_add : float -> float -> float := SFadd prec32 emax32.
Definition f32_sub : float -> float -> float := SFsub prec32 emax32.
Definition f32_mul : float -> float -> float := SFmul prec32 emax32.
Definition f32_div : float -> float -> float := SFdiv prec32 emax32.

Definition f32_zero : float := S754_zero false.
Definition f32_one : float := Eval cbv in f32_of_Z 1.
Definition minus_one : float := Eval cbv in f32_of_Z (-1).
Definition neg_infinity : float := S754_infinity true.

Definition is_nan (x : float) : bool :=
  match x with
  | S754_nan => true
  | _ => false
  end.

(** [tf.keras.backend.greater x y]: the IEEE comparison [x > y], false as
    soon as one side is NaN. *)
Definition greater (x y : float) : bool := SFltb y x.

(** [std::min] and [std::max] as the kernels use them. *)
Definition f32_min (a b : float) : float := if SFltb b a then b else a.
Definition f32_max (a b : float) : float := if SFltb a b then b else a.

Definition f32_ratio (a b : Z) : float := f32_div (f32_of_Z a) (f32_of_Z b).

(** ** Tensors *)

(** A row of the [(num_boxes, 4)] box tensor. *)
Record box : Type := mk_box { bx1 : float; by1 : float; bx2 : float; by2 : float }.

(** The [(num_boxes, num_classes)] score tensor: its static second
    dimension and its rows. *)
Record matrix : Type := mk_matrix { num_classes : nat; rows : list (list float) }.

(** One tensor of [other]: the size of a per-box slice (the trailing
    dimensions, flattened) and one slice per box. *)
Record aux : Type := mk_aux { aux_width : nat; aux_rows : list (list float) }.

Definition matrix_wf (m : matrix) : Prop :=
  Forall (fun r => length r = num_classes m) (rows m).

(** [classification[:, c]] *)
Definition column (m : matrix) (c : nat) : list float :=
  map (fun r => nth c r S754_nan) (rows m).

(** ** Primitives *)

Definition enumerate {A : Type} (l : list A) : list (nat * A) :=
  combine (seq 0 (length l)) l.

(** [tf.where mask]: the positions holding [true], in increasing order. *)
Definition tf_where (mask : list bool) : list nat :=
  map fst (filter snd (enumerate mask)).

(** [gather params indices] (also [gather_nd] with indices of shape [(M, 1)]). *)
Definition gather {A : Type} (params : list A) (indices : list nat) : result (list A) :=
  mapM (fun i => match nth_error params i with
                 | Some a => Ok a
                 | None => Err IndexOutOfRange
                 end) indices.

(** [gather_nd classification indices] with indices of shape [(M, 2)]. *)
Definition lookup2 (m : matrix) (ix : nat * Z) : result float :=
  if (snd ix <? 0)%Z then Err IndexOutOfRange
  else match nth_error (rows m) (fst ix) with
       | Some r => match nth_error r (Z.to_nat (snd ix)) with
                   | Some v => Ok v
                   | None => Err IndexOutOfRange
                   end
       | None => Err IndexOutOfRange
       end.

Definition gather_nd2 (m : matrix) (indices : list (nat * Z)) : result (list float) :=
  mapM (lookup2 m) indices.

(** Reduction of one row by maximum ([tf.keras.backend.max]): NaN as soon
    as one entry is NaN, otherwise the largest entry; the accumulator
    starts at minus infinity. *)
Definition reduce_max (r : list float) : float :=
  fold_left (fun acc x => if is_nan acc || is_nan x then S754_nan
                          else if greater x acc then x else acc) r neg_infinity.

(** Index of the maximum of one row ([tf.keras.backend.argmax]): the first
    position that strictly improves on everything before it.  The maximum
    of a row holding NaN is NaN and passes no threshold, so that
    [filter_detections] never reads the index found for such a row. *)
Definition argmax_from (r : list (nat * float)) (init : nat * float) : nat * float :=
  fold_left (fun acc x => if greater (snd x) (snd acc) then x else acc) r init.

Definition argmax_row (r : list float) : nat :=
  fst (argmax_from (enumerate r) (0, neg_infinity)).

Definition k_max (m : matrix) : list float := map reduce_max (rows m).

Definition k_argmax (m : matrix) : result (list Z) :=
  if (num_classes m =? 0) then Err EmptyReductionAxis
  else Ok (map (fun r => Z.of_nat (argmax_row r)) (rows m)).

(** [tf.keras.backend.concatenate tensors axis=0] *)
Definition concatenate {A : Type} (tensors : list (list A)) : result (list A) :=
  match tensors with
  | [] => Err EmptyConcat
  | _ => Ok (concat tensors)
  end.

(** [ranks_above y x]: in the order of [top_k], [y] stays ahead of an [x]
    met before it, because it is strictly greater or because [x] is NaN
    and [y] is not (NaN comes last). *)
Definition ranks_above (y x : float) : bool :=
  greater y x || (is_nan x && negb (is_nan y)).

(** Stable sort by decreasing score of (position, score) pairs: an element
    is placed before the first element that does not rank above it, so
    that of two equal scores the one met first stays first. *)
Fixpoint insert_desc (x : nat * float) (l : list (nat * float)) : list (nat * float) :=
  match l with
  | [] => [x]
  | y :: l' => if ranks_above (snd y) (snd x) then y :: insert_desc x l' else x :: y :: l'
  end.

Definition sort_desc (l : list (nat * float)) : list (nat * float) :=
  fold_right insert_desc [] l.

(** [tf.nn.top_k values k]: the [k] largest entries in decreasing order with
    their positions; of two equal entries the lower position comes first. *)
Definition top_k (values : list float) (k : Z) : result (list float * list nat) :=
  if (k <? 0)%Z || (Z.of_nat (length values) <? k)%Z then Err InvalidK
  else let s := firstn (Z.to_nat k) (sort_desc (enumerate values)) in
       Ok (map snd s, map fst s).

(** Intersection over union of two boxes, as the suppression kernel
    computes it in single precision.  The kernel reads a row as two
    opposite corners, columns 0 and 2 along one axis and columns 1 and 3
    along the other, in either order; a box of no area overlaps nothing. *)
Definition IOU (bi bj : box) : float :=
  let ymin_i := f32_min (bx1 bi) (bx2 bi) in
  let xmin_i := f32_min (by1 bi) (by2 bi) in
  let ymax_i := f32_max (bx1 bi) (bx2 bi) in
  let xmax_i := f32_max (by1 bi) (by2 bi) in
  let ymin_j := f32_min (bx1 bj) (bx2 bj) in
  let xmin_j := f32_min (by1 bj) (by2 bj) in
  let ymax_j := f32_max (bx1 bj) (bx2 bj) in
  let xmax_j := f32_max (by1 bj) (by2 bj) in
  let area_i := f32_mul (f32_sub ymax_i ymin_i) (f32_sub xmax_i xmin_i) in
  let area_j := f32_mul (f32_sub ymax_j ymin_j) (f32_sub xmax_j xmin_j) in
  if SFleb area_i f32_zero || SFleb area_j f32_zero then f32_zero
  else
    let iymin := f32_max ymin_i ymin_j in
    let ixmin := f32_max xmin_i xmin_j in
    let iymax := f32_min ymax_i ymax_j in
    let ixmax := f32_min xmax_i xmax_j in
    let inter := f32_mul (f32_max (f32_sub iymax iymin) f32_zero)
                         (f32_max (f32_sub ixmax ixmin) f32_zero) in
    f32_div inter (f32_sub (f32_add area_i area_j) inter).

(** A Python integer handed to an op that takes an int32 tensor. *)
Definition to_int32 (z : Z) : result Z :=
  if ((- 2 ^ 31 <=? z) && (z <? 2 ^ 31))%Z then Ok z else Err Int32Overflow.

(** *** The suppression kernel

    [tf.image.non_max_suppression] runs the kernel of
    [non_max_suppression_v3] with [score_threshold] minus infinity and no
    soft suppression ([soft_nms_sigma = 0]).  The kernel keeps the
    candidates in a priority queue; an entry records up to which selected
    box the candidate has been compared already. *)
Record candidate : Type := mk_candidate {
  box_index : nat;
  score : float;
  suppress_begin_index : nat
}.

(** The order of the queue: [cmp bs_i bs_j] when [bs_i] leaves the queue
    after [bs_j], that is when it scores less, or the same with the higher
    box index. *)
Definition cmp (bs_i bs_j : candidate) : bool :=
  (SFeqb (score bs_i) (score bs_j) && (box_index bs_j <? box_index bs_i))
  || SFltb (score bs_i) (score bs_j).

(** The queue is held in the order in which [top] and [pop] deliver its
    entries: [push] puts an entry ahead of the first one that leaves the
    queue after it. *)
Fixpoint push (c : candidate) (queue : list candidate) : list candidate :=
  match queue with
  | [] => [c]
  | d :: queue' => if cmp d c then c :: d :: queue' else d :: push c queue'
  end.

(** The entries the kernel starts from: every box whose score is above
    the kernel's score threshold, pushed by increasing index. *)
Definition initial_queue (scores : list float) : list candidate :=
  fold_left (fun queue p => if greater (snd p) neg_infinity
                            then push (mk_candidate (fst p) (snd p) 0) queue
                            else queue)
            (enumerate scores) [].

(** [similarity_fn i j]: the overlap of boxes [i] and [j]. *)
Definition similarity (boxes : list box) (i j : nat) : float :=
  match nth_error boxes i, nth_error boxes j with
  | Some bi, Some bj => IOU bi bj
  | _, _ => f32_zero
  end.

(** [suppress_weight sim]: [exp (scale * sim * sim)] with [scale = 0] when
    [sim <= iou_threshold], and 0 otherwise.  The argument of [exp] is a
    zero, whose exponential is 1, unless [sim] is infinite or NaN, which
    makes it NaN. *)
Definition suppress_weight (thr sim : float) : float :=
  let weight := match f32_mul (f32_mul f32_zero sim) sim with
                | S754_zero _ => f32_one
                | _ => S754_nan
                end in
  if SFleb sim thr then weight else f32_zero.

(** The inner loop over the selected boxes [js], last selected first: the
    score is multiplied by the weight of each overlap; the loop is left
    with [should_hard_suppress] at an overlap above the threshold, and
    without it when the score has fallen to the score threshold. *)
Fixpoint scan (boxes : list box) (thr : float) (c : nat) (js : list nat) (s : float)
  : float * bool :=
  match js with
  | [] => (s, false)
  | j :: js' =>
      let sim := similarity boxes c j in
      let s' := f32_mul s (suppress_weight thr sim) in
      if greater sim thr then (s', true)
      else if SFleb s' neg_infinity then (s', false)
      else scan boxes thr c js' s'
  end.

(** The outer loop, one turn per [fuel]: while fewer than [output_size]
    boxes are selected and the queue is not empty, the top of the queue is
    compared with the boxes selected since its last turn
    ([suppress_begin_index] onwards); it is dropped on a hard suppression,
    selected when its score is unchanged, put back with its new score when
    that is still above the score threshold, and dropped otherwise.
    [selected] holds the selected boxes, last selected first. *)
Fixpoint nms_loop (boxes : list box) (thr : float) (output_size : nat) (fuel : nat)
         (queue : list candidate) (selected : list nat) : list nat :=
  match fuel with
  | O => rev selected
  | S fuel' =>
      if length selected <? output_size then
        match queue with
        | [] => rev selected
        | next_candidate :: queue' =>
            let original_score := score next_candidate in
            let js := firstn (length selected - suppress_begin_index next_candidate)
                             selected in
            let '(s, should_hard_suppress) :=
              scan boxes thr (box_index next_candidate) js original_score in
            if should_hard_suppress then
              nms_loop boxes thr output_size fuel' queue' selected
            else if SFeqb s original_score then
              nms_loop boxes thr output_size fuel' queue'
                       (box_index next_candidate :: selected)
            else if greater s neg_infinity then
              nms_loop boxes thr output_size fuel'
                       (push (mk_candidate (box_index next_candidate) s (length selected))
                             queue')
                       selected
            else nms_loop boxes thr output_size fuel' queue' selected
        end
      else rev selected
  end.

(** Turns that suffice for [n] boxes: a turn removes an entry from the
    queue for good or puts it back with a larger [suppress_begin_index],
    which never exceeds the number of selected boxes. *)
Definition turns (n : nat) : nat := n * S n.

(** [tf.image.non_max_suppression boxes scores max_output_size iou_threshold]:
    the conversion of [max_output_size], the checks of the kernel in the
    order it makes them, and the loop. *)
Definition non_max_suppression (boxes : list box) (scores : list float)
           (max_output_size : Z) (iou_threshold : float) : result (list nat) :=
  output_size <- to_int32 max_output_size ;;
  if negb (SFleb f32_zero iou_threshold && SFleb iou_threshold f32_one)
  then Err InvalidIouThreshold
  else if negb (length boxes =? length scores) then Err ScoresBoxesMismatch
  else if (output_size <? 0)%Z then Err NegativeOutputSize
  else Ok (nms_loop boxes iou_threshold (Z.to_nat output_size) (turns (length scores))
                    (initial_queue scores) []).

(** [tf.pad t [[0, pad_size], ...] constant_values=v] along the first axis. *)
Definition pad {A : Type} (t : list A) (pad_size : Z) (v : A) : list A :=
  t ++ repeat v (Z.to_nat pad_size).

(** [tf.keras.backend.cast labels 'int32'] on an int64 value. *)
Definition cast_int32 (z : Z) : Z :=
  ((z + 2 ^ 31) mod 2 ^ 32 - 2 ^ 31)%Z.

(** [t.set_shape [n, ...]] *)
Definition set_shape {A : Type} (t : list A) (n : Z) : result (list A) :=
  if (Z.of_nat (length t) =? n)%Z then Ok t else Err IncompatibleShape.

(** ** filter_detections *)

Record config : Type := mk_config {
  class_specific_filter : bool;
  nms : bool;
  score_threshold : float;
  max_detections : Z;
  nms_threshold : float
}.

(** The defaults of the signature: 0.05, 300 and 0.5. *)
Definition default_config : config :=
  Eval cbv in mk_config true true (f32_ratio 5 100) 300 (f32_ratio 1 2).

Record detections : Type := mk_detections {
  out_boxes : list box;
  out_scores : list float;
  out_labels : list Z;
  out_other : list aux
}.

(** The inner function [_filter_detections scores labels]. *)
Definition _filter_detections (cfg : config) (boxes : list box)
           (scores : list float) (labels : list Z) : result (list (nat * Z)) :=
  let indices := tf_where (map (fun s => greater s (score_threshold cfg)) scores) in
  indices <-
    (if nms cfg then
       filtered_boxes <- gather boxes indices ;;
       filtered_scores <- gather scores indices ;;
       nms_indices <- non_max_suppression filtered_boxes filtered_scores
                        (max_detections cfg) (nms_threshold cfg) ;;
       gather indices nms_indices
     else Ok indices) ;;
  labels <- gather labels indices ;;
  Ok (combine indices labels).

(** Lines 52 to 65: the merged candidate list of (box index, label). *)
Definition candidate_indices (cfg : config) (boxes : list box)
           (classification : matrix) : result (list (nat * Z)) :=
  if class_specific_filter cfg then
    all_indices <-
      mapM (fun c =>
              let scores := column classification c in
              let labels := repeat (Z.of_nat c) (length scores) in
              _filter_detections cfg boxes scores labels)
           (seq 0 (num_classes classification)) ;;
    concatenate all_indices
  else
    let scores := k_max classification in
    labels <- k_argmax classification ;;
    _filter_detections cfg boxes scores labels.

Definition pad_box : box := mk_box minus_one minus_one minus_one minus_one.

Definition gather_aux (o : aux) (indices : list nat) : result aux :=
  r <- gather (aux_rows o) indices ;;
  Ok (mk_aux (aux_width o) r).

Definition pad_aux (o : aux) (pad_size : Z) : aux :=
  mk_aux (aux_width o) (pad (aux_rows o) pad_size (repeat minus_one (aux_width o))).

Definition set_shape_aux (o : aux) (n : Z) : result aux :=
  r <- set_shape (aux_rows o) n ;;
  Ok (mk_aux (aux_width o) r).

(** [tf.keras.backend.minimum x y] of a Python integer and an int32 tensor. *)
Definition k_minimum (x y : Z) : result Z :=
  x' <- to_int32 x ;;
  Ok (Z.min x' y).

(** Lines 67 to 93: top-k, gather, pad and shape. *)
Definition select_top_k (cfg : config) (boxes : list box) (classification : matrix)
           (other : list aux) (indices : list (nat * Z)) : result detections :=
  scores <- gather_nd2 classification indices ;;
  let labels := map snd indices in
  k <- k_minimum (max_detections cfg) (Z.of_nat (length scores)) ;;
  st <- top_k scores k ;;
  let scores := fst st in
  let top_indices := snd st in
  indices <- gather (map fst indices) top_indices ;;
  boxes <- gather boxes indices ;;
  labels <- gather labels top_indices ;;
  other_ <- mapM (fun o => gather_aux o indices) other ;;
  let pad_size := Z.max 0 (max_detections cfg - Z.of_nat (length scores)) in
  let boxes := pad boxes pad_size pad_box in
  let scores := pad scores pad_size minus_one in
  let labels := pad labels pad_size (-1)%Z in
  let labels := map cast_int32 labels in
  let other_ := map (fun o => pad_aux o pad_size) other_ in
  boxes <- set_shape boxes (max_detections cfg) ;;
  scores <- set_shape scores (max_detections cfg) ;;
  labels <- set_shape labels (max_detections cfg) ;;
  other_ <- mapM (fun o => set_shape_aux o (max_detections cfg)) other_ ;;
  Ok (mk_detections boxes scores labels other_).

Definition filter_detections (boxes : list box) (classification : matrix)
           (other : list aux) (cfg : config) : result detections :=
  indices <- candidate_indices cfg boxes classification ;;
  select_top_k cfg boxes classification other indices.

(** ** Real rows, and the inputs the statements are about *)

Definition box_of_Z (a b c d : Z) : box :=
  mk_box (f32_of_Z a) (f32_of_Z b) (f32_of_Z c) (f32_of_Z d).

(** The number of real (non-padded) rows: the [k] handed to [top_k]. *)
Definition real_count (cfg : config) (indices : list (nat * Z)) : nat :=
  Z.to_nat (Z.min (max_detections cfg) (Z.of_nat (length indices))).

(** Shapes the caller has to respect: one score row and one slice of every
    auxiliary tensor per box, rows as wide as the static class count, at
    least one class. *)
Record valid_input (boxes : list box) (classification : matrix) (other : list aux) : Prop :=
  mk_valid_input {
    vi_rows : length (rows classification) = length boxes;
    vi_wf : matrix_wf classification;
    vi_classes : 0 < num_classes classification;
    vi_other : Forall (fun o => length (aux_rows o) = length boxes) other
  }.

(** The configurations the primitives accept: a width that is not
    negative and fits an int32 and, when suppression is on, an overlap
    threshold in [0, 1]. *)
Record accepted_config (cfg : config) : Prop :=
  mk_accepted_config {
    ac_max : (0 <= max_detections cfg < 2 ^ 31)%Z;
    ac_iou : nms cfg = true ->
             SFleb f32_zero (nms_threshold cfg) && SFleb (nms_threshold cfg) f32_one = true
  }.

(** ** A worked call

    Three boxes, the first two overlapping by 0.9, two classes, one
    auxiliary tensor of width two; per-class filtering with suppression,
    thresholds 0.5 and room for four detections. *)
Definition sample_boxes : list box :=
  Eval vm_compute in [box_of_Z 0 0 10 10; box_of_Z 0 0 10 9; box_of_Z 20 20 30 30].

Definition sample_classification : matrix :=
  Eval vm_compute in
    mk_matrix 2 [[f32_ratio 9 10; f32_ratio 2 10];
                 [f32_ratio 8 10; f32_ratio 7 10];
                 [f32_ratio 1 10; f32_ratio 6 10]].

Definition sample_other : list aux :=
  Eval vm_compute in
    [mk_aux 2 [[f32_of_Z 1; f32_of_Z 1]; [f32_of_Z 2; f32_of_Z 2]; [f32_of_Z 3; f32_of_Z 3]]].

Definition sample_config : config :=
  Eval vm_compute in mk_config true true (f32_ratio 1 2) 4 (f32_ratio 1 2).

Definition empty_detections : detections := mk_detections [] [] [] [].

Definition sample_detections : detections :=
  Eval vm_compute in
    match filter_detections sample_boxes sample_classification sample_other sample_config with
    | Ok out => out
    | Err _ => empty_detections
    end.

(** The same boxes with a NaN in every score row, filtered on the best
    class of each box: the maximum of every row is NaN, no box is a
    candidate and the four rows of the result are padding. *)
Definition nan_classification : matrix :=
  Eval vm_compute in
    mk_matrix 2 [[S754_nan; f32_ratio 9 10];
                 [f32_ratio 8 10; S754_nan];
                 [S754_nan; S754_nan]].

Definition best_class_config : config :=
  Eval vm_compute in mk_config false true (f32_ratio 1 2) 4 (f32_ratio 1 2).

Definition nan_detections : detections :=
  Eval vm_compute in
    match filter_detections sample_boxes nan_classification sample_other best_class_config with
    | Ok out => out
    | Err _ => empty_detections
    end.

(** NaN in one row only: box 0 scores best under class 1, the row of
    box 1 holds a NaN, box 2 scores best under class 0. *)
Definition mixed_classification : matrix :=
  Eval vm_compute in
    mk_matrix 2 [[f32_ratio 2 10; f32_ratio 9 10];
                 [f32_ratio 8 10; S754_nan];
                 [f32_ratio 6 10; f32_ratio 1 10]].

Definition mixed_detections : detections :=
  Eval vm_compute in
    match filter_detections sample_boxes mixed_classification sample_other
                            best_class_config with
    | Ok out => out
    | Err _ => empty_detections
    end.

(** One class, the two overlapping boxes with the same score. *)
Definition tied_scores : matrix :=
  Eval vm_compute in
    mk_matrix 1 [[f32_ratio 8 10]; [f32_ratio 8 10]; [f32_ratio 6 10]].

Definition tied_detections : detections :=
  Eval vm_compute in
    match filter_detections sample_boxes tied_scores sample_other sample_config with
    | Ok out => out
    | Err _ => empty_detections
    end.

(** The one-class score column 0.9, 0.8, 0.1 of the specification's
    first scenario, and a configuration without suppression keeping two. *)
Definition one_class_scores : matrix :=
  Eval vm_compute in
    mk_matrix 1 [[f32_ratio 9 10]; [f32_ratio 8 10]; [f32_ratio 1 10]].

Definition top_two_config : config :=
  Eval vm_compute in mk_config true false (f32_ratio 1 2) 2 (f32_ratio 1 2).

(** No box at all, one class. *)
Definition no_scores : matrix := mk_matrix 1 [].

(** A configuration with [max_detections = 0]. *)
Definition zero_config : config :=
  Eval vm_compute in mk_config true true (f32_ratio 1 2) 0 (f32_ratio 1 2).

(** A configuration with [max_detections = -1]. *)
Definition negative_config : config :=
  Eval vm_compute in mk_config true false (f32_ratio 1 2) (-1) (f32_ratio 1 2).

(** A configuration with [max_detections = 2^31]. *)
Definition overflow_config : config :=
  Eval vm_compute in mk_config true false (f32_ratio 1 2) (2 ^ 31) (f32_ratio 1 2).

(** The configurations the specification calls invalid. *)
Definition invalid_config (cfg : config) : Prop :=
  (max_detections cfg <= 0)%Z \/
  SFleb f32_zero (nms_threshold cfg) && SFleb (nms_threshold cfg) f32_one = false \/
  is_nan (score_threshold cfg) = true.

(** ** The order behind the comparisons *)

Module FloatKey.

(** A key in [Z * Z * Z] whose lexicographic order is the one [SFcompare]
    decides on values other than NaN. *)
Definition rank (x : float) : Z * Z * Z :=
  match x with
  | S754_nan => (0, 0, 0)
  | S754_zero _ => (0, 0, 0)
  | S754_infinity true => (-2, 0, 0)
  | S754_infinity false => (2, 0, 0)
  | S754_finite true m e => (-1, - e, - Zpos m)
  | S754_finite false m e => (1, e, Zpos m)
  end%Z.

Definition lex_lt (a b : Z * Z * Z) : Prop :=
  let '(a1, a2, a3) := a in
  let '(b1, b2, b3) := b in
  (a1 < b1 \/ (a1 = b1 /\ (a2 < b2 \/ (a2 = b2 /\ a3 < b3))))%Z.

End FloatKey.

(** ** Vocabulary of the statements *)

(** The order a stable descending sort puts (position, score) pairs in:
    strictly greater score first, and by position among scores none of
    which is greater than the other. *)
Definition before (x y : nat * float) : Prop :=
  greater (snd x) (snd y) = true \/
  (greater (snd y) (snd x) = false /\ fst x < fst y).

(** The later box [b] is not suppressed by the earlier box [a]: the
    overlap the kernel computes for the pair does not exceed [thr]. *)
Definition keeps (boxes : list box) (thr : float) (a b : nat) : Prop :=
  forall ba bb, nth_error boxes a = Some ba -> nth_error boxes b = Some bb ->
                greater (IOU bb ba) thr = false.

(** What [_filter_detections] guarantees of a candidate: its score passed
    the threshold and its label is the one given for its box. *)
Definition passes (cfg : config) (scores : list float) (labels : list Z)
           (x : nat * Z) : Prop :=
  exists s, nth_error scores (fst x) = Some s /\
            greater s (score_threshold cfg) = true /\
            nth_error labels (fst x) = Some (snd x).

(** What a suppression pass guarantees of a candidate selected earlier
    and one selected later. *)
Definition group_ok (cfg : config) (boxes : list box) (x y : nat * Z) : Prop :=
  keeps boxes (nms_threshold cfg) (fst x) (fst y).

(** A merged candidate: its score, read back from the matrix at its box
    and label, is strictly above the score threshold. *)
Definition candidate_ok (cfg : config) (classification : matrix) (x : nat * Z) : Prop :=
  exists s, lookup2 classification x = Ok s /\
            greater s (score_threshold cfg) = true.

(** An earlier and a later merged candidate with the same label: the later
    one is not suppressed by the earlier one. *)
Definition pair_ok (cfg : config) (boxes : list box) (x y : nat * Z) : Prop :=
  snd x = snd y -> keeps boxes (nms_threshold cfg) (fst x) (fst y).

(** Output row [i] is the detection of candidate [x]: box, score, label
    and every auxiliary slice are those of [x]. *)
Definition real_row (boxes : list box) (classification : matrix) (other : list aux)
           (x : nat * Z) (out : detections) (i : nat) : Prop :=
  exists s bx,
    lookup2 classification x = Ok s /\
    nth_error boxes (fst x) = Some bx /\
    nth_error (out_boxes out) i = Some bx /\
    nth_error (out_scores out) i = Some s /\
    nth_error (out_labels out) i = Some (cast_int32 (snd x)) /\
    Forall2 (fun o o' => aux_width o' = aux_width o /\
                         exists r, nth_error (aux_rows o) (fst x) = Some r /\
                                   nth_error (aux_rows o') i = Some r)
            other (out_other out).

(** Output row [i] is sentinel padding in every field. *)
Definition padded_row (other : list aux) (out : detections) (i : nat) : Prop :=
  nth_error (out_boxes out) i = Some pad_box /\
  nth_error (out_scores out) i = Some minus_one /\
  nth_error (out_labels out) i = Some (-1)%Z /\
  Forall2 (fun o o' => aux_width o' = aux_width o /\
                       nth_error (aux_rows o') i
                       = Some (repeat minus_one (aux_width o)))
          other (out_other out).

(** All output tensors have [n] leading entries, one auxiliary output per
    auxiliary input. *)
Definition width_is (other : list aux) (out : detections) (n : nat) : Prop :=
  length (out_boxes out) = n /\
  length (out_scores out) = n /\
  length (out_labels out) = n /\
  length (out_other out) = length other /\
  Forall (fun o' => length (aux_rows o') = n) (out_other out).

(** The scores handed to the pass of [_filter_detections] that yields
    label [l]: column [l] of the matrix on the per-class path, the row
    maxima on the best-class path. *)
Definition pass_scores (cfg : config) (classification : matrix) (l : Z) : list float :=
  if class_specific_filter cfg then column classification (Z.to_nat l)
  else k_max classification.




(** ** The Keras layer [FilterDetections] *)

Module Keras.
Import Strings.String.

(** Values a configuration dictionary holds. *)
Inductive pyval : Type :=
| PBool (b : bool)
| PInt (z : Z)
| PFloat (x : float)
| PStr (s : string).

(** A Python [dict] with string keys, in insertion order. *)
Definition dict : Type := list (string * pyval).

Fixpoint dict_get (d : dict) (k : string) : option pyval :=
  match d with
  | [] => None
  | (k', v) :: d' => if String.eqb k' k then Some v else dict_get d' k
  end.

(** [d[k] = v]: an existing key keeps its place. *)
Fixpoint dict_set (d : dict) (k : string) (v : pyval) : dict :=
  match d with
  | [] => [(k, v)]
  | (k', v') :: d' =>
      if String.eqb k' k then (k', v) :: d' else (k', v') :: dict_set d' k v
  end.

(** [d.update(kvs)] *)
Definition dict_update (d : dict) (kvs : dict) : dict :=
  fold_left (fun acc kv => dict_set acc (fst kv) (snd kv)) kvs d.

Definition dict_remove (d : dict) (k : string) : dict :=
  filter (fun kv => negb (String.eqb (fst kv) k)) d.

Definition key_nms : string := "nms".
Definition key_class_specific_filter : string := "class_specific_filter".
Definition key_nms_threshold : string := "nms_threshold".
Definition key_score_threshold : string := "score_threshold".
Definition key_max_detections : string := "max_detections".
Definition key_parallel_iterations : string := "parallel_iterations".

Definition own_keys : list string :=
  [key_nms; key_class_specific_filter; key_nms_threshold; key_score_threshold;
   key_max_detections; key_parallel_iterations].

(** The attributes [__init__] stores, with the types its docstring gives
    them, and the keyword arguments it hands on to the base class. *)
Record layer : Type := mk_layer {
  self_nms : bool;
  self_class_specific_filter : bool;
  self_nms_threshold : float;
  self_score_threshold : float;
  self_max_detections : Z;
  self_parallel_iterations : Z;
  self_kwargs : dict
}.

Definition as_bool (v : pyval) : option bool :=
  match v with PBool b => Some b | _ => None end.
Definition as_int (v : pyval) : option Z :=
  match v with PInt z => Some z | _ => None end.
Definition as_float (v : pyval) : option float :=
  match v with PFloat x => Some x | _ => None end.

(** A keyword argument, or the default of the signature. *)
Definition keyword (d : dict) (k : string) (default : pyval) : pyval :=
  match dict_get d k with
  | Some v => v
  | None => default
  end.

(** The constructor called with the entries of [d] as keyword arguments:
    the six named parameters are bound from [d] or take their defaults, the remaining entries go to the base class.
    [None] stands for a value of another type than documented, which the
    typed attributes above cannot hold. *)
Definition __init__ (d : dict) : option layer :=
  match as_bool (keyword d key_nms (PBool true)),
        as_bool (keyword d key_class_specific_filter (PBool true)),
        as_float (keyword d key_nms_threshold (PFloat (nms_threshold default_config))),
        as_float (keyword d key_score_threshold
                          (PFloat (score_threshold default_config))),
        as_int (keyword d key_max_detections (PInt 300)),
        as_int (keyword d key_parallel_iterations (PInt 32)) with
  | Some n, Some c, Some nt, Some st, Some md, Some pi =>
      Some (mk_layer n c nt st md pi (fold_left dict_remove own_keys d))
  | _, _, _, _, _, _ => None
  end.

(** [get_config]; [base_get_config] is the base class's [get_config], as a
    function of the keyword arguments the base class was built from. *)
Definition get_config (base_get_config : dict -> dict) (self : layer) : dict :=
  let config := base_get_config (self_kwargs self) in
  dict_update config
    [(key_nms, PBool (self_nms self));
     (key_class_specific_filter, PBool (self_class_specific_filter self));
     (key_nms_threshold, PFloat (self_nms_threshold self));
     (key_score_threshold, PFloat (self_score_threshold self));
     (key_max_detections, PInt (self_max_detections self));
     (key_parallel_iterations, PInt (self_parallel_iterations self))].

(** The configuration [call] hands to [filter_detections]. *)
Definition layer_config (self : layer) : config :=
  mk_config (self_class_specific_filter self) (self_nms self)
            (self_score_threshold self) (self_max_detections self)
            (self_nms_threshold self).

(** A dimension of a static shape, [None] when unknown. *)
Abbreviation dim := (option Z) (only parsing).
Abbreviation shape := (list (option Z)) (only parsing).

Definition obind {A B : Type} (o : option A) (f : A -> option B) : option B :=
  match o with
  | Some a => f a
  | None => None
  end.

Fixpoint omap {A B : Type} (f : A -> option B) (l : list A) : option (list B) :=
  match l with
  | [] => Some []
  | a :: l' => obind (f a) (fun b => obind (omap f l') (fun bs => Some (b :: bs)))
  end.

(** [compute_output_shape]; [None] is the [IndexError] of an index past
    the end of [input_shape] or of one of its shapes. *)
Definition compute_output_shape (self : layer) (input_shape : list shape)
  : option (list shape) :=
  obind (nth_error input_shape 0) (fun s0 =>
  obind (nth_error s0 0) (fun b0 =>
  obind (nth_error input_shape 1) (fun s1 =>
  obind (nth_error s1 0) (fun b1 =>
  obind (omap (fun i =>
                 obind (nth_error input_shape i) (fun si =>
                 obind (nth_error si 0) (fun bi =>
                 Some (bi :: Some (self_max_detections self) :: skipn 2 si))))
              (seq 2 (List.length input_shape - 2))) (fun rest =>
  Some ([b0; Some (self_max_detections self); Some 4%Z]
        :: [b1; Some (self_max_detections self)]
        :: [b1; Some (self_max_detections self)]
        :: rest)))))).

(** [compute_mask]: one [None] per output. *)
Definition compute_mask {A : Type} (inputs : list A) : list (option unit) :=
  repeat None (List.length inputs + 1).

(** Batched tensors: the scores [(batch, num_boxes, num_classes)] and an
    auxiliary tensor [(batch, num_boxes, width)]. *)
Record batch_matrix : Type :=
  mk_batch_matrix { bm_classes : nat; bm_items : list (list (list float)) }.

Record batch_aux : Type :=
  mk_batch_aux { ba_width : nat; ba_items : list (list (list float)) }.

Record batch_detections : Type := mk_batch_detections {
  b_boxes : list (list box);
  b_scores : list (list float);
  b_labels : list (list Z);
  b_other : list batch_aux
}.

Inductive call_error : Type :=
| ElemsMismatch                       (* map_fn: elems differ in their first dimension *)
| ItemFailed (e : tf_error).          (* the function raised on an item *)

(** The items [tf.map_fn] cuts [elems = [boxes, classification, other]]
    into along the first axis. *)
Definition unstack (boxes : list (list box)) (classification : batch_matrix)
           (other : list batch_aux)
  : option (list (list box * matrix * list aux)) :=
  let n := List.length boxes in
  if (List.length (bm_items classification) =? n)
     && forallb (fun o => List.length (ba_items o) =? n) other
  then Some (map (fun i =>
                    (nth i boxes [],
                     mk_matrix (bm_classes classification)
                               (nth i (bm_items classification) []),
                     map (fun o => mk_aux (ba_width o) (nth i (ba_items o) [])) other))
                 (seq 0 n))
  else None.

(** The results of the items, stacked output by output. *)
Definition stack (other : list batch_aux) (outs : list detections) : batch_detections :=
  mk_batch_detections
    (map out_boxes outs) (map out_scores outs) (map out_labels outs)
    (map (fun k =>
            mk_batch_aux (ba_width (nth k other (mk_batch_aux 0 [])))
                         (map (fun out => aux_rows (nth k (out_other out) (mk_aux 0 [])))
                              outs))
         (seq 0 (List.length other))).

(** [call]: [filter_detections] on each item of the batch. *)
Definition call (self : layer) (boxes : list (list box)) (classification : batch_matrix)
           (other : list batch_aux) : call_error + batch_detections :=
  match unstack boxes classification other with
  | None => inl ElemsMismatch
  | Some items =>
      match mapM (fun item =>
                    filter_detections (fst (fst item)) (snd (fst item)) (snd item)
                                      (layer_config self)) items with
      | Ok outs => inr (stack other outs)
      | Err e => inl (ItemFailed e)
      end
  end.

(** A layer built with the defaults, a batch of two items. *)
Definition sample_layer : layer :=
  Eval vm_compute in
    mk_layer true true (nms_threshold sample_config) (score_threshold sample_config)
             4 32 [("name"%string, PStr "filtered_detections")].

Definition sample_batch_boxes : list (list box) := [sample_boxes; sample_boxes].

Definition sample_batch_scores : batch_matrix :=
  Eval vm_compute in
    mk_batch_matrix 2 [rows sample_classification; rows nan_classification].

Definition sample_batch_other : list batch_aux :=
  Eval vm_compute in
    map (fun o => mk_batch_aux (aux_width o) [aux_rows o; aux_rows o]) sample_other.

Definition sample_batch_detections : batch_detections :=
  Eval vm_compute in
    match call sample_layer sample_batch_boxes sample_batch_scores sample_batch_other with
    | inr out => out
    | inl _ => mk_batch_detections [] [] [] []
    end.

End Keras.

(** ** Vocabulary of the suppression kernel *)

(** Equal up to the sign of a zero. *)
Definition eqz (x y : float) : Prop :=
  x = y \/ exists s s', x = S754_zero s /\ y = S754_zero s'.


Definition is_finite (x : float) : bool :=
  match x with
  | S754_zero _ | S754_finite _ _ _ => true
  | _ => false
  end.

(** An overlap that leaves a score as it is: a number, not above the
    threshold. *)
Definition clean (thr sim : float) : bool := SFleb sim thr && is_finite sim.

(** Candidate [c] met, among [selected], a box with which its overlap is
    above the threshold or is not a number. *)
Definition blocked (boxes : list box) (thr : float) (c : nat) (selected : list nat) : Prop :=
  exists j, In j selected /\ clean thr (similarity boxes c j) = false.

(** Entry [c] of the queue has been compared with the boxes selected
    before its [suppress_begin_index], none of which suppresses it. *)
Definition compared (boxes : list box) (thr : float) (selected : list nat)
           (c : candidate) : Prop :=
  suppress_begin_index c <= length selected /\
  Forall (fun a => keeps boxes thr a (box_index c))
         (skipn (length selected - suppress_begin_index c) selected).

(** The turns the queue can still take: one per entry and per selected
    box, out of [n], an entry has yet to be compared with. *)
Definition queue_weight (n : nat) (queue : list candidate) : nat :=
  list_sum (map (fun c => S (n - suppress_begin_index c)) queue).




(** ** Vocabulary of the further properties *)



(** Class-major order of (box index, label) pairs. *)
Definition class_major (x y : nat * Z) : Prop :=
  (snd x < snd y)%Z \/ (snd x = snd y /\ fst x < fst y).

(** * Properties *)

(** ** The order on floats *)

Module FloatOrder.
Import FloatKey.

Lemma SFltb_rank (x y : float) :
  is_nan x = false -> is_nan y = false ->
  (SFltb x y = true <-> lex_lt (rank x) (rank y)).
Proof.
  intros Hx Hy.
  destruct x as [sx|sx| |sx mx ex]; try discriminate;
    destruct y as [sy|sy| |sy my ey]; try discriminate;
    unfold SFltb; simpl;
    try (destruct sx); try (destruct sy); simpl;
    try (split; [discriminate | lia]);
    try (split; [intros _; lia | reflexivity]).
  - destruct (Z.compare_spec ex ey) as [E|E|E]; simpl.
    + fold (Pos.compare mx my).
      destruct (Pos.compare_spec mx my) as [M|M|M]; simpl;
        split; try discriminate; try reflexivity; try lia.
    + split; [discriminate | lia].
    + split; [intros _; lia | reflexivity].
  - destruct (Z.compare_spec ex ey) as [E|E|E]; simpl.
    + fold (Pos.compare mx my).
      destruct (Pos.compare_spec mx my) as [M|M|M]; simpl;
        split; try discriminate; try reflexivity; try lia.
    + split; [intros _; lia | reflexivity].
    + split; [discriminate | lia].
Qed.

Lemma SFltb_not_nan (x y : float) :
  SFltb x y = true -> is_nan x = false /\ is_nan y = false.
Proof.
  unfold SFltb.
  destruct x, y; simpl; try discriminate; auto.
Qed.

Lemma SFleb_rank (x y : float) :
  is_nan x = false -> is_nan y = false ->
  (SFleb x y = true <-> ~ lex_lt (rank y) (rank x)).
Proof.
  intros Hx Hy.
  rewrite <- (SFltb_rank y x Hy Hx).
  destruct x as [sx|sx| |sx mx ex]; try discriminate;
    destruct y as [sy|sy| |sy my ey]; try discriminate;
    unfold SFleb, SFltb; simpl;
    try (destruct sx); try (destruct sy); simpl;
    try (split; [intros _; discriminate | reflexivity ]);
    try (split; [discriminate | intros H; exfalso; apply H; reflexivity]).
  - rewrite (Z.compare_antisym ex ey).
    destruct (Z.compare_spec ex ey) as [E|E|E]; simpl;
      try (split; [intros _; discriminate | reflexivity ]);
      try (split; [discriminate | intros H; exfalso; apply H; reflexivity]).
    fold (Pos.compare mx my). fold (Pos.compare my mx).
    rewrite (Pos.compare_antisym mx my).
    destruct (Pos.compare mx my); simpl;
      try (split; [intros _; discriminate | reflexivity ]);
      try (split; [discriminate | intros H; exfalso; apply H; reflexivity]).
  - rewrite (Z.compare_antisym ex ey).
    destruct (Z.compare_spec ex ey) as [E|E|E]; simpl;
      try (split; [intros _; discriminate | reflexivity ]);
      try (split; [discriminate | intros H; exfalso; apply H; reflexivity]).
    fold (Pos.compare mx my). fold (Pos.compare my mx).
    rewrite (Pos.compare_antisym mx my).
    destruct (Pos.compare mx my); simpl;
      try (split; [intros _; discriminate | reflexivity ]);
      try (split; [discriminate | intros H; exfalso; apply H; reflexivity]).
Qed.

End FloatOrder.

Lemma greater_not_nan (x y : float) :
  greater x y = true -> is_nan x = false /\ is_nan y = false.
Proof.
  unfold greater. intros H.
  destruct (FloatOrder.SFltb_not_nan _ _ H). auto.
Qed.

Lemma greater_nan_l (y : float) : greater S754_nan y = false.
Proof. unfold greater, SFltb. destruct y; reflexivity. Qed.

Ltac rank_solve :=
  unfold FloatKey.lex_lt in *;
  repeat match goal with
         | |- context [FloatKey.rank ?x] =>
             let a := fresh "a" in let b := fresh "b" in let c := fresh "c" in
             destruct (FloatKey.rank x) as [[a b] c]
         | H : context [FloatKey.rank ?x] |- _ =>
             let a := fresh "a" in let b := fresh "b" in let c := fresh "c" in
             destruct (FloatKey.rank x) as [[a b] c]
         end;
  lia.

Lemma greater_trans (a b c : float) :
  greater a b = true -> greater b c = true -> greater a c = true.
Proof.
  intros Hab Hbc.
  destruct (greater_not_nan _ _ Hab) as [Na Nb].
  destruct (greater_not_nan _ _ Hbc) as [_ Nc].
  unfold greater in *.
  apply FloatOrder.SFltb_rank in Hab; auto.
  apply FloatOrder.SFltb_rank in Hbc; auto.
  apply FloatOrder.SFltb_rank; auto.
  rank_solve.
Qed.

Lemma greater_asym (a b : float) :
  greater a b = true -> greater b a = false.
Proof.
  intros Hab.
  destruct (greater_not_nan _ _ Hab) as [Na Nb].
  destruct (greater b a) eqn:Hba; auto.
  unfold greater in *.
  apply FloatOrder.SFltb_rank in Hab; auto.
  apply FloatOrder.SFltb_rank in Hba; auto.
  exfalso. rank_solve.
Qed.

Lemma greater_irrefl (x : float) : greater x x = false.
Proof.
  destruct (greater x x) eqn:G; auto.
  pose proof (greater_asym _ _ G). congruence.
Qed.

(** Negative transitivity away from NaN: "not greater" composes. *)
Lemma not_greater_trans (a b c : float) :
  is_nan a = false -> is_nan b = false -> is_nan c = false ->
  greater a b = false -> greater b c = false -> greater a c = false.
Proof.
  intros Na Nb Nc Hab Hbc.
  destruct (greater a c) eqn:Hac; auto.
  unfold greater in *.
  apply FloatOrder.SFltb_rank in Hac; auto.
  assert (~ FloatKey.lex_lt (FloatKey.rank b) (FloatKey.rank a)) as H1.
  { intros H. apply FloatOrder.SFltb_rank in H; auto. congruence. }
  assert (~ FloatKey.lex_lt (FloatKey.rank c) (FloatKey.rank b)) as H2.
  { intros H. apply FloatOrder.SFltb_rank in H; auto. congruence. }
  exfalso. rank_solve.
Qed.

Lemma greater_not_greater_trans (a b c : float) :
  is_nan c = false ->
  greater a b = true -> greater c b = false -> greater a c = true.
Proof.
  intros Nc Hab Hcb.
  destruct (greater_not_nan _ _ Hab) as [Na Nb].
  destruct (greater a c) eqn:Hac; auto.
  assert (greater a b = false) by (apply (not_greater_trans a c b); auto).
  congruence.
Qed.

Lemma not_greater_greater_trans (a b c : float) :
  is_nan a = false ->
  greater b a = false -> greater b c = true -> greater a c = true.
Proof.
  intros Na Hba Hbc.
  destruct (greater_not_nan _ _ Hbc) as [Nb Nc].
  destruct (greater a c) eqn:Hac; auto.
  assert (greater b c = false) by (apply (not_greater_trans b a c); auto).
  congruence.
Qed.

Lemma not_greater_SFleb (a b : float) :
  is_nan a = false -> is_nan b = false ->
  greater b a = false -> SFleb b a = true.
Proof.
  intros Na Nb H.
  apply FloatOrder.SFleb_rank; auto.
  intros L. apply FloatOrder.SFltb_rank in L; auto.
  unfold greater in H. congruence.
Qed.

Lemma greater_not_SFleb (a b : float) :
  greater a b = true -> SFleb a b = false.
Proof.
  intros H.
  destruct (greater_not_nan _ _ H) as [Na Nb].
  destruct (SFleb a b) eqn:L; auto.
  apply FloatOrder.SFleb_rank in L; auto.
  unfold greater in H. apply FloatOrder.SFltb_rank in H; auto.
  contradiction.
Qed.


(** ** Equality, symmetry of the overlap, and the unit of multiplication *)

Lemma SFeqb_rank (x y : float) :
  is_nan x = false -> is_nan y = false ->
  (SFeqb x y = true <-> FloatKey.rank x = FloatKey.rank y).
Proof.
  intros Hx Hy.
  destruct x as [sx|sx| |sx mx ex]; try discriminate;
    destruct y as [sy|sy| |sy my ey]; try discriminate;
    unfold SFeqb; simpl;
    try (destruct sx); try (destruct sy); simpl;
    try (split; [discriminate | intros H; discriminate H]);
    try (split; reflexivity).
  all: destruct (Z.compare_spec ex ey) as [E|E|E]; simpl;
    [ fold (Pos.compare mx my); destruct (Pos.compare_spec mx my) as [M|M|M]; simpl | | ];
    split; intros H; try discriminate H; subst; try reflexivity;
    try (injection H; intros; lia).
Qed.


Lemma SFeqb_refl (x : float) : is_nan x = false -> SFeqb x x = true.
Proof. intros H. apply SFeqb_rank; auto. Qed.





Lemma eqz_sym (x y : float) : eqz x y -> eqz y x.
Proof.
  intros [-> | (s & s' & -> & ->)]; [left; reflexivity | right; eauto].
Qed.



Ltac eqz_cases H :=
  destruct H as [-> | (? & ? & -> & ->)].








Lemma SFleb_eqz (x y thr : float) : eqz x y -> SFleb x thr = SFleb y thr.
Proof.
  intros H. eqz_cases H; [reflexivity | ].
  unfold SFleb. destruct thr; reflexivity.
Qed.




Lemma f32_sub_nan_l (a b : float) : is_nan a = true -> f32_sub a b = S754_nan.
Proof. destruct a; try discriminate. reflexivity. Qed.






(** ** The error monad and the list primitives *)

Ltac inv_bind H :=
  repeat match type of H with
         | bind ?c _ = Ok _ =>
             let E := fresh "E" in
             destruct c eqn:E; simpl in H; [ | discriminate H ]
         | (if ?b then _ else _) = Ok _ =>
             let E := fresh "E" in
             destruct b eqn:E; simpl in H; try discriminate H
         end.

Lemma mapM_Forall2 {A B : Type} (f : A -> result B) (l : list A) (r : list B) :
  mapM f l = Ok r -> Forall2 (fun a b => f a = Ok b) l r.
Proof.
  revert r. induction l as [|a l IH]; intros r H; simpl in H.
  - injection H as <-. constructor.
  - inv_bind H. injection H as <-. constructor; auto.
Qed.

Lemma Forall2_nth_l {A B : Type} (R : A -> B -> Prop) (l : list A) (r : list B) :
  Forall2 R l r ->
  forall i a, nth_error l i = Some a -> exists b, nth_error r i = Some b /\ R a b.
Proof.
  induction 1 as [|a0 b0 l r Hab _ IH]; intros i a Hi.
  - destruct i; discriminate.
  - destruct i as [|i]; simpl in *.
    + injection Hi as <-. eauto.
    + eauto.
Qed.

Lemma Forall2_nth_r {A B : Type} (R : A -> B -> Prop) (l : list A) (r : list B) :
  Forall2 R l r ->
  forall i b, nth_error r i = Some b -> exists a, nth_error l i = Some a /\ R a b.
Proof.
  induction 1 as [|a0 b0 l r Hab _ IH]; intros i b Hi.
  - destruct i; discriminate.
  - destruct i as [|i]; simpl in *.
    + injection Hi as <-. eauto.
    + eauto.
Qed.

Lemma Forall2_len {A B : Type} (R : A -> B -> Prop) (l : list A) (r : list B) :
  Forall2 R l r -> length l = length r.
Proof. induction 1; simpl; auto. Qed.

Lemma mapM_length {A B : Type} (f : A -> result B) (l : list A) (r : list B) :
  mapM f l = Ok r -> length r = length l.
Proof. intros H. symmetry. exact (Forall2_len _ _ _ (mapM_Forall2 _ _ _ H)). Qed.

Lemma mapM_total {A B : Type} (f : A -> result B) (l : list A) :
  Forall (fun a => exists b, f a = Ok b) l -> exists r, mapM f l = Ok r.
Proof.
  induction 1 as [|a l [b Hb] _ [r IH]]; simpl.
  - eauto.
  - rewrite Hb, IH. simpl. eauto.
Qed.

Lemma gather_Forall2 {A : Type} (params : list A) (indices : list nat) (r : list A) :
  gather params indices = Ok r ->
  Forall2 (fun i a => nth_error params i = Some a) indices r.
Proof.
  intros H. apply mapM_Forall2 in H.
  induction H as [|i a l r Hia _ IH]; constructor; auto.
  destruct (nth_error params i); [injection Hia as <-; reflexivity | discriminate].
Qed.

Lemma gather_length {A : Type} (params : list A) (indices : list nat) (r : list A) :
  gather params indices = Ok r -> length r = length indices.
Proof. apply mapM_length. Qed.

Lemma gather_nth {A : Type} (params : list A) (indices : list nat) (r : list A) :
  gather params indices = Ok r ->
  forall i p, nth_error indices i = Some p ->
              exists a, nth_error r i = Some a /\ nth_error params p = Some a.
Proof.
  intros H i p Hi.
  destruct (Forall2_nth_l _ _ _ (gather_Forall2 _ _ _ H) _ _ Hi) as [a [Ha Hp]]. eauto.
Qed.

Lemma gather_total {A : Type} (params : list A) (indices : list nat) :
  Forall (fun i => i < length params) indices ->
  exists r, gather params indices = Ok r.
Proof.
  intros H. apply mapM_total.
  eapply Forall_impl; [ | exact H ].
  intros i Hi. simpl in Hi.
  destruct (nth_error params i) eqn:E; eauto.
  apply nth_error_None in E. lia.
Qed.

(** Positions and values of [enumerate]. *)
Lemma in_combine_seq {A : Type} (l : list A) (a p : nat) (v : A) :
  In (p, v) (combine (seq a (length l)) l) <->
  a <= p /\ nth_error l (p - a) = Some v.
Proof.
  revert a. induction l as [|x l IH]; intros a; simpl.
  - split; [tauto | intros [_ H]; destruct (p - a); discriminate].
  - rewrite IH. split.
    + intros [H | [H1 H2]].
      * injection H as <- <-. rewrite Nat.sub_diag. simpl. auto.
      * split; [lia | ]. replace (p - a) with (S (p - S a)) by lia. exact H2.
    + intros [H1 H2].
      destruct (Nat.eq_dec a p) as [<- | Hne].
      * rewrite Nat.sub_diag in H2. simpl in H2. injection H2 as <-. auto.
      * right. split; [lia | ].
        replace (p - a) with (S (p - S a)) in H2 by lia. exact H2.
Qed.

Lemma in_enumerate {A : Type} (l : list A) (p : nat) (v : A) :
  In (p, v) (enumerate l) <-> nth_error l p = Some v.
Proof.
  unfold enumerate. rewrite in_combine_seq, Nat.sub_0_r.
  split; [tauto | split; [lia | assumption]].
Qed.

Lemma combine_seq_increasing {A : Type} (l : list A) (a : nat) :
  StronglySorted (fun x y : nat * A => fst x < fst y) (combine (seq a (length l)) l).
Proof.
  revert a. induction l as [|x l IH]; intros a; simpl; constructor; auto.
  apply Forall_forall. intros [p v] Hin.
  apply (proj1 (in_combine_seq _ _ _ _)) in Hin. simpl. lia.
Qed.

Lemma enumerate_increasing {A : Type} (l : list A) :
  StronglySorted (fun x y : nat * A => fst x < fst y) (enumerate l).
Proof. apply combine_seq_increasing. Qed.

Lemma enumerate_length {A : Type} (l : list A) : length (enumerate l) = length l.
Proof. unfold enumerate. rewrite length_combine, length_seq. lia. Qed.

(** Generic facts on [StronglySorted], used here for any relation between
    an earlier and a later element. *)
Lemma StronglySorted_app_inv_l {A : Type} (R : A -> A -> Prop) (l1 l2 : list A) :
  StronglySorted R (l1 ++ l2) -> StronglySorted R l1.
Proof.
  induction l1 as [|a l1 IH]; simpl; intros H; [constructor | ].
  inversion H as [|? ? Hs Hf]; subst. constructor; auto.
  apply Forall_app in Hf. tauto.
Qed.

Lemma StronglySorted_drop_mid {A : Type} (R : A -> A -> Prop) (l1 l2 : list A) (c : A) :
  StronglySorted R (l1 ++ c :: l2) -> StronglySorted R (l1 ++ l2).
Proof.
  induction l1 as [|a l1 IH]; simpl; intros H.
  - inversion H; auto.
  - inversion H as [|? ? Hs Hf]; subst. constructor; auto.
    apply Forall_app in Hf. destruct Hf as [H1 H2].
    apply Forall_app. split; auto. inversion H2; auto.
Qed.

Lemma StronglySorted_snoc {A : Type} (R : A -> A -> Prop) (l : list A) (c : A) :
  StronglySorted R l -> Forall (fun a => R a c) l -> StronglySorted R (l ++ [c]).
Proof.
  induction 1 as [|a l Hs IH Hf]; simpl; intros Hc.
  - constructor; constructor.
  - inversion Hc; subst. constructor; auto.
    apply Forall_app. split; auto.
Qed.

Lemma StronglySorted_app {A : Type} (R : A -> A -> Prop) (l1 l2 : list A) :
  StronglySorted R l1 -> StronglySorted R l2 ->
  (forall a b, In a l1 -> In b l2 -> R a b) ->
  StronglySorted R (l1 ++ l2).
Proof.
  induction 1 as [|a l Hs IH Hf]; simpl; intros H2 Hx; auto.
  constructor.
  - apply IH; auto.
  - apply Forall_app. split; auto.
    apply Forall_forall. intros b Hb. apply Hx; auto.
Qed.

Lemma StronglySorted_map {A B : Type} (R : B -> B -> Prop) (f : A -> B) (l : list A) :
  StronglySorted (fun a b => R (f a) (f b)) l -> StronglySorted R (map f l).
Proof.
  induction 1 as [|a l Hs IH Hf]; simpl; constructor; auto.
  apply Forall_map. exact Hf.
Qed.

Lemma StronglySorted_impl {A : Type} (R Q : A -> A -> Prop) (l : list A) :
  (forall a b, In a l -> In b l -> R a b -> Q a b) ->
  StronglySorted R l -> StronglySorted Q l.
Proof.
  intros HRQ H. induction H as [|a l Hs IH Hf]; constructor.
  - apply IH. intros; apply HRQ; simpl; auto.
  - apply Forall_forall. intros b Hb.
    apply HRQ; simpl; auto. rewrite Forall_forall in Hf. auto.
Qed.

Lemma StronglySorted_nth {A : Type} (R : A -> A -> Prop) (l : list A) :
  StronglySorted R l ->
  forall i j a b, i < j -> nth_error l i = Some a -> nth_error l j = Some b -> R a b.
Proof.
  induction 1 as [|x l Hs IH Hf]; intros i j a b Hij Hi Hj.
  - destruct i; discriminate.
  - destruct j as [|j]; [lia | ]. simpl in Hj.
    destruct i as [|i]; simpl in Hi.
    + injection Hi as <-. rewrite Forall_forall in Hf.
      apply Hf. eapply nth_error_In; eauto.
    + apply (IH i j); auto. lia.
Qed.

Lemma StronglySorted_firstn {A : Type} (R : A -> A -> Prop) (l : list A) (n : nat) :
  StronglySorted R l -> StronglySorted R (firstn n l).
Proof.
  intros H. rewrite <- (firstn_skipn n l) in H.
  eapply StronglySorted_app_inv_l; eauto.
Qed.

Lemma In_firstn {A : Type} (n : nat) (l : list A) (a : A) :
  In a (firstn n l) -> In a l.
Proof.
  intros H. rewrite <- (firstn_skipn n l). apply in_or_app. auto.
Qed.

Lemma StronglySorted_filter {A : Type} (R : A -> A -> Prop) (f : A -> bool) (l : list A) :
  StronglySorted R l -> StronglySorted R (filter f l).
Proof.
  induction 1 as [|a l Hs IH Hf]; simpl; [constructor | ].
  destruct (f a); auto. constructor; auto.
  apply Forall_forall. intros b Hb. apply filter_In in Hb.
  rewrite Forall_forall in Hf. apply Hf. tauto.
Qed.

Lemma StronglySorted_lt_NoDup (l : list nat) :
  StronglySorted lt l -> NoDup l.
Proof.
  induction 1 as [|a l Hs IH Hf]; constructor; auto.
  intros Hin. rewrite Forall_forall in Hf. specialize (Hf _ Hin). lia.
Qed.

(** ** The stable descending sort *)

Lemma before_trans (x y z : nat * float) :
  is_nan (snd x) = false -> is_nan (snd y) = false -> is_nan (snd z) = false ->
  before x y -> before y z -> before x z.
Proof.
  unfold before. intros Nx Ny Nz [Hxy | [Hxy Pxy]] [Hyz | [Hyz Pyz]].
  - left. eapply greater_trans; eauto.
  - left. apply (greater_not_greater_trans (snd x) (snd y) (snd z)); auto.
  - left. apply (not_greater_greater_trans (snd x) (snd y) (snd z)); auto.
  - right. split; [ | lia].
    apply (not_greater_trans (snd z) (snd y) (snd x)); auto.
Qed.

Lemma insert_desc_In (x y : nat * float) (l : list (nat * float)) :
  In y (insert_desc x l) <-> y = x \/ In y l.
Proof.
  induction l as [|z l IH]; simpl.
  - intuition.
  - destruct (ranks_above (snd z) (snd x)); simpl; rewrite ?IH; intuition.
Qed.

Lemma sort_desc_In (y : nat * float) (l : list (nat * float)) :
  In y (sort_desc l) <-> In y l.
Proof.
  induction l as [|x l IH]; simpl; [tauto | ].
  rewrite insert_desc_In, IH. intuition.
Qed.

Lemma insert_desc_length (x : nat * float) (l : list (nat * float)) :
  length (insert_desc x l) = S (length l).
Proof.
  induction l as [|z l IH]; simpl; auto.
  destruct (ranks_above (snd z) (snd x)); simpl; auto.
Qed.

Lemma sort_desc_length (l : list (nat * float)) :
  length (sort_desc l) = length l.
Proof.
  induction l as [|x l IH]; simpl; auto.
  rewrite insert_desc_length. auto.
Qed.

Lemma insert_desc_sorted (x : nat * float) (l : list (nat * float)) :
  is_nan (snd x) = false ->
  Forall (fun y => is_nan (snd y) = false) l ->
  Forall (fun y => fst x < fst y) l ->
  StronglySorted before l ->
  StronglySorted before (insert_desc x l).
Proof.
  intros Nx Nl Hpos Hs.
  induction Hs as [|y l Hs IH Hf]; simpl.
  - constructor; constructor.
  - inversion Nl as [|? ? Ny Nl']; subst.
    inversion Hpos as [|? ? Py Pl']; subst.
    unfold ranks_above. rewrite Nx, orb_false_r.
    destruct (greater (snd y) (snd x)) eqn:G.
    + constructor; auto.
      apply Forall_forall. intros z Hz.
      apply (proj1 (insert_desc_In _ _ _)) in Hz. destruct Hz as [-> | Hz].
      * left. exact G.
      * rewrite Forall_forall in Hf. auto.
    + assert (before x y) as Hxy by (right; auto).
      constructor.
      * constructor; auto.
      * constructor; auto.
        apply Forall_forall. intros z Hz.
        rewrite Forall_forall in Hf, Nl'.
        apply (before_trans x y z); auto.
Qed.

Lemma sort_desc_sorted (l : list (nat * float)) :
  Forall (fun y => is_nan (snd y) = false) l ->
  StronglySorted (fun x y => fst x < fst y) l ->
  StronglySorted before (sort_desc l).
Proof.
  intros Nl Hs.
  induction Hs as [|x l Hs IH Hf]; simpl.
  - constructor.
  - inversion Nl as [|? ? Nx Nl']; subst.
    apply insert_desc_sorted; auto.
    + apply Forall_forall. intros y Hy. apply (proj1 (sort_desc_In _ _)) in Hy.
      rewrite Forall_forall in Nl'. auto.
    + apply Forall_forall. intros y Hy. apply (proj1 (sort_desc_In _ _)) in Hy.
      rewrite Forall_forall in Hf. auto.
Qed.

Lemma before_not_greater (x y : nat * float) :
  before x y -> greater (snd y) (snd x) = false.
Proof.
  intros [H | [H _]]; auto. apply greater_asym. exact H.
Qed.

(** ** top_k *)

Lemma top_k_inv (values : list float) (k : Z) (vals : list float) (idx : list nat) :
  top_k values k = Ok (vals, idx) ->
  (0 <= k <= Z.of_nat (length values))%Z /\
  vals = map snd (firstn (Z.to_nat k) (sort_desc (enumerate values))) /\
  idx = map fst (firstn (Z.to_nat k) (sort_desc (enumerate values))) /\
  length vals = Z.to_nat k /\ length idx = Z.to_nat k.
Proof.
  unfold top_k. intros H.
  destruct ((k <? 0)%Z || (Z.of_nat (length values) <? k)%Z) eqn:E; [discriminate | ].
  apply orb_false_iff in E. destruct E as [E1 E2].
  apply Z.ltb_ge in E1. apply Z.ltb_ge in E2.
  injection H as <- <-.
  repeat split; auto; rewrite length_map, length_firstn, sort_desc_length, enumerate_length; lia.
Qed.

Lemma top_k_nth (values : list float) (k : Z) (vals : list float) (idx : list nat) :
  top_k values k = Ok (vals, idx) ->
  forall i p, nth_error idx i = Some p ->
              exists v, nth_error vals i = Some v /\ nth_error values p = Some v.
Proof.
  intros H i p Hi.
  destruct (top_k_inv _ _ _ _ H) as (_ & -> & -> & _).
  rewrite nth_error_map in Hi |- *.
  destruct (nth_error (firstn (Z.to_nat k) (sort_desc (enumerate values))) i)
    as [[q v]|] eqn:E; simpl in *; [ | discriminate].
  injection Hi as ->. exists v. split; auto.
  apply nth_error_In in E. apply In_firstn in E.
  apply (proj1 (sort_desc_In _ _)) in E. apply (proj1 (in_enumerate _ _ _)) in E. exact E.
Qed.

(** Rank order: of two output positions, the earlier one holds the entry
    that comes first in the stable descending order. *)
Lemma top_k_before (values : list float) (k : Z) (vals : list float) (idx : list nat) :
  Forall (fun v => is_nan v = false) values ->
  top_k values k = Ok (vals, idx) ->
  forall i j p q v w,
    i < j ->
    nth_error idx i = Some p -> nth_error idx j = Some q ->
    nth_error vals i = Some v -> nth_error vals j = Some w ->
    before (p, v) (q, w).
Proof.
  intros Hn H i j p q v w Hij Hp Hq Hv Hw.
  destruct (top_k_inv _ _ _ _ H) as (_ & -> & -> & _).
  rewrite nth_error_map in Hp, Hq, Hv, Hw.
  destruct (nth_error (firstn (Z.to_nat k) (sort_desc (enumerate values))) i)
    as [[p' v']|] eqn:Ei; simpl in *; [ | discriminate].
  destruct (nth_error (firstn (Z.to_nat k) (sort_desc (enumerate values))) j)
    as [[q' w']|] eqn:Ej; simpl in *; [ | discriminate].
  injection Hp as ->. injection Hq as ->. injection Hv as ->. injection Hw as ->.
  eapply StronglySorted_nth; [ | exact Hij | exact Ei | exact Ej].
  apply StronglySorted_firstn. apply sort_desc_sorted.
  - apply Forall_forall. intros [a b] Hin. apply (proj1 (in_enumerate _ _ _)) in Hin.
    rewrite Forall_forall in Hn. simpl. apply Hn. eapply nth_error_In; eauto.
  - apply enumerate_increasing.
Qed.






(** ** tf.where *)

Lemma in_tf_where (mask : list bool) (i : nat) :
  In i (tf_where mask) <-> nth_error mask i = Some true.
Proof.
  unfold tf_where. rewrite in_map_iff. split.
  - intros [[p v] [Hp Hin]]. simpl in Hp. subst p.
    apply filter_In in Hin. destruct Hin as [Hin Hv]. simpl in Hv. subst v.
    apply (proj1 (in_enumerate _ _ _)) in Hin. exact Hin.
  - intros H. exists (i, true). split; auto.
    apply filter_In. split; auto. apply in_enumerate. exact H.
Qed.

Lemma in_tf_where_greater (scores : list float) (thr : float) (i : nat) :
  In i (tf_where (map (fun s => greater s thr) scores)) ->
  exists s, nth_error scores i = Some s /\ greater s thr = true.
Proof.
  intros H. apply (proj1 (in_tf_where _ _)) in H.
  rewrite nth_error_map in H.
  destruct (nth_error scores i) as [s|]; simpl in H; [ | discriminate].
  injection H as H. eauto.
Qed.

(** ** Greedy suppression *)

Lemma StronglySorted_and {A : Type} (R Q : A -> A -> Prop) (l : list A) :
  StronglySorted R l -> StronglySorted Q l ->
  StronglySorted (fun a b => R a b /\ Q a b) l.
Proof.
  induction 1 as [|a l Hs IH Hf]; intros HQ; constructor;
    inversion HQ as [|? ? HQs HQf]; subst; auto.
  rewrite Forall_forall in *. auto.
Qed.

Lemma StronglySorted_Forall2 {A B : Type} (T : A -> B -> Prop)
      (Rl : A -> A -> Prop) (Rr : B -> B -> Prop) (l : list A) (r : list B) :
  (forall a b a' b', T a a' -> T b b' -> Rl a b -> Rr a' b') ->
  Forall2 T l r -> StronglySorted Rl l -> StronglySorted Rr r.
Proof.
  intros HT H. induction H as [|a a' l r Ha Hf IH]; intros Hs.
  - constructor.
  - inversion Hs as [|? ? Hs' Hall]; subst. constructor; auto.
    apply Forall_forall. intros b' Hb'.
    destruct (In_nth_error _ _ Hb') as [i Hi].
    destruct (Forall2_nth_r _ _ _ Hf _ _ Hi) as [b [Hb Tb]].
    apply (HT a b); auto.
    rewrite Forall_forall in Hall. apply Hall. eapply nth_error_In; eauto.
Qed.

Lemma push_Permutation (c : candidate) (queue : list candidate) :
  Permutation (push c queue) (c :: queue).
Proof.
  induction queue as [|d queue IH]; simpl; [reflexivity | ].
  destruct (cmp d c); [reflexivity | ].
  rewrite IH. apply perm_swap.
Qed.

Lemma Forall_push {P : candidate -> Prop} (c : candidate) (queue : list candidate) :
  Forall P (push c queue) <-> P c /\ Forall P queue.
Proof.
  rewrite (Forall_forall P (push c queue)), (Forall_forall P queue). split.
  - intros H. split; [apply H | intros x Hx; apply H];
      apply (Permutation_in _ (Permutation_sym (push_Permutation c queue))); simpl; auto.
  - intros [Hc H] x Hx.
    apply (Permutation_in _ (push_Permutation c queue)) in Hx.
    destruct Hx as [<- | Hx]; auto.
Qed.

Lemma similarity_keeps (boxes : list box) (thr : float) (c j : nat) :
  greater (similarity boxes c j) thr = false -> keeps boxes thr j c.
Proof.
  unfold similarity, keeps. intros H ba bb Ha Hb. rewrite Hb, Ha in H. exact H.
Qed.

(** A scan that ends without hard suppression, and not on a score fallen
    to the score threshold, has met no overlap above the threshold. *)
Lemma scan_complete (boxes : list box) (thr : float) (c : nat) (js : list nat) :
  forall s s',
    scan boxes thr c js s = (s', false) -> SFleb s' neg_infinity = false ->
    Forall (fun j => keeps boxes thr j c) js.
Proof.
  induction js as [|j js IH]; intros s s' H Hs'; simpl in H; [constructor | ].
  destruct (greater (similarity boxes c j) thr) eqn:G; [discriminate | ].
  destruct (SFleb (f32_mul s (suppress_weight thr (similarity boxes c j))) neg_infinity)
    eqn:L.
  - injection H as <-. congruence.
  - constructor; [apply similarity_keeps; exact G | eapply IH; eauto].
Qed.

Lemma SFleb_neg_infinity (a : float) : SFleb a neg_infinity = true -> a = neg_infinity.
Proof. destruct a as [[]|[]| |[] ? ?]; simpl; intros H; try discriminate H; reflexivity. Qed.

Lemma SFeqb_above (a b : float) :
  SFeqb a b = true -> greater b neg_infinity = true -> SFleb a neg_infinity = false.
Proof.
  intros E G. destruct (SFleb a neg_infinity) eqn:L; auto.
  apply SFleb_neg_infinity in L. subst a.
  destruct b as [[]|[]| |[] ? ?]; simpl in *; discriminate.
Qed.

(** The turns of the loop, as a rule of proof: a property of the queue and
    of the selected boxes that every turn preserves holds when the loop
    ends. *)
Lemma nms_loop_rule (boxes : list box) (thr : float) (m : nat)
      (P : list candidate -> list nat -> Prop) (Q : list nat -> Prop) :
  (forall queue selected, P queue selected -> Q (rev selected)) ->
  (forall next queue selected s,
      P (next :: queue) selected -> length selected < m ->
      let js := firstn (length selected - suppress_begin_index next) selected in
      (scan boxes thr (box_index next) js (score next) = (s, true) -> P queue selected) /\
      (scan boxes thr (box_index next) js (score next) = (s, false) ->
       (SFeqb s (score next) = true -> P queue (box_index next :: selected)) /\
       (SFeqb s (score next) = false -> greater s neg_infinity = true ->
        P (push (mk_candidate (box_index next) s (length selected)) queue) selected) /\
       (SFeqb s (score next) = false -> greater s neg_infinity = false ->
        P queue selected))) ->
  forall fuel queue selected,
    P queue selected -> Q (nms_loop boxes thr m fuel queue selected).
Proof.
  intros Hend Hturn. induction fuel as [|fuel IH]; intros queue selected HP; simpl.
  - apply Hend with (queue := queue). exact HP.
  - destruct (length selected <? m) eqn:Hm; [ | apply Hend with (queue := queue); exact HP].
    apply Nat.ltb_lt in Hm.
    destruct queue as [|next queue]; [apply Hend with (queue := []); exact HP | ].
    destruct (scan boxes thr (box_index next)
                (firstn (length selected - suppress_begin_index next) selected)
                (score next)) as [s hard] eqn:Es.
    destruct (Hturn next queue selected s HP Hm) as [H1 H2].
    destruct hard.
    + apply IH. apply H1. exact Es.
    + destruct (H2 Es) as (H3 & H4 & H5).
      destruct (SFeqb s (score next)) eqn:E.
      * apply IH. apply H3. reflexivity.
      * destruct (greater s neg_infinity) eqn:G; apply IH; auto.
Qed.

Lemma compared_all (boxes : list box) (thr : float) (selected : list nat)
      (next : candidate) (s s' : float) :
  compared boxes thr selected next ->
  scan boxes thr (box_index next)
       (firstn (length selected - suppress_begin_index next) selected) s = (s', false) ->
  SFleb s' neg_infinity = false ->
  Forall (fun a => keeps boxes thr a (box_index next)) selected.
Proof.
  intros [_ Hold] Hs Hl.
  rewrite <- (firstn_skipn (length selected - suppress_begin_index next) selected).
  apply Forall_app. split; [eapply scan_complete; eauto | exact Hold].
Qed.

Lemma compared_cons (boxes : list box) (thr : float) (selected : list nat)
      (a : nat) (c : candidate) :
  compared boxes thr selected c -> compared boxes thr (a :: selected) c.
Proof.
  intros [Hle H]. split; [simpl; lia | ].
  simpl length. replace (S (length selected) - suppress_begin_index c)
    with (S (length selected - suppress_begin_index c)) by lia.
  exact H.
Qed.

(** What the loop guarantees of the boxes it returns: each was in the
    queue or selected already, none twice, no more than [m] of them, and
    none overlaps one selected before it by more than the threshold. *)
Lemma nms_loop_safe (boxes : list box) (thr : float) (m : nat) (I : nat -> Prop)
      (fuel : nat) (queue : list candidate) (selected : list nat) :
  Forall (fun c => greater (score c) neg_infinity = true) queue ->
  Forall (compared boxes thr selected) queue ->
  StronglySorted (keeps boxes thr) (rev selected) ->
  NoDup (map box_index queue ++ selected) ->
  Forall I (map box_index queue ++ selected) ->
  length selected <= m ->
  let r := nms_loop boxes thr m fuel queue selected in
  StronglySorted (keeps boxes thr) r /\ NoDup r /\ Forall I r /\ length r <= m.
Proof.
  intros H1 H2 H3 H4 H5 H6.
  apply (nms_loop_rule boxes thr m
           (fun queue selected =>
              Forall (fun c => greater (score c) neg_infinity = true) queue /\
              Forall (compared boxes thr selected) queue /\
              StronglySorted (keeps boxes thr) (rev selected) /\
              NoDup (map box_index queue ++ selected) /\
              Forall I (map box_index queue ++ selected) /\
              length selected <= m)
           (fun r => StronglySorted (keeps boxes thr) r /\ NoDup r /\ Forall I r
                     /\ length r <= m)); [ | | tauto].
  - clear. intros queue selected (_ & _ & Hs & Hn & Hi & Hl).
    split; [exact Hs | ]. split; [ | split].
    + apply NoDup_rev. eapply NoDup_app_remove_l; eauto.
    + apply Forall_rev. apply Forall_app in Hi. tauto.
    + rewrite length_rev. exact Hl.
  - clear. intros next queue selected s (Hsc & Hcmp & Hs & Hn & Hi & Hl) Hm js.
    inversion Hsc as [|? ? Hnext Hsc']; subst.
    inversion Hcmp as [|? ? Hcn Hcmp']; subst.
    simpl in Hn, Hi.
    assert (NoDup (map box_index queue ++ selected)) as Hn'
        by (inversion Hn; assumption).
    assert (Forall I (map box_index queue ++ selected)) as Hi'
        by (inversion Hi; assumption).
    split; [intros _; tauto | ].
    intros Es. split; [ | split].
    + intros E.
      pose proof (compared_all _ _ _ _ _ _ Hcn Es (SFeqb_above _ _ E Hnext)) as Hall.
      split; [exact Hsc' | ]. split; [ | split; [ | split; [ | split]]].
      * eapply Forall_impl; [ | exact Hcmp']. intros c. apply compared_cons.
      * simpl. apply StronglySorted_snoc; auto. apply Forall_rev. exact Hall.
      * eapply Permutation_NoDup; [apply Permutation_middle | exact Hn].
      * eapply Permutation_Forall; [apply Permutation_middle | exact Hi].
      * simpl. lia.
    + intros E G.
      pose proof (compared_all _ _ _ _ _ _ Hcn Es (greater_not_SFleb _ _ G)) as Hall.
      split; [apply Forall_push; split; auto | ].
      split; [apply Forall_push; split; auto | ].
      * split; simpl; [lia | ]. rewrite Nat.sub_diag. exact Hall.
      * split; [exact Hs | ].
        assert (Permutation
                  (map box_index
                       (push (mk_candidate (box_index next) s (length selected)) queue)
                   ++ selected)
                  (box_index next :: map box_index queue ++ selected)) as Hp.
        { rewrite (Permutation_map box_index (push_Permutation _ queue)). reflexivity. }
        split; [ | split; [ | exact Hl]].
        -- eapply Permutation_NoDup; [apply Permutation_sym; exact Hp | exact Hn].
        -- eapply Permutation_Forall; [apply Permutation_sym; exact Hp | exact Hi].
    + intros _ _. tauto.
Qed.

Lemma initial_queue_Permutation (scores : list float) :
  Permutation (initial_queue scores)
              (map (fun p => mk_candidate (fst p) (snd p) 0)
                   (filter (fun p => greater (snd p) neg_infinity) (enumerate scores))).
Proof.
  unfold initial_queue.
  assert (forall (l : list (nat * float)) acc,
             Permutation
               (fold_left (fun queue p => if greater (snd p) neg_infinity
                                          then push (mk_candidate (fst p) (snd p) 0) queue
                                          else queue) l acc)
               (map (fun p => mk_candidate (fst p) (snd p) 0)
                    (filter (fun p => greater (snd p) neg_infinity) l) ++ acc)) as H.
  { induction l as [|p l IH]; intros acc; simpl; [reflexivity | ].
    rewrite IH. destruct (greater (snd p) neg_infinity); [ | reflexivity].
    simpl. rewrite push_Permutation. symmetry. apply Permutation_middle. }
  rewrite H, app_nil_r. reflexivity.
Qed.

Lemma in_initial_queue (scores : list float) (c : candidate) :
  In c (initial_queue scores) <->
  nth_error scores (box_index c) = Some (score c) /\
  greater (score c) neg_infinity = true /\ suppress_begin_index c = 0.
Proof.
  split.
  - intros H. apply (Permutation_in _ (initial_queue_Permutation scores)) in H.
    apply in_map_iff in H. destruct H as ([p v] & <- & H). simpl.
    apply filter_In in H. destruct H as [H G].
    apply (proj1 (in_enumerate _ _ _)) in H. auto.
  - intros (H & G & Z).
    apply (Permutation_in _ (Permutation_sym (initial_queue_Permutation scores))).
    apply in_map_iff. exists (box_index c, score c). split.
    + destruct c; simpl in *. subst. reflexivity.
    + apply filter_In. split; [apply in_enumerate; exact H | exact G].
Qed.


Lemma initial_queue_NoDup (scores : list float) :
  NoDup (map box_index (initial_queue scores)).
Proof.
  eapply Permutation_NoDup.
  - apply Permutation_sym. apply Permutation_map. apply initial_queue_Permutation.
  - rewrite map_map. simpl. apply StronglySorted_lt_NoDup.
    apply StronglySorted_map. apply StronglySorted_filter. apply enumerate_increasing.
Qed.


(** What one call of the suppression returns: positions into its input
    whose score is above minus infinity, none twice, none overlapping one
    selected before it by more than the threshold, at most
    [max_output_size] of them. *)
Lemma non_max_suppression_spec (fb : list box) (fs : list float) (m : Z) (thr : float)
      (sel : list nat) :
  non_max_suppression fb fs m thr = Ok sel ->
  StronglySorted (keeps fb thr) sel /\
  NoDup sel /\
  Forall (fun a => exists s, nth_error fs a = Some s /\ greater s neg_infinity = true) sel /\
  (Z.of_nat (length sel) <= m < 2 ^ 31)%Z /\
  SFleb f32_zero thr && SFleb thr f32_one = true /\
  length fb = length fs.
Proof.
  unfold non_max_suppression, to_int32. intros H.
  destruct ((- 2 ^ 31 <=? m)%Z && (m <? 2 ^ 31)%Z) eqn:E0; simpl in H; [ | discriminate].
  destruct (negb (SFleb f32_zero thr && SFleb thr f32_one)) eqn:E2; [discriminate | ].
  destruct (negb (length fb =? length fs)) eqn:E1; [discriminate | ].
  destruct (m <? 0)%Z eqn:E3; [discriminate | ].
  injection H as <-.
  apply andb_true_iff in E0. destruct E0 as [_ E0]. apply Z.ltb_lt in E0.
  apply negb_false_iff in E2. apply negb_false_iff in E1. apply Nat.eqb_eq in E1.
  apply Z.ltb_ge in E3.
  destruct (nms_loop_safe fb thr (Z.to_nat m)
              (fun a => exists s, nth_error fs a = Some s /\ greater s neg_infinity = true)
              (turns (length fs)) (initial_queue fs) [])
    as (K1 & K2 & K3 & K4).
  - apply Forall_forall. intros c Hc. apply in_initial_queue in Hc. tauto.
  - apply Forall_forall. intros c Hc. apply in_initial_queue in Hc.
    destruct Hc as (_ & _ & Z). split; [simpl; lia | ]. simpl. constructor.
  - constructor.
  - rewrite app_nil_r. apply initial_queue_NoDup.
  - rewrite app_nil_r. apply Forall_forall. intros a Ha.
    apply in_map_iff in Ha. destruct Ha as (c & <- & Hc).
    apply in_initial_queue in Hc. exists (score c). tauto.
  - simpl. lia.
  - repeat split; auto. lia.
Qed.

Lemma non_max_suppression_range (fb : list box) (fs : list float) (m : Z) (thr : float)
      (sel : list nat) :
  non_max_suppression fb fs m thr = Ok sel -> Forall (fun a => a < length fs) sel.
Proof.
  intros H. destruct (non_max_suppression_spec _ _ _ _ _ H) as (_ & _ & K & _).
  eapply Forall_impl; [ | exact K]. intros a (s & Hs & _).
  apply nth_error_Some. congruence.
Qed.

Lemma non_max_suppression_total (fb : list box) (fs : list float) (m : Z) (thr : float) :
  length fb = length fs ->
  SFleb f32_zero thr && SFleb thr f32_one = true ->
  (0 <= m < 2 ^ 31)%Z ->
  exists sel, non_max_suppression fb fs m thr = Ok sel.
Proof.
  intros Hl Ht Hm. unfold non_max_suppression, to_int32.
  destruct ((- 2 ^ 31 <=? m)%Z && (m <? 2 ^ 31)%Z) eqn:E0.
  2:{ apply andb_false_iff in E0. destruct E0 as [E0 | E0];
        [apply Z.leb_gt in E0 | apply Z.ltb_ge in E0]; lia. }
  simpl. rewrite Hl, Nat.eqb_refl, Ht. simpl.
  destruct (m <? 0)%Z eqn:E; [apply Z.ltb_lt in E; lia | ]. eauto.
Qed.

(** ** What suppression leaves out *)
















Lemma blocked_mono (boxes : list box) (thr : float) (c : nat) (l1 l2 : list nat) :
  (forall a, In a l1 -> In a l2) -> blocked boxes thr c l1 -> blocked boxes thr c l2.
Proof. intros H (j & Hj & Hc). exists j. auto. Qed.

Lemma queue_weight_push (n : nat) (c : candidate) (queue : list candidate) :
  queue_weight n (push c queue) = S (n - suppress_begin_index c) + queue_weight n queue.
Proof.
  unfold queue_weight.
  rewrite (Permutation_list_sum
             (Permutation_map (fun c => S (n - suppress_begin_index c))
                              (push_Permutation c queue))).
  reflexivity.
Qed.

Lemma push_length (c : candidate) (queue : list candidate) :
  length (push c queue) = S (length queue).
Proof. apply (Permutation_length (push_Permutation c queue)). Qed.











(** The number of turns handed to the loop is enough: with at least the
    weight of the queue in turns, more turns change nothing. *)
Lemma nms_loop_fuel (boxes : list box) (thr : float) (m n : nat) :
  forall fuel fuel' queue selected,
    Forall (fun c => is_nan (score c) = false) queue ->
    Forall (fun c => suppress_begin_index c <= length selected) queue ->
    length queue + length selected <= n ->
    queue_weight n queue <= fuel -> queue_weight n queue <= fuel' ->
    nms_loop boxes thr m fuel queue selected = nms_loop boxes thr m fuel' queue selected.
Proof.
  assert (forall fuel selected, nms_loop boxes thr m fuel [] selected = rev selected) as Hnil.
  { intros [|fuel] selected; simpl; [reflexivity | ].
    destruct (length selected <? m); reflexivity. }
  induction fuel as [|fuel IH]; intros fuel' queue selected Hq Hb Hn Hw Hw'.
  - destruct queue as [|c queue]; [rewrite !Hnil; reflexivity | ].
    unfold queue_weight in Hw. simpl in Hw. lia.
  - destruct fuel' as [|fuel'].
    { destruct queue as [|c queue]; [rewrite !Hnil; reflexivity | ].
      unfold queue_weight in Hw'. simpl in Hw'. lia. }
    simpl. destruct (length selected <? m); [ | reflexivity].
    destruct queue as [|next queue]; [reflexivity | ].
    inversion Hq as [|? ? Nn Hq']; subst.
    inversion Hb as [|? ? Bn Hb']; subst.
    unfold queue_weight in Hw, Hw'. simpl in Hw, Hw', Hn.
    fold (queue_weight n queue) in Hw, Hw'.
    destruct (scan boxes thr (box_index next)
                (firstn (length selected - suppress_begin_index next) selected)
                (score next)) as [s hard] eqn:Es.
    destruct hard; [apply IH; auto; lia | ].
    destruct (SFeqb s (score next)) eqn:E.
    + apply IH; auto; try (simpl; lia).
      eapply Forall_impl; [ | exact Hb']. simpl. intros; lia.
    + destruct (greater s neg_infinity) eqn:G; [ | apply IH; auto; lia].
      assert (suppress_begin_index next < length selected) as Hlt.
      { destruct (Nat.lt_ge_cases (suppress_begin_index next) (length selected))
          as [L | L]; auto.
        exfalso.
        replace (length selected - suppress_begin_index next) with 0 in Es by lia.
        simpl in Es. injection Es as <-.
        rewrite SFeqb_refl in E; [discriminate | exact Nn]. }
      apply IH.
      * apply Forall_push. split; auto. simpl. apply greater_not_nan in G. tauto.
      * apply Forall_push. split; auto.
      * rewrite push_length. lia.
      * rewrite queue_weight_push. simpl. lia.
      * rewrite queue_weight_push. simpl. lia.
Qed.

(** ** The order of the queue, and ties *)












(** ** Row maximum and its index *)

Lemma greater_neg_infinity (y : float) : greater neg_infinity y = false.
Proof. unfold greater, SFltb. destruct y as [[]|[]| |[] ? ?]; reflexivity. Qed.

Lemma argmax_from_spec (l : list float) :
  forall a i v j w,
    argmax_from (combine (seq a (length l)) l) (i, v) = (j, w) ->
    w = fold_left (fun acc x => if greater x acc then x else acc) l v /\
    ((j, w) = (i, v) \/ (a <= j /\ nth_error l (j - a) = Some w)).
Proof.
  induction l as [|x l IH]; intros a i v j w H; simpl in H.
  - injection H as <- <-. auto.
  - simpl. destruct (greater x v) eqn:G.
    + destruct (IH (S a) a x j w H) as [H1 H2]. split; [exact H1 | ].
      right. destruct H2 as [H2 | [H2 H3]].
      * injection H2 as -> ->. rewrite Nat.sub_diag. auto.
      * split; [lia | ]. replace (j - a) with (S (j - S a)) by lia. exact H3.
    + destruct (IH (S a) i v j w H) as [H1 H2]. split; [exact H1 | ].
      destruct H2 as [H2 | [H2 H3]]; auto.
      right. split; [lia | ]. replace (j - a) with (S (j - S a)) by lia. exact H3.
Qed.

(** The maximum of a row is NaN when the row holds NaN, and the fold of
    the strict comparison otherwise. *)
Lemma reduce_max_fold (r : list float) :
  reduce_max r
  = if existsb is_nan r then S754_nan
    else fold_left (fun acc x => if greater x acc then x else acc) r neg_infinity.
Proof.
  unfold reduce_max.
  assert (forall acc,
             fold_left (fun acc x => if is_nan acc || is_nan x then S754_nan
                                     else if greater x acc then x else acc) r acc
             = if is_nan acc || existsb is_nan r then S754_nan
               else fold_left (fun acc x => if greater x acc then x else acc) r acc) as H.
  { induction r as [|x r IH]; intros acc; simpl.
    - rewrite orb_false_r. destruct acc; reflexivity.
    - rewrite IH. destruct (is_nan acc) eqn:Na; simpl; [reflexivity | ].
      destruct (is_nan x) eqn:Nx; simpl; [reflexivity | ].
      destruct (greater x acc); [rewrite Nx | rewrite Na]; reflexivity. }
  rewrite H. reflexivity.
Qed.

Lemma existsb_is_nan (r : list float) :
  existsb is_nan r = false <-> Forall (fun v => is_nan v = false) r.
Proof.
  induction r as [|x r IH]; simpl.
  - split; auto.
  - rewrite orb_false_iff, IH. split.
    + intros [H1 H2]. constructor; auto.
    + intros H. inversion H; auto.
Qed.

(** A maximum that is not NaN: the row holds no NaN. *)
Lemma reduce_max_not_nan (r : list float) :
  is_nan (reduce_max r) = false ->
  Forall (fun v => is_nan v = false) r /\
  reduce_max r = fold_left (fun acc x => if greater x acc then x else acc) r neg_infinity.
Proof.
  rewrite reduce_max_fold. destruct (existsb is_nan r) eqn:E; [discriminate | ].
  intros _. split; [apply existsb_is_nan; exact E | reflexivity].
Qed.

Lemma reduce_max_nan (r : list float) :
  Exists (fun v => is_nan v = true) r -> reduce_max r = S754_nan.
Proof.
  intros H. rewrite reduce_max_fold.
  destruct (existsb is_nan r) eqn:E; [reflexivity | ].
  apply existsb_is_nan in E. apply Exists_exists in H. destruct H as (v & Hv & Hn).
  rewrite Forall_forall in E. rewrite (E v Hv) in Hn. discriminate.
Qed.

(** A row whose maximum passes a threshold holds that maximum at the index
    [argmax] returns. *)
Lemma argmax_row_max (r : list float) (thr : float) :
  greater (reduce_max r) thr = true ->
  nth_error r (argmax_row r) = Some (reduce_max r).
Proof.
  intros G.
  destruct (reduce_max_not_nan r) as [_ Hr]; [apply greater_not_nan in G; tauto | ].
  rewrite Hr in *. clear Hr.
  unfold argmax_row in *. unfold enumerate.
  destruct (argmax_from (combine (seq 0 (length r)) r) (0, neg_infinity))
    as [j w] eqn:E.
  destruct (argmax_from_spec r 0 0 neg_infinity j w E) as [H1 H2].
  rewrite <- H1 in *. simpl.
  destruct H2 as [H2 | [_ H2]].
  - injection H2 as -> ->. rewrite greater_neg_infinity in G. discriminate.
  - rewrite Nat.sub_0_r in H2. exact H2.
Qed.

(** ** The inner function *)

Lemma Forall2_map_fst_combine {A B : Type} (T : A -> B -> Prop) (l : list A) (r : list B) :
  Forall2 T l r -> map fst (combine l r) = l.
Proof. induction 1; simpl; congruence. Qed.

Lemma StronglySorted_map_inv {A B : Type} (R : B -> B -> Prop) (f : A -> B) (l : list A) :
  StronglySorted R (map f l) -> StronglySorted (fun a b => R (f a) (f b)) l.
Proof.
  induction l as [|a l IH]; simpl; intros H; constructor;
    inversion H as [|? ? Hs Hf]; subst; auto.
  rewrite Forall_map in Hf. exact Hf.
Qed.

Lemma Forall2_Forall_l {A B : Type} (T : A -> B -> Prop) (P : A -> Prop)
      (l : list A) (r : list B) :
  Forall2 T l r -> (forall a b, T a b -> P a) -> Forall P l.
Proof. induction 1; intros HP; constructor; eauto. Qed.

Lemma Forall2_Forall_r {A B : Type} (T : A -> B -> Prop) (P : B -> Prop)
      (l : list A) (r : list B) :
  Forall2 T l r -> (forall a b, T a b -> P b) -> Forall P r.
Proof. induction 1; intros HP; constructor; eauto. Qed.

Lemma passes_of_gather (cfg : config) (scores : list float) (labels : list Z)
      (indices : list nat) (labels' : list Z) :
  Forall (fun b => In b (tf_where (map (fun s => greater s (score_threshold cfg)) scores)))
         indices ->
  gather labels indices = Ok labels' ->
  Forall (passes cfg scores labels) (combine indices labels').
Proof.
  intros Hsub H. apply gather_Forall2 in H.
  induction H as [|b l ? ? Hb _ IH]; simpl.
  - constructor.
  - inversion Hsub as [|? ? H1 H2]; subst. constructor; auto.
    destruct (in_tf_where_greater _ _ _ H1) as [s [Hs Hg]].
    exists s. simpl. auto.
Qed.

Lemma _filter_detections_spec (cfg : config) (boxes : list box)
      (scores : list float) (labels : list Z) (cands : list (nat * Z)) :
  _filter_detections cfg boxes scores labels = Ok cands ->
  Forall (passes cfg scores labels) cands /\
  (nms cfg = true -> StronglySorted (group_ok cfg boxes) cands).
Proof.
  unfold _filter_detections.
  set (indices0 := tf_where (map (fun s => greater s (score_threshold cfg)) scores)).
  intros H.
  destruct (nms cfg) eqn:Hnms.
  - destruct (gather boxes indices0) as [fb|] eqn:E; simpl in H; [ | discriminate].
    destruct (gather scores indices0) as [fs|] eqn:E0; simpl in H; [ | discriminate].
    destruct (non_max_suppression fb fs (max_detections cfg) (nms_threshold cfg))
      as [nms_indices|] eqn:E1; simpl in H; [ | discriminate].
    destruct (gather indices0 nms_indices) as [indices|] eqn:E2; simpl in H;
      [ | discriminate].
    destruct (gather labels indices) as [labels'|] eqn:E3; simpl in H;
      [ | discriminate].
    injection H as <-.
    pose proof (gather_Forall2 _ _ _ E2) as Hidx.
    pose proof (gather_Forall2 _ _ _ E3) as Hlab.
    assert (Forall (fun b => In b indices0) indices) as Hsub.
    { eapply Forall2_Forall_r; [exact Hidx | ].
      intros p b Hp. simpl in Hp. eapply nth_error_In; exact Hp. }
    split.
    + apply passes_of_gather; auto.
    + intros _. unfold group_ok.
      apply StronglySorted_map_inv with (f := fst)
        (R := fun a b => keeps boxes (nms_threshold cfg) a b).
      rewrite (Forall2_map_fst_combine _ _ _ Hlab).
      destruct (non_max_suppression_spec _ _ _ _ _ E1) as (Hs & _).
      eapply StronglySorted_Forall2; [ | exact Hidx | exact Hs].
      intros p q b b' Hp Hq Hk. simpl in *.
      destruct (gather_nth _ _ _ E _ _ Hp) as [xb [Hxb Hxb']].
      destruct (gather_nth _ _ _ E _ _ Hq) as [yb [Hyb Hyb']].
      intros ba bb Ha Hb.
      assert (ba = xb) by congruence. assert (bb = yb) by congruence. subst.
      apply Hk; auto.
  - simpl in H.
    destruct (gather labels indices0) as [labels'|] eqn:E; simpl in H;
      [ | discriminate].
    injection H as <-.
    pose proof (gather_Forall2 _ _ _ E) as Hlab.
    split; [ | discriminate].
    apply passes_of_gather; auto.
    apply Forall_forall; auto.
Qed.

(** ** The merged candidates *)

Lemma lookup2_inv (m : matrix) (b : nat) (l : Z) (s : float) :
  lookup2 m (b, l) = Ok s ->
  exists r, nth_error (rows m) b = Some r /\ (0 <= l)%Z /\
            nth_error r (Z.to_nat l) = Some s.
Proof.
  unfold lookup2. simpl. intros H.
  destruct (l <? 0)%Z eqn:E; [discriminate | ]. apply Z.ltb_ge in E.
  destruct (nth_error (rows m) b) as [r|]; [ | discriminate].
  destruct (nth_error r (Z.to_nat l)) as [v|] eqn:Ev; [ | discriminate].
  injection H as <-. eauto.
Qed.

Lemma lookup2_intro (m : matrix) (b c : nat) (r : list float) (s : float) :
  nth_error (rows m) b = Some r -> nth_error r c = Some s ->
  lookup2 m (b, Z.of_nat c) = Ok s.
Proof.
  unfold lookup2. simpl. intros Hr Hs.
  destruct (Z.of_nat c <? 0)%Z eqn:E; [apply Z.ltb_lt in E; lia | ].
  rewrite Hr, Nat2Z.id, Hs. reflexivity.
Qed.

Lemma lookup2_column (m : matrix) (b c : nat) (s : float) :
  lookup2 m (b, Z.of_nat c) = Ok s -> nth_error (column m c) b = Some s.
Proof.
  intros H. destruct (lookup2_inv _ _ _ _ H) as (r & Hr & _ & Hs).
  rewrite Nat2Z.id in Hs.
  unfold column. rewrite nth_error_map, Hr. simpl.
  f_equal. apply nth_error_nth. exact Hs.
Qed.

Lemma column_lookup2 (m : matrix) (b c : nat) (s thr : float) :
  nth_error (column m c) b = Some s -> greater s thr = true ->
  lookup2 m (b, Z.of_nat c) = Ok s.
Proof.
  unfold column. rewrite nth_error_map. intros H G.
  destruct (nth_error (rows m) b) as [r|] eqn:Hr; simpl in H; [ | discriminate].
  injection H as H. apply lookup2_intro with (r := r); auto.
  destruct (nth_error r c) as [v|] eqn:Hv.
  - rewrite (nth_error_nth _ _ _ Hv) in H. congruence.
  - apply nth_error_None in Hv. rewrite nth_overflow in H by exact Hv.
    subst s. rewrite greater_nan_l in G. discriminate.
Qed.

Lemma per_class_spec (cfg : config) (boxes : list box) (cls : matrix) (cs : list nat) :
  forall blocks,
    mapM (fun c => _filter_detections cfg boxes (column cls c)
                     (repeat (Z.of_nat c) (length (column cls c)))) cs = Ok blocks ->
    Forall (fun x => candidate_ok cfg cls x /\ exists c, In c cs /\ snd x = Z.of_nat c)
           (concat blocks) /\
    (nms cfg = true -> NoDup cs -> StronglySorted (pair_ok cfg boxes) (concat blocks)).
Proof.
  induction cs as [|c cs IH]; intros blocks H; simpl in H.
  - injection H as <-. simpl. split; constructor.
  - destruct (_filter_detections cfg boxes (column cls c)
                (repeat (Z.of_nat c) (length (column cls c)))) as [block|] eqn:E;
      simpl in H; [ | discriminate].
    destruct (mapM _ cs) as [blocks'|] eqn:E'; simpl in H; [ | discriminate].
    injection H as <-. simpl.
    destruct (IH _ eq_refl) as [IH1 IH2].
    destruct (_filter_detections_spec _ _ _ _ _ E) as [Hp Hg].
    assert (forall x, In x block ->
                      snd x = Z.of_nat c /\
                      exists s, nth_error (column cls c) (fst x) = Some s /\
                                greater s (score_threshold cfg) = true /\
                                lookup2 cls x = Ok s) as Hblock.
    { intros [b l] Hx. rewrite Forall_forall in Hp.
      destruct (Hp _ Hx) as (s & Hs & Hgt & Hl). simpl in *.
      apply nth_error_In in Hl. apply repeat_spec in Hl. subst l.
      split; auto. exists s. repeat split; auto.
      eapply column_lookup2; eauto. }
    split.
    + apply Forall_app. split.
      * apply Forall_forall. intros x Hx.
        destruct (Hblock _ Hx) as (Hl & s & _ & Hgt & Hlk).
        split; [exists s; auto | exists c; simpl; auto].
      * eapply Forall_impl; [ | exact IH1].
        intros x [H1 (c' & Hc' & Hl)]. split; auto. exists c'. simpl. auto.
    + intros Hnms Hnd. inversion Hnd as [|? ? Hnotin Hnd']; subst.
      apply StronglySorted_app.
      * apply StronglySorted_impl with (R := group_ok cfg boxes); auto.
        intros x y Hx Hy Hk _. exact Hk.
      * auto.
      * intros x y Hx Hy Heq. exfalso.
        destruct (Hblock _ Hx) as (Hlx & _).
        rewrite Forall_forall in IH1. destruct (IH1 _ Hy) as (_ & c' & Hc' & Hly).
        assert (c' = c) by lia. subst c'. contradiction.
Qed.

Lemma best_class_spec (cfg : config) (boxes : list box) (cls : matrix)
      (labels : list Z) (cands : list (nat * Z)) :
  k_argmax cls = Ok labels ->
  _filter_detections cfg boxes (k_max cls) labels = Ok cands ->
  Forall (fun x => candidate_ok cfg cls x /\
                   exists r, nth_error (rows cls) (fst x) = Some r /\
                             snd x = Z.of_nat (argmax_row r)) cands /\
  (nms cfg = true -> StronglySorted (pair_ok cfg boxes) cands).
Proof.
  unfold k_argmax, k_max. intros Hl H.
  destruct (num_classes cls =? 0); [discriminate | ]. injection Hl as <-.
  destruct (_filter_detections_spec _ _ _ _ _ H) as [Hp Hg].
  assert (forall x, In x cands ->
                    exists r, nth_error (rows cls) (fst x) = Some r /\
                              snd x = Z.of_nat (argmax_row r) /\
                              nth_error (map reduce_max (rows cls)) (fst x)
                              = Some (reduce_max r) /\
                              greater (reduce_max r) (score_threshold cfg) = true /\
                              lookup2 cls x = Ok (reduce_max r)) as Hc.
  { intros [b l] Hx. rewrite Forall_forall in Hp.
    destruct (Hp _ Hx) as (s & Hs & Hgt & Hlab). simpl in *.
    rewrite nth_error_map in Hs, Hlab.
    destruct (nth_error (rows cls) b) as [r|] eqn:Hr; simpl in *; [ | discriminate].
    injection Hs as <-. injection Hlab as <-.
    exists r. repeat split; auto.
    - rewrite nth_error_map, Hr. reflexivity.
    - apply lookup2_intro with (r := r); auto.
      eapply argmax_row_max; eauto. }
  split.
  - apply Forall_forall. intros x Hx.
    destruct (Hc _ Hx) as (r & Hr & Hl & _ & Hgt & Hlk).
    split; [exists (reduce_max r); auto | exists r; auto].
  - intros Hnms.
    apply StronglySorted_impl with (R := group_ok cfg boxes); auto.
    intros x y Hx Hy Hk _. exact Hk.
Qed.

Lemma concatenate_inv {A : Type} (tensors : list (list A)) (r : list A) :
  concatenate tensors = Ok r -> r = concat tensors /\ tensors <> [].
Proof.
  unfold concatenate. destruct tensors; [discriminate | ].
  intros H. injection H as <-. split; [reflexivity | discriminate].
Qed.

(** Every merged candidate passed the threshold with the score the matrix
    holds for it; with suppression on, no candidate is suppressed by an
    earlier one of the same label. *)
Lemma candidate_indices_spec (cfg : config) (boxes : list box) (cls : matrix)
      (cands : list (nat * Z)) :
  candidate_indices cfg boxes cls = Ok cands ->
  Forall (candidate_ok cfg cls) cands /\
  (nms cfg = true -> StronglySorted (pair_ok cfg boxes) cands).
Proof.
  unfold candidate_indices. intros H.
  destruct (class_specific_filter cfg).
  - destruct (mapM _ (seq 0 (num_classes cls))) as [blocks|] eqn:E; simpl in H;
      [ | discriminate].
    apply concatenate_inv in H. destruct H as [-> _].
    destruct (per_class_spec _ _ _ _ _ E) as [H1 H2]. split.
    + eapply Forall_impl; [ | exact H1]. intros x [Hx _]. exact Hx.
    + intros Hn. apply H2; auto. apply seq_NoDup.
  - destruct (k_argmax cls) as [labels|] eqn:E; simpl in H; [ | discriminate].
    destruct (best_class_spec _ _ _ _ _ E H) as [H1 H2]. split; auto.
    eapply Forall_impl; [ | exact H1]. intros x [Hx _]. exact Hx.
Qed.

(** Labels of merged candidates index a column of the matrix. *)
Lemma candidate_indices_labels (cfg : config) (boxes : list box) (cls : matrix)
      (cands : list (nat * Z)) :
  matrix_wf cls ->
  candidate_indices cfg boxes cls = Ok cands ->
  Forall (fun x => (0 <= snd x < Z.of_nat (num_classes cls))%Z) cands.
Proof.
  intros Hwf H.
  destruct (candidate_indices_spec _ _ _ _ H) as [Hc _].
  eapply Forall_impl; [ | exact Hc].
  intros [b l] (s & Hs & _). simpl.
  destruct (lookup2_inv _ _ _ _ Hs) as (r & Hr & Hl & Hv).
  unfold matrix_wf in Hwf. rewrite Forall_forall in Hwf.
  assert (length r = num_classes cls) as Hlen
      by (apply Hwf; eapply nth_error_In; eauto).
  assert (Z.to_nat l < length r) by (apply nth_error_Some; congruence).
  lia.
Qed.

(** ** Top-k, gather and pad *)

Lemma nth_error_pad_l {A : Type} (t : list A) (ps : Z) (v : A) (i : nat) :
  i < length t -> nth_error (pad t ps v) i = nth_error t i.
Proof. intros H. unfold pad. apply nth_error_app1. exact H. Qed.

Lemma nth_error_pad_r {A : Type} (t : list A) (ps : Z) (v : A) (i : nat) :
  length t <= i < length t + Z.to_nat ps -> nth_error (pad t ps v) i = Some v.
Proof.
  intros H. unfold pad. rewrite nth_error_app2 by lia.
  apply nth_error_repeat. lia.
Qed.

Lemma length_pad {A : Type} (t : list A) (ps : Z) (v : A) :
  length (pad t ps v) = length t + Z.to_nat ps.
Proof. unfold pad. rewrite length_app, repeat_length. reflexivity. Qed.

Lemma set_shape_inv {A : Type} (t : list A) (n : Z) (r : list A) :
  set_shape t n = Ok r -> r = t /\ Z.of_nat (length t) = n.
Proof.
  unfold set_shape. destruct (Z.of_nat (length t) =? n)%Z eqn:E; [ | discriminate].
  intros H. injection H as <-. apply Z.eqb_eq in E. auto.
Qed.

Lemma set_shape_aux_all (l : list aux) (n : Z) (r : list aux) :
  mapM (fun o => set_shape_aux o n) l = Ok r ->
  r = l /\ Forall (fun o => Z.of_nat (length (aux_rows o)) = n) l.
Proof.
  revert r. induction l as [|o l IH]; intros r H; simpl in H.
  - injection H as <-. auto.
  - unfold set_shape_aux at 1 in H.
    destruct (set_shape (aux_rows o) n) as [t|] eqn:E; simpl in H; [ | discriminate].
    destruct (mapM _ l) as [r'|] eqn:E'; simpl in H; [ | discriminate].
    injection H as <-. apply set_shape_inv in E. destruct E as [-> E].
    destruct (IH _ eq_refl) as [-> IH2]. destruct o. simpl in *. auto.
Qed.

Lemma Forall2_map_r {A B C : Type} (R : A -> C -> Prop) (f : B -> C)
      (l : list A) (r : list B) :
  Forall2 (fun a b => R a (f b)) l r -> Forall2 R l (map f r).
Proof. induction 1; simpl; constructor; auto. Qed.

Lemma nth_error_map_Some {A B : Type} (f : A -> B) (l : list A) (i : nat) (b : B) :
  nth_error (map f l) i = Some b -> exists a, nth_error l i = Some a /\ f a = b.
Proof.
  rewrite nth_error_map. destruct (nth_error l i) as [a|]; simpl; [ | discriminate].
  intros H. injection H as <-. eauto.
Qed.

Lemma to_int32_inv (z z' : Z) :
  to_int32 z = Ok z' -> z' = z /\ (- 2 ^ 31 <= z < 2 ^ 31)%Z.
Proof.
  unfold to_int32. destruct ((- 2 ^ 31 <=? z)%Z && (z <? 2 ^ 31)%Z) eqn:E; [ | discriminate].
  intros H. injection H as <-. apply andb_true_iff in E. destruct E as [E1 E2].
  apply Z.leb_le in E1. apply Z.ltb_lt in E2. auto.
Qed.

Lemma to_int32_total (z : Z) : (- 2 ^ 31 <= z < 2 ^ 31)%Z -> to_int32 z = Ok z.
Proof.
  intros H. unfold to_int32.
  destruct ((- 2 ^ 31 <=? z)%Z && (z <? 2 ^ 31)%Z) eqn:E; [reflexivity | ].
  apply andb_false_iff in E. destruct E as [E | E];
    [apply Z.leb_gt in E | apply Z.ltb_ge in E]; lia.
Qed.

Lemma k_minimum_inv (x y k : Z) :
  k_minimum x y = Ok k -> k = Z.min x y /\ (- 2 ^ 31 <= x < 2 ^ 31)%Z.
Proof.
  unfold k_minimum. destruct (to_int32 x) as [x'|] eqn:E; simpl; [ | discriminate].
  intros H. injection H as <-. apply to_int32_inv in E. destruct E as [-> E]. auto.
Qed.

Lemma select_top_k_spec (cfg : config) (boxes : list box) (cls : matrix)
      (other : list aux) (cands : list (nat * Z)) (out : detections) :
  select_top_k cfg boxes cls other cands = Ok out ->
  exists scores vals top,
    gather_nd2 cls cands = Ok scores /\
    top_k scores (Z.min (max_detections cfg) (Z.of_nat (length scores))) = Ok (vals, top) /\
    length top = real_count cfg cands /\
    (0 <= max_detections cfg < 2 ^ 31)%Z /\
    width_is other out (Z.to_nat (max_detections cfg)) /\
    firstn (real_count cfg cands) (out_scores out) = vals /\
    (forall i p, nth_error top i = Some p ->
                 exists x, nth_error cands p = Some x /\
                           real_row boxes cls other x out i) /\
    (forall i, real_count cfg cands <= i < Z.to_nat (max_detections cfg) ->
               padded_row other out i).
Proof.
  unfold select_top_k. intros H.
  destruct (gather_nd2 cls cands) as [scores|] eqn:Es; simpl in H; [ | discriminate].
  destruct (k_minimum (max_detections cfg) (Z.of_nat (length scores))) as [k|] eqn:Ek;
    simpl in H; [ | discriminate].
  apply k_minimum_inv in Ek. destruct Ek as [-> Hint].
  destruct (top_k scores (Z.min (max_detections cfg) (Z.of_nat (length scores))))
    as [[vals top]|] eqn:Et; simpl in H; [ | discriminate].
  destruct (gather (map fst cands) top) as [idx|] eqn:Ei; simpl in H; [ | discriminate].
  destruct (gather boxes idx) as [bxs|] eqn:Eb; simpl in H; [ | discriminate].
  destruct (gather (map snd cands) top) as [lbs|] eqn:El; simpl in H; [ | discriminate].
  destruct (mapM (fun o => gather_aux o idx) other) as [oth|] eqn:Eo; simpl in H;
    [ | discriminate].
  set (ps := Z.max 0 (max_detections cfg - Z.of_nat (length vals))) in *.
  destruct (set_shape (pad bxs ps pad_box) (max_detections cfg)) as [b'|] eqn:S1;
    simpl in H; [ | discriminate].
  destruct (set_shape (pad vals ps minus_one) (max_detections cfg)) as [s'|] eqn:S2;
    simpl in H; [ | discriminate].
  destruct (set_shape (map cast_int32 (pad lbs ps (-1)%Z)) (max_detections cfg))
    as [l'|] eqn:S3; simpl in H; [ | discriminate].
  destruct (mapM (fun o => set_shape_aux o (max_detections cfg))
                 (map (fun o => pad_aux o ps) oth)) as [o'|] eqn:S4; simpl in H;
    [ | discriminate].
  injection H as <-.
  apply set_shape_inv in S1, S2, S3. destruct S1 as [-> L1], S2 as [-> L2], S3 as [-> L3].
  apply set_shape_aux_all in S4. destruct S4 as [-> L4].
  destruct (top_k_inv _ _ _ _ Et) as (Hk & _ & _ & Lv & Lt).
  pose proof (mapM_length _ _ _ Es) as Ls.
  pose proof (gather_length _ _ _ Ei) as Li.
  pose proof (gather_length _ _ _ Eb) as Lb.
  pose proof (gather_length _ _ _ El) as Ll.
  pose proof (mapM_length _ _ _ Eo) as Lo.
  assert (length top = real_count cfg cands) as Hrc
      by (unfold real_count; rewrite Lt, Ls; reflexivity).
  assert (Z.to_nat ps = Z.to_nat (max_detections cfg) - real_count cfg cands) as Hps
      by (unfold ps; lia).
  assert (real_count cfg cands <= Z.to_nat (max_detections cfg)) as Hle
      by (unfold real_count; lia).
  exists scores, vals, top.
  split; [reflexivity | ]. split; [exact Et | ]. split; [exact Hrc | ].
  split; [lia | ].
  split; [ | split; [ | split]].
  - unfold width_is; simpl.
    rewrite length_pad in L1. rewrite length_pad in L2.
    rewrite length_map, length_pad in L3.
    rewrite !length_map, !length_pad.
    split; [lia | ]. split; [lia | ]. split; [lia | ]. split; [lia | ].
    eapply Forall_impl; [ | exact L4]. simpl. intros o Ho. lia.
  - simpl. unfold pad. rewrite firstn_app.
    replace (real_count cfg cands - length vals) with 0 by lia.
    simpl. rewrite app_nil_r. apply firstn_all2. lia.
  - intros i p Hp.
    assert (i < length top) as Hi by (apply nth_error_Some; congruence).
    destruct (gather_nth _ _ _ Ei _ _ Hp) as (b & Hb & Hb').
    destruct (gather_nth _ _ _ El _ _ Hp) as (l & Hl & Hl').
    apply nth_error_map_Some in Hb'. destruct Hb' as (x & Hx & Hfx).
    apply nth_error_map_Some in Hl'. destruct Hl' as (x' & Hx' & Hsx).
    assert (x' = x) by congruence. subst x'.
    destruct (top_k_nth _ _ _ _ Et _ _ Hp) as (v & Hv & Hv').
    destruct (Forall2_nth_l _ _ _ (mapM_Forall2 _ _ _ Es) _ _ Hx) as (v' & Hv2 & Hlk).
    assert (v' = v) by congruence. subst v'.
    destruct (gather_nth _ _ _ Eb _ _ Hb) as (bx & Hbx & Hbx').
    exists x. split; [exact Hx | ].
    exists v, bx. simpl.
    split; [exact Hlk | ]. split; [congruence | ].
    split; [rewrite nth_error_pad_l by lia; exact Hbx | ].
    split; [rewrite nth_error_pad_l by lia; exact Hv | ].
    split.
    + rewrite nth_error_map, nth_error_pad_l by lia. rewrite Hl. simpl. congruence.
    + apply Forall2_map_r.
      eapply Forall2_impl; [ | exact (mapM_Forall2 _ _ _ Eo)].
      intros o o1 Hg. simpl in Hg. unfold gather_aux in Hg.
      destruct (gather (aux_rows o) idx) as [rs|] eqn:Eg; simpl in Hg; [ | discriminate].
      injection Hg as <-. simpl. split; [reflexivity | ].
      destruct (gather_nth _ _ _ Eg _ _ Hb) as (r & Hr & Hr').
      exists r. split; [congruence | ].
      rewrite nth_error_pad_l; [exact Hr | ].
      rewrite (gather_length _ _ _ Eg). lia.
  - intros i Hi. unfold padded_row; simpl.
    split; [apply nth_error_pad_r; lia | ].
    split; [apply nth_error_pad_r; lia | ].
    split.
    + rewrite nth_error_map, nth_error_pad_r by lia. reflexivity.
    + apply Forall2_map_r.
      eapply Forall2_impl; [ | exact (mapM_Forall2 _ _ _ Eo)].
      intros o o1 Hg. simpl in Hg. unfold gather_aux in Hg.
      destruct (gather (aux_rows o) idx) as [rs|] eqn:Eg; simpl in Hg; [ | discriminate].
      injection Hg as <-. simpl. split; [reflexivity | ].
      apply nth_error_pad_r. rewrite (gather_length _ _ _ Eg). lia.
Qed.

(** ** No error on valid input *)

Lemma tf_where_in_range (mask : list bool) :
  Forall (fun i => i < length mask) (tf_where mask).
Proof.
  apply Forall_forall. intros i Hi.
  apply (proj1 (in_tf_where _ _)) in Hi.
  apply nth_error_Some. congruence.
Qed.

Lemma _filter_detections_total (cfg : config) (boxes : list box)
      (scores : list float) (labels : list Z) :
  accepted_config cfg ->
  length scores = length boxes -> length labels = length boxes ->
  exists cands, _filter_detections cfg boxes scores labels = Ok cands.
Proof.
  intros [Hmd Hth] Hs Hl. unfold _filter_detections.
  set (indices0 := tf_where (map (fun s => greater s (score_threshold cfg)) scores)).
  assert (Forall (fun i => i < length boxes) indices0) as Hr.
  { pose proof (tf_where_in_range (map (fun s => greater s (score_threshold cfg)) scores))
      as H. rewrite length_map, Hs in H. exact H. }
  destruct (nms cfg) eqn:Hnms.
  - specialize (Hth eq_refl).
    destruct (gather_total boxes indices0 Hr) as [fb Efb].
    assert (Forall (fun i => i < length scores) indices0) as Hr' by (rewrite Hs; exact Hr).
    destruct (gather_total scores indices0 Hr') as [fs Efs].
    rewrite Efb, Efs. simpl.
    destruct (non_max_suppression_total fb fs (max_detections cfg) (nms_threshold cfg))
      as [sel Esel]; auto; try lia.
    { rewrite (gather_length _ _ _ Efb), (gather_length _ _ _ Efs). reflexivity. }
    rewrite Esel. simpl.
    pose proof (non_max_suppression_range _ _ _ _ _ Esel) as Hin.
    rewrite (gather_length _ _ _ Efs) in Hin.
    destruct (gather_total indices0 sel Hin) as [indices Ei]. rewrite Ei. simpl.
    assert (Forall (fun i => i < length labels) indices) as Hr2.
    { eapply Forall2_Forall_r; [exact (gather_Forall2 _ _ _ Ei) | ].
      intros p b Hp. simpl in Hp. apply nth_error_In in Hp.
      rewrite Forall_forall in Hr. rewrite Hl. auto. }
    destruct (gather_total labels indices Hr2) as [lbs Elb]. rewrite Elb. simpl. eauto.
  - simpl.
    assert (Forall (fun i => i < length labels) indices0) as Hr2 by (rewrite Hl; exact Hr).
    destruct (gather_total labels indices0 Hr2) as [lbs Elb]. rewrite Elb. simpl. eauto.
Qed.

Lemma column_length (m : matrix) (c : nat) : length (column m c) = length (rows m).
Proof. unfold column. apply length_map. Qed.

Lemma candidate_indices_total (cfg : config) (boxes : list box) (cls : matrix) :
  accepted_config cfg ->
  length (rows cls) = length boxes -> 0 < num_classes cls ->
  exists cands, candidate_indices cfg boxes cls = Ok cands.
Proof.
  intros Hc Hr Hn. unfold candidate_indices.
  destruct (class_specific_filter cfg).
  - destruct (mapM_total
                (fun c => _filter_detections cfg boxes (column cls c)
                            (repeat (Z.of_nat c) (length (column cls c))))
                (seq 0 (num_classes cls))) as [blocks Eb].
    { apply Forall_forall. intros c _.
      apply _filter_detections_total; auto.
      - rewrite column_length. exact Hr.
      - rewrite repeat_length, column_length. exact Hr. }
    rewrite Eb. simpl.
    pose proof (mapM_length _ _ _ Eb) as L. rewrite length_seq in L.
    destruct blocks as [|b blocks]; [simpl in L; lia | ].
    simpl. eauto.
  - unfold k_argmax. destruct (num_classes cls =? 0) eqn:E.
    + apply Nat.eqb_eq in E. lia.
    + simpl. apply _filter_detections_total; auto.
      * unfold k_max. rewrite length_map. exact Hr.
      * rewrite length_map. exact Hr.
Qed.

Lemma set_shape_aux_total (l : list aux) (n : Z) :
  Forall (fun o => Z.of_nat (length (aux_rows o)) = n) l ->
  mapM (fun o => set_shape_aux o n) l = Ok l.
Proof.
  induction 1 as [|o l Ho _ IH]; simpl; auto.
  unfold set_shape_aux at 1. unfold set_shape. rewrite Ho, Z.eqb_refl. simpl.
  rewrite IH. simpl. destruct o; reflexivity.
Qed.

Lemma select_top_k_total (cfg : config) (boxes : list box) (cls : matrix)
      (other : list aux) (cands : list (nat * Z)) :
  (0 <= max_detections cfg < 2 ^ 31)%Z ->
  length (rows cls) = length boxes ->
  Forall (fun o => length (aux_rows o) = length boxes) other ->
  Forall (candidate_ok cfg cls) cands ->
  exists out, select_top_k cfg boxes cls other cands = Ok out.
Proof.
  intros Hmd Hr Ho Hc. unfold select_top_k.
  destruct (mapM_total (lookup2 cls) cands) as [scores Es].
  { eapply Forall_impl; [ | exact Hc]. intros x (s & Hs & _). eauto. }
  unfold gather_nd2. rewrite Es. simpl.
  unfold k_minimum. rewrite to_int32_total by lia. simpl.
  pose proof (mapM_length _ _ _ Es) as Ls.
  destruct (top_k scores (Z.min (max_detections cfg) (Z.of_nat (length scores))))
    as [[vals top]|] eqn:Et.
  2:{ unfold top_k in Et.
      destruct ((Z.min (max_detections cfg) (Z.of_nat (length scores)) <? 0)%Z
                || (Z.of_nat (length scores)
                    <? Z.min (max_detections cfg) (Z.of_nat (length scores)))%Z) eqn:E;
        [ | discriminate].
      apply orb_true_iff in E. destruct E as [E | E]; apply Z.ltb_lt in E; lia. }
  simpl.
  destruct (top_k_inv _ _ _ _ Et) as (Hk & _ & _ & Lv & Lt).
  assert (Forall (fun p => p < length (map fst cands)) top) as Htop.
  { apply Forall_forall. intros p Hp.
    destruct (In_nth_error _ _ Hp) as [i Hi].
    destruct (top_k_nth _ _ _ _ Et _ _ Hi) as (v & _ & Hv).
    rewrite length_map, <- Ls. apply nth_error_Some. congruence. }
  destruct (gather_total _ _ Htop) as [idx Ei]. rewrite Ei. simpl.
  assert (Forall (fun b => b < length boxes) idx) as Hidx.
  { eapply Forall2_Forall_r; [exact (gather_Forall2 _ _ _ Ei) | ].
    intros p b Hp. simpl in Hp.
    apply nth_error_map_Some in Hp. destruct Hp as ([b' l] & Hx & <-).
    apply nth_error_In in Hx. rewrite Forall_forall in Hc.
    destruct (Hc _ Hx) as (s & Hs & _).
    destruct (lookup2_inv _ _ _ _ Hs) as (r & Hrow & _).
    simpl. rewrite <- Hr. apply nth_error_Some. congruence. }
  destruct (gather_total _ _ Hidx) as [bxs Eb]. rewrite Eb. simpl.
  assert (Forall (fun p => p < length (map snd cands)) top) as Htop'
      by (rewrite length_map in *; exact Htop).
  destruct (gather_total _ _ Htop') as [lbs El]. rewrite El. simpl.
  destruct (mapM_total (fun o => gather_aux o idx) other) as [oth Eo].
  { eapply Forall_impl; [ | exact Ho]. intros o Hlen. simpl in Hlen.
    unfold gather_aux.
    destruct (gather_total (aux_rows o) idx) as [rs Ers];
      [rewrite Hlen; exact Hidx | ].
    rewrite Ers. simpl. eauto. }
  rewrite Eo. simpl.
  pose proof (gather_length _ _ _ Ei) as Li.
  pose proof (gather_length _ _ _ Eb) as Lb.
  pose proof (gather_length _ _ _ El) as Ll.
  set (ps := Z.max 0 (max_detections cfg - Z.of_nat (length vals))).
  unfold set_shape at 1. rewrite length_pad.
  destruct (Z.of_nat (length bxs + Z.to_nat ps) =? max_detections cfg)%Z eqn:E1;
    [ | apply Z.eqb_neq in E1; unfold ps in E1; lia ].
  simpl. unfold set_shape at 1. rewrite length_pad.
  destruct (Z.of_nat (length vals + Z.to_nat ps) =? max_detections cfg)%Z eqn:E2;
    [ | apply Z.eqb_neq in E2; unfold ps in E2; lia ].
  simpl. unfold set_shape at 1. rewrite length_map, length_pad.
  destruct (Z.of_nat (length lbs + Z.to_nat ps) =? max_detections cfg)%Z eqn:E3;
    [ | apply Z.eqb_neq in E3; unfold ps in E3; lia ].
  simpl. rewrite set_shape_aux_total; [simpl; eauto | ].
  apply Forall_map.
  eapply Forall2_Forall_r; [exact (mapM_Forall2 _ _ _ Eo) | ].
  intros o o1 Hg. simpl in Hg. unfold gather_aux in Hg.
  destruct (gather (aux_rows o) idx) as [rs|] eqn:Eg; simpl in Hg; [ | discriminate].
  injection Hg as <-. simpl. rewrite length_pad, (gather_length _ _ _ Eg).
  unfold ps. lia.
Qed.

Lemma filter_detections_total (boxes : list box) (cls : matrix) (other : list aux)
      (cfg : config) :
  accepted_config cfg -> valid_input boxes cls other ->
  exists cands out,
    candidate_indices cfg boxes cls = Ok cands /\
    filter_detections boxes cls other cfg = Ok out.
Proof.
  intros Hc [Hr Hwf Hn Ho].
  destruct (candidate_indices_total cfg boxes cls Hc Hr Hn) as [cands Ec].
  destruct (candidate_indices_spec _ _ _ _ Ec) as [Hok _].
  destruct (select_top_k_total cfg boxes cls other cands) as [out Eout]; auto.
  { destruct Hc. assumption. }
  exists cands, out. split; auto.
  unfold filter_detections. rewrite Ec. exact Eout.
Qed.

Lemma filter_detections_inv (boxes : list box) (cls : matrix) (other : list aux)
      (cfg : config) (out : detections) :
  filter_detections boxes cls other cfg = Ok out ->
  exists cands, candidate_indices cfg boxes cls = Ok cands /\
                select_top_k cfg boxes cls other cands = Ok out.
Proof.
  unfold filter_detections. intros H.
  destruct (candidate_indices cfg boxes cls) as [cands|]; simpl in H; [ | discriminate].
  eauto.
Qed.

(** ** The whole function, row by row *)

Lemma scores_not_nan (cfg : config) (cls : matrix) (cands : list (nat * Z))
      (scores : list float) :
  Forall (candidate_ok cfg cls) cands ->
  gather_nd2 cls cands = Ok scores ->
  Forall (fun v => is_nan v = false) scores.
Proof.
  intros Hc Hs. pose proof (mapM_Forall2 _ _ _ Hs) as F. clear Hs.
  induction F as [|x v l r Hx _ IH]; constructor.
  - inversion Hc as [|? ? (s & Hs & Hg) _]; subst.
    assert (s = v) by congruence. subst.
    apply greater_not_nan in Hg. tauto.
  - apply IH. inversion Hc; auto.
Qed.

Lemma filter_detections_rows (boxes : list box) (cls : matrix) (other : list aux)
      (cfg : config) (out : detections) :
  filter_detections boxes cls other cfg = Ok out ->
  exists cands scores vals top,
    candidate_indices cfg boxes cls = Ok cands /\
    Forall (candidate_ok cfg cls) cands /\
    (nms cfg = true -> StronglySorted (pair_ok cfg boxes) cands) /\
    gather_nd2 cls cands = Ok scores /\
    Forall (fun v => is_nan v = false) scores /\
    top_k scores (Z.min (max_detections cfg) (Z.of_nat (length scores))) = Ok (vals, top) /\
    length top = real_count cfg cands /\
    (0 <= max_detections cfg < 2 ^ 31)%Z /\
    width_is other out (Z.to_nat (max_detections cfg)) /\
    firstn (real_count cfg cands) (out_scores out) = vals /\
    (forall i p, nth_error top i = Some p ->
                 exists x, nth_error cands p = Some x /\
                           real_row boxes cls other x out i) /\
    (forall i, real_count cfg cands <= i < Z.to_nat (max_detections cfg) ->
               padded_row other out i).
Proof.
  intros H.
  destruct (filter_detections_inv _ _ _ _ _ H) as (cands & Ec & Es).
  destruct (candidate_indices_spec _ _ _ _ Ec) as [Hok Hpair].
  destruct (select_top_k_spec _ _ _ _ _ _ Es)
    as (scores & vals & top & H1 & H2 & H3 & H4 & H5 & H6 & H7 & H8).
  exists cands, scores, vals, top.
  repeat (split; [assumption | ]).
  split; [eapply scores_not_nan; eauto | ].
  repeat (split; [assumption | ]). assumption.
Qed.

(** A real row: its position in the ranking and its candidate. *)
Lemma real_row_exists (top : list nat) (n i : nat) :
  length top = n -> i < n -> exists p, nth_error top i = Some p.
Proof.
  intros L Hi. destruct (nth_error top i) as [p|] eqn:E; eauto.
  apply nth_error_None in E. lia.
Qed.

Lemma StronglySorted_app_cross {A : Type} (R : A -> A -> Prop) (l1 l2 : list A) :
  StronglySorted R (l1 ++ l2) ->
  forall a b, In a l1 -> In b l2 -> R a b.
Proof.
  induction l1 as [|x l1 IH]; simpl; intros H a b Ha Hb; [contradiction | ].
  inversion H as [|? ? Hs Hf]; subst.
  destruct Ha as [<- | Ha].
  - rewrite Forall_forall in Hf. apply Hf. apply in_or_app. auto.
  - eapply IH; eauto.
Qed.

Lemma StronglySorted_NoDup_map {A B : Type} (R : A -> A -> Prop) (f : A -> B)
      (l : list A) :
  (forall a b, R a b -> f a <> f b) ->
  StronglySorted R l -> NoDup (map f l).
Proof.
  intros HR. induction 1 as [|a l Hs IH Hf]; simpl; constructor; auto.
  intros Hin. apply in_map_iff in Hin. destruct Hin as (b & Hb & Hin).
  rewrite Forall_forall in Hf. apply (HR a b); auto.
Qed.


(** ** The configurations under which the call returns *)

Lemma _filter_detections_nms_valid (cfg : config) (boxes : list box)
      (scores : list float) (labels : list Z) (cands : list (nat * Z)) :
  nms cfg = true ->
  _filter_detections cfg boxes scores labels = Ok cands ->
  SFleb f32_zero (nms_threshold cfg) && SFleb (nms_threshold cfg) f32_one = true.
Proof.
  unfold _filter_detections. intros Hnms H. rewrite Hnms in H.
  set (indices0 := tf_where (map (fun s => greater s (score_threshold cfg)) scores)) in H.
  destruct (gather boxes indices0) as [fb|] eqn:E; simpl in H; [ | discriminate].
  destruct (gather scores indices0) as [fs|] eqn:E0; simpl in H; [ | discriminate].
  destruct (non_max_suppression fb fs (max_detections cfg) (nms_threshold cfg))
    as [nms_indices|] eqn:E1; simpl in H; [ | discriminate].
  destruct (non_max_suppression_spec _ _ _ _ _ E1) as (_ & _ & _ & _ & Hv & _). exact Hv.
Qed.

Lemma candidate_indices_nms_valid (cfg : config) (boxes : list box) (cls : matrix)
      (cands : list (nat * Z)) :
  nms cfg = true ->
  candidate_indices cfg boxes cls = Ok cands ->
  SFleb f32_zero (nms_threshold cfg) && SFleb (nms_threshold cfg) f32_one = true.
Proof.
  unfold candidate_indices. intros Hnms H.
  destruct (class_specific_filter cfg).
  - destruct (mapM _ (seq 0 (num_classes cls))) as [blocks|] eqn:E; simpl in H;
      [ | discriminate].
    apply concatenate_inv in H. destruct H as [_ Hne].
    destruct (num_classes cls) as [|n].
    + simpl in E. injection E as <-. contradiction.
    + apply mapM_Forall2 in E. change (seq 0 (S n)) with (0 :: seq 1 n) in E.
      inversion E as [|? b ? ? Hb _]; subst.
      eapply _filter_detections_nms_valid; [exact Hnms | exact Hb].
  - destruct (k_argmax cls) as [labels|] eqn:E; simpl in H; [ | discriminate].
    eapply _filter_detections_nms_valid; eauto.
Qed.

Lemma candidate_indices_classes (cfg : config) (boxes : list box) (cls : matrix)
      (cands : list (nat * Z)) :
  candidate_indices cfg boxes cls = Ok cands -> 0 < num_classes cls.
Proof.
  unfold candidate_indices, k_argmax. intros H.
  destruct (class_specific_filter cfg).
  - destruct (mapM _ (seq 0 (num_classes cls))) as [blocks|] eqn:E; simpl in H;
      [ | discriminate].
    apply concatenate_inv in H. destruct H as [_ Hne].
    destruct (num_classes cls) as [|n]; [ | lia].
    simpl in E. injection E as <-. contradiction.
  - destruct (num_classes cls =? 0) eqn:E; [discriminate | ].
    apply Nat.eqb_neq in E. lia.
Qed.

(** A call that returns was given at least one class and a configuration
    the primitives accept. *)
Lemma filter_detections_accepted (boxes : list box) (cls : matrix) (other : list aux)
      (cfg : config) (out : detections) :
  filter_detections boxes cls other cfg = Ok out ->
  0 < num_classes cls /\ accepted_config cfg.
Proof.
  intros H.
  destruct (filter_detections_rows _ _ _ _ _ H)
    as (cands & scores & vals & top & Ec & _ & _ & _ & _ & _ & _ & Hmd & _).
  split; [eapply candidate_indices_classes; eauto | ].
  constructor; [exact Hmd | ].
  intros Hnms. eapply candidate_indices_nms_valid; eauto.
Qed.


(** * The claims *)

(** ** Scenarios of the specification, evaluated *)

(** Scores 0.9, 0.8, 0.1 for one class, threshold 0.5, two detections, no
    suppression: labels 0 and 0, scores 0.9 and 0.8, the third box is
    excluded and nothing is padded. *)
Example scenario_top_two :
  match filter_detections sample_boxes one_class_scores [] top_two_config with
  | Ok out =>
      out_labels out = [0; 0]%Z /\
      out_scores out = [f32_ratio 9 10; f32_ratio 8 10] /\
      out_boxes out = firstn 2 sample_boxes
  | Err _ => False
  end.
Proof. vm_compute. repeat split. Qed.

(** Two boxes overlapping by 0.9, both above the score threshold for class
    0, overlap threshold 0.5: only the higher-scoring box is a candidate of
    that class. *)
Example scenario_overlap :
  IOU (box_of_Z 0 0 10 9) (box_of_Z 0 0 10 10) = f32_ratio 9 10 /\
  match candidate_indices sample_config sample_boxes sample_classification with
  | Ok cands => filter (fun x => (snd x =? 0)%Z) cands = [(0, 0%Z)]
  | Err _ => False
  end.
Proof. vm_compute. split; reflexivity. Qed.

(** No box: [max_detections] rows, all of them sentinel. *)
Example scenario_no_box :
  match filter_detections [] no_scores [mk_aux 2 []] sample_config with
  | Ok out =>
      out_boxes out = repeat pad_box 4 /\
      out_scores out = repeat minus_one 4 /\
      out_labels out = repeat (-1)%Z 4 /\
      out_other out = [mk_aux 2 (repeat [minus_one; minus_one] 4)]
  | Err _ => False
  end.
Proof. vm_compute. repeat split. Qed.

(** C1.  Fixed width.  Whatever the input and the configuration, a call
    that returns gives every output tensor exactly [max_detections]
    leading entries (one auxiliary output per auxiliary input); its real
    rows are [min max_detections (number of candidates)] distinct
    candidates, and no candidate left out scores higher than a row that
    was kept.  The call returns on every valid input under every
    configuration the primitives accept: a width from 0 to 2^31 - 1 and,
    with suppression on, an overlap threshold in [0, 1].  Under any other
    configuration, and with no class, it raises: a call that returns was
    given at least one class and such a configuration.  (The memory of
    the machine is not part of the model.) *)
Theorem filter_detections_fixed_width (boxes : list box) (cls : matrix)
        (other : list aux) (cfg : config) :
  (valid_input boxes cls other -> accepted_config cfg ->
   exists out, filter_detections boxes cls other cfg = Ok out) /\
  (forall out,
      filter_detections boxes cls other cfg = Ok out ->
      0 < num_classes cls /\ accepted_config cfg /\
      exists cands top,
        candidate_indices cfg boxes cls = Ok cands /\
        width_is other out (Z.to_nat (max_detections cfg)) /\
        length top = Nat.min (Z.to_nat (max_detections cfg)) (length cands) /\
        NoDup top /\
        (forall i p, nth_error top i = Some p ->
                     exists x, nth_error cands p = Some x /\
                               real_row boxes cls other x out i) /\
        (forall q y sq i s,
            nth_error cands q = Some y -> ~ In q top -> lookup2 cls y = Ok sq ->
            i < length top -> nth_error (out_scores out) i = Some s ->
            greater sq s = false)).
Proof.
  split.
  { intros Hi Hc.
    destruct (filter_detections_total boxes cls other cfg Hc Hi) as (cands & out & _ & Eo).
    eauto. }
  intros out Eo.
  destruct (filter_detections_accepted _ _ _ _ _ Eo) as [Hcl Hacc].
  split; [exact Hcl | ]. split; [exact Hacc | ].
  destruct (filter_detections_rows _ _ _ _ _ Eo)
    as (cands & scores & vals & top & Ec & Hok & _ & Es & Hnan & Et & Ltop & Hmd
        & Hw & Hv & Hreal & _).
  exists cands, top.
  destruct (top_k_inv _ _ _ _ Et) as (Hk & Evals & Etop & Lv & _).
  set (k := Z.to_nat (Z.min (max_detections cfg) (Z.of_nat (length scores)))) in *.
  set (sorted := sort_desc (enumerate scores)) in *.
  assert (StronglySorted before sorted) as Hsorted.
  { apply sort_desc_sorted; [ | apply enumerate_increasing].
    apply Forall_forall. intros [a b] Hin. apply (proj1 (in_enumerate _ _ _)) in Hin.
    rewrite Forall_forall in Hnan. simpl. apply Hnan. eapply nth_error_In; eauto. }
  assert (forall a, In a sorted -> nth_error scores (fst a) = Some (snd a)) as Hin.
  { intros [a b] Ha. apply (proj1 (sort_desc_In _ _)) in Ha.
    apply (proj1 (in_enumerate _ _ _)) in Ha. exact Ha. }
  split; [exact Ec | ]. split; [exact Hw | ].
  split; [unfold real_count in Ltop; lia | ].
  split; [ | split; [exact Hreal | ]].
  - rewrite Etop. apply StronglySorted_NoDup_map with (R := fun a b => fst a <> fst b).
    + auto.
    + apply StronglySorted_impl with (R := before).
      * intros a b Ha Hb Hab Heq.
        apply In_firstn in Ha. apply In_firstn in Hb.
        pose proof (Hin _ Ha) as Ha'. pose proof (Hin _ Hb) as Hb'.
        rewrite Heq in Ha'. assert (snd a = snd b) as Hs by congruence.
        destruct Hab as [G | [_ L]]; [ | lia].
        rewrite Hs, greater_irrefl in G. discriminate.
      * apply StronglySorted_firstn. exact Hsorted.
  - intros q y sq i s Hq Hnot Hlk Hlt Hs.
    destruct (Forall2_nth_l _ _ _ (mapM_Forall2 _ _ _ Es) _ _ Hq) as (v & Hv1 & Hv2).
    assert (v = sq) by congruence. subst v.
    assert (In (q, sq) sorted) as Hqs.
    { apply sort_desc_In. apply in_enumerate. exact Hv1. }
    unfold sorted in Hqs. fold sorted in Hqs.
    rewrite <- (firstn_skipn k sorted) in Hqs, Hsorted.
    apply in_app_or in Hqs. destruct Hqs as [Hqs | Hqs].
    { exfalso. apply Hnot. rewrite Etop. apply in_map_iff. exists (q, sq). auto. }
    assert (nth_error vals i = Some s) as Hvi.
    { rewrite <- Hv, nth_error_firstn.
      destruct (i <? real_count cfg cands) eqn:B; auto.
      apply Nat.ltb_ge in B. lia. }
    rewrite Evals in Hvi. apply nth_error_map_Some in Hvi.
    destruct Hvi as ([p s'] & Hp & Hs'). simpl in Hs'. subst s'.
    apply nth_error_In in Hp.
    pose proof (StronglySorted_app_cross _ _ _ Hsorted _ _ Hp Hqs) as Hb.
    exact (before_not_greater _ _ Hb).
Qed.

Lemma filter_detections_fixed_width_witness :
  exists out,
    filter_detections sample_boxes sample_classification sample_other sample_config
    = Ok out /\
    width_is sample_other out 4 /\
    exists (cands : list (nat * Z)) (top : list nat),
      candidate_indices sample_config sample_boxes sample_classification = Ok cands /\
      length top = Nat.min 4 (length cands) /\ NoDup top.
Proof.
  destruct (filter_detections_fixed_width sample_boxes sample_classification
                                          sample_other sample_config) as [Hret Hout].
  destruct Hret as [out Ho].
  - constructor; [reflexivity | repeat constructor | simpl; lia | repeat constructor].
  - constructor; [simpl; lia | intros _; vm_compute; reflexivity].
  - exists out. split; [exact Ho | ].
    destruct (Hout out Ho) as (_ & _ & cands & top & Ec & Hw & Hl & Hn & _).
    split; [exact Hw | ]. exists cands, top. auto.
Defined.

(** C2.  Padding: every row from the real count up to [max_detections] is
    the sentinel in every field (box (-1,-1,-1,-1), score -1, label -1,
    every auxiliary element -1); with no box at all the real count is zero,
    so that every row is such a row. *)
Theorem filter_detections_padding (boxes : list box) (cls : matrix)
        (other : list aux) (cfg : config) (out : detections) :
  filter_detections boxes cls other cfg = Ok out ->
  exists cands,
    candidate_indices cfg boxes cls = Ok cands /\
    (forall i, real_count cfg cands <= i < Z.to_nat (max_detections cfg) ->
               padded_row other out i) /\
    (boxes = [] ->
     forall i, i < Z.to_nat (max_detections cfg) -> padded_row other out i).
Proof.
  intros H.
  destruct (filter_detections_rows _ _ _ _ _ H)
    as (cands & scores & vals & top & Ec & _ & _ & _ & _ & _ & Ltop & _ & _ & _
        & Hreal & Hpad).
  exists cands. split; [exact Ec | ]. split; [exact Hpad | ].
  intros Hb i Hi. apply Hpad. split; [ | exact Hi].
  destruct top as [|p top].
  - simpl in Ltop. lia.
  - destruct (Hreal 0 p eq_refl) as (x & _ & s & bx & _ & Hbx & _).
    subst boxes. destruct (fst x); discriminate.
Qed.

Lemma filter_detections_padding_witness :
  exists cands,
    candidate_indices sample_config sample_boxes sample_classification = Ok cands /\
    (forall i, real_count sample_config cands <= i
               < Z.to_nat (max_detections sample_config) ->
               padded_row sample_other sample_detections i) /\
    (sample_boxes = [] ->
     forall i, i < Z.to_nat (max_detections sample_config) ->
               padded_row sample_other sample_detections i).
Proof.
  apply (filter_detections_padding sample_boxes sample_classification sample_other
                                   sample_config sample_detections).
  vm_compute. reflexivity.
Defined.

(** C4.  Score ordering: among the real rows the scores are non-increasing
    by row index. *)
Theorem filter_detections_scores_sorted (boxes : list box) (cls : matrix)
        (other : list aux) (cfg : config) (out : detections) :
  filter_detections boxes cls other cfg = Ok out ->
  exists cands,
    candidate_indices cfg boxes cls = Ok cands /\
    forall i j si sj,
      i < j -> j < real_count cfg cands ->
      nth_error (out_scores out) i = Some si ->
      nth_error (out_scores out) j = Some sj ->
      SFleb sj si = true.
Proof.
  intros H.
  destruct (filter_detections_rows _ _ _ _ _ H)
    as (cands & scores & vals & top & Ec & _ & _ & Es & Hnan & Et & Ltop & _ & _ & Hv
        & _ & _).
  exists cands. split; [exact Ec | ].
  intros i j si sj Hij Hj Hi' Hj'.
  assert (forall n s, n < real_count cfg cands ->
                      nth_error (out_scores out) n = Some s ->
                      nth_error vals n = Some s) as Hvals.
  { intros n s Hn Hs. rewrite <- Hv, nth_error_firstn.
    destruct (n <? real_count cfg cands) eqn:B; auto.
    apply Nat.ltb_ge in B. lia. }
  apply Hvals in Hi'; [ | lia]. apply Hvals in Hj'; [ | lia].
  destruct (real_row_exists top _ i Ltop) as [p Hp]; [lia | ].
  destruct (real_row_exists top _ j Ltop) as [q Hq]; [lia | ].
  pose proof (top_k_before _ _ _ _ Hnan Et _ _ _ _ _ _ Hij Hp Hq Hi' Hj') as Hb.
  apply before_not_greater in Hb. simpl in Hb.
  destruct (top_k_nth _ _ _ _ Et _ _ Hp) as (v & Hv1 & Hv2).
  destruct (top_k_nth _ _ _ _ Et _ _ Hq) as (w & Hw1 & Hw2).
  assert (v = si) by congruence. assert (w = sj) by congruence. subst.
  rewrite Forall_forall in Hnan.
  apply not_greater_SFleb; auto; apply Hnan; eapply nth_error_In; eauto.
Qed.

Lemma filter_detections_scores_sorted_witness :
  exists cands,
    candidate_indices sample_config sample_boxes sample_classification = Ok cands /\
    forall i j si sj,
      i < j -> j < real_count sample_config cands ->
      nth_error (out_scores sample_detections) i = Some si ->
      nth_error (out_scores sample_detections) j = Some sj ->
      SFleb sj si = true.
Proof.
  apply (filter_detections_scores_sorted sample_boxes sample_classification
                                         sample_other sample_config sample_detections).
  vm_compute. reflexivity.
Defined.

(** C5.  Threshold exclusion: the score of every real row is strictly
    greater than [score_threshold], whichever way the candidates were
    generated; no real row has [score <= score_threshold]. *)
Theorem filter_detections_above_threshold (boxes : list box) (cls : matrix)
        (other : list aux) (cfg : config) (out : detections) :
  filter_detections boxes cls other cfg = Ok out ->
  exists cands,
    candidate_indices cfg boxes cls = Ok cands /\
    forall i s,
      i < real_count cfg cands ->
      nth_error (out_scores out) i = Some s ->
      greater s (score_threshold cfg) = true /\
      SFleb s (score_threshold cfg) = false.
Proof.
  intros H.
  destruct (filter_detections_rows _ _ _ _ _ H)
    as (cands & scores & vals & top & Ec & Hok & _ & _ & _ & _ & Ltop & _ & _ & _
        & Hreal & _).
  exists cands. split; [exact Ec | ].
  intros i s Hi Hs.
  destruct (real_row_exists top _ i Ltop Hi) as [p Hp].
  destruct (Hreal _ _ Hp) as (x & Hx & s' & bx & Hlk & _ & _ & Hs' & _).
  assert (s' = s) by congruence. subst s'.
  rewrite Forall_forall in Hok.
  destruct (Hok x (nth_error_In _ _ Hx)) as (s'' & Hlk' & Hg).
  assert (s'' = s) by congruence. subst s''.
  split; [exact Hg | apply greater_not_SFleb; exact Hg].
Qed.

Lemma filter_detections_above_threshold_witness :
  exists cands,
    candidate_indices sample_config sample_boxes sample_classification = Ok cands /\
    forall i s,
      i < real_count sample_config cands ->
      nth_error (out_scores sample_detections) i = Some s ->
      greater s (score_threshold sample_config) = true /\
      SFleb s (score_threshold sample_config) = false.
Proof.
  apply (filter_detections_above_threshold sample_boxes sample_classification
                                           sample_other sample_config sample_detections).
  vm_compute. reflexivity.
Defined.

(** C6.  Gather: real row [i] is the candidate ranked [i] by the global
    top-k; its score is [classification[box_index, label]], its box is
    [boxes[box_index]], and row [i] of every auxiliary output is
    [other[k][box_index]]. *)
Theorem filter_detections_gather (boxes : list box) (cls : matrix)
        (other : list aux) (cfg : config) (out : detections) :
  filter_detections boxes cls other cfg = Ok out ->
  exists cands scores vals top,
    candidate_indices cfg boxes cls = Ok cands /\
    gather_nd2 cls cands = Ok scores /\
    top_k scores (Z.min (max_detections cfg) (Z.of_nat (length scores)))
    = Ok (vals, top) /\
    forall i, i < real_count cfg cands ->
              exists p x, nth_error top i = Some p /\
                          nth_error cands p = Some x /\
                          real_row boxes cls other x out i.
Proof.
  intros H.
  destruct (filter_detections_rows _ _ _ _ _ H)
    as (cands & scores & vals & top & Ec & _ & _ & Es & _ & Et & Ltop & _ & _ & _
        & Hreal & _).
  exists cands, scores, vals, top.
  split; [exact Ec | ]. split; [exact Es | ]. split; [exact Et | ].
  intros i Hi.
  destruct (real_row_exists top _ i Ltop Hi) as [p Hp].
  destruct (Hreal _ _ Hp) as (x & Hx & Hrow).
  exists p, x. auto.
Qed.

Lemma filter_detections_gather_witness :
  exists cands scores vals top,
    candidate_indices sample_config sample_boxes sample_classification = Ok cands /\
    gather_nd2 sample_classification cands = Ok scores /\
    top_k scores (Z.min (max_detections sample_config) (Z.of_nat (length scores)))
    = Ok (vals, top) /\
    forall i, i < real_count sample_config cands ->
              exists p x, nth_error top i = Some p /\
                          nth_error cands p = Some x /\
                          real_row sample_boxes sample_classification sample_other
                                   x sample_detections i.
Proof.
  apply (filter_detections_gather sample_boxes sample_classification sample_other
                                  sample_config sample_detections).
  vm_compute. reflexivity.
Defined.

Lemma cast_int32_id (z : Z) :
  (- 2 ^ 31 <= z < 2 ^ 31)%Z -> cast_int32 z = z.
Proof.
  intros H. unfold cast_int32.
  rewrite Z.mod_small by lia. lia.
Qed.



(** C10.  Labels: on a rectangular score matrix whose class count fits an
    int32, a real row has its label in [0, C-1], and among the
    [max_detections] rows the label is -1 exactly on the padded ones. *)
Theorem filter_detections_labels (boxes : list box) (cls : matrix)
        (other : list aux) (cfg : config) (out : detections) :
  matrix_wf cls ->
  (Z.of_nat (num_classes cls) <= 2 ^ 31)%Z ->
  filter_detections boxes cls other cfg = Ok out ->
  exists cands,
    candidate_indices cfg boxes cls = Ok cands /\
    forall i l,
      i < Z.to_nat (max_detections cfg) ->
      nth_error (out_labels out) i = Some l ->
      (i < real_count cfg cands -> (0 <= l < Z.of_nat (num_classes cls))%Z) /\
      (l = (-1)%Z <-> real_count cfg cands <= i).
Proof.
  intros Hwf HC H.
  destruct (filter_detections_rows _ _ _ _ _ H)
    as (cands & scores & vals & top & Ec & _ & _ & _ & _ & _ & Ltop & _ & _ & _
        & Hreal & Hpad).
  pose proof (candidate_indices_labels _ _ _ _ Hwf Ec) as Hlab.
  rewrite Forall_forall in Hlab.
  exists cands. split; [exact Ec | ].
  intros i l Hi Hl.
  destruct (Nat.lt_ge_cases i (real_count cfg cands)) as [Hr | Hr].
  - destruct (real_row_exists top _ i Ltop Hr) as [p Hp].
    destruct (Hreal _ _ Hp) as (x & Hx & s & bx & _ & _ & _ & _ & Hol & _).
    pose proof (Hlab x (nth_error_In _ _ Hx)) as Rx.
    rewrite cast_int32_id in Hol by lia.
    assert (l = snd x) by congruence. subst l.
    split; [intros _; exact Rx | ]. split; intros; lia.
  - destruct (Hpad i (conj Hr Hi)) as (_ & _ & Hol & _).
    assert (l = (-1)%Z) by congruence. subst l.
    split; [intros; lia | ]. split; auto.
Qed.

Lemma filter_detections_labels_witness :
  exists cands,
    candidate_indices sample_config sample_boxes sample_classification = Ok cands /\
    forall i l,
      i < Z.to_nat (max_detections sample_config) ->
      nth_error (out_labels sample_detections) i = Some l ->
      (i < real_count sample_config cands ->
       (0 <= l < Z.of_nat (num_classes sample_classification))%Z) /\
      (l = (-1)%Z <-> real_count sample_config cands <= i).
Proof.
  apply (filter_detections_labels sample_boxes sample_classification sample_other
                                  sample_config sample_detections).
  - repeat constructor.
  - simpl. lia.
  - vm_compute. reflexivity.
Defined.

(** ** Errors *)

(** C7 as stated fails: a configuration the specification calls invalid
    ([max_detections = 0]) is accepted and yields zero-row outputs. *)
Lemma filter_detections_accepts_zero_width :
  invalid_config zero_config /\
  filter_detections sample_boxes sample_classification [] zero_config
  = Ok empty_detections.
Proof.
  split.
  - left. simpl. lia.
  - vm_compute. reflexivity.
Qed.

(** C7, amended.  No argument is validated before the computation; an
    error comes from a primitive that rejects its argument.  The call
    fails, with no result, when [max_detections] is negative or is 2^31 or
    more, when [nms] is on and [nms_threshold] is NaN or outside [0, 1],
    and when the score matrix has no class.  Whenever it returns, every
    real row is the detection of a candidate whose box index lies inside
    [boxes], inside the score matrix and inside every auxiliary tensor.
    On input of the stated shapes, with at least one class, it returns
    under every other configuration: [0 <= max_detections < 2^31] and,
    when [nms] is on, [nms_threshold] in [0, 1]; whatever
    [score_threshold] is, NaN included, and, when [nms] is off, whatever
    [nms_threshold] is. *)
Theorem filter_detections_rejects (boxes : list box) (cls : matrix)
        (other : list aux) (cfg : config) :
  (((max_detections cfg < 0)%Z \/
    (2 ^ 31 <= max_detections cfg)%Z \/
    (nms cfg = true /\
     SFleb f32_zero (nms_threshold cfg) && SFleb (nms_threshold cfg) f32_one = false) \/
    num_classes cls = 0) ->
   exists e, filter_detections boxes cls other cfg = Err e) /\
  (forall out,
      filter_detections boxes cls other cfg = Ok out ->
      exists cands,
        candidate_indices cfg boxes cls = Ok cands /\
        forall i, i < real_count cfg cands ->
                  exists x, In x cands /\
                            real_row boxes cls other x out i /\
                            fst x < length boxes /\
                            fst x < length (rows cls) /\
                            Forall (fun o => fst x < length (aux_rows o)) other) /\
  (valid_input boxes cls other ->
   (0 <= max_detections cfg < 2 ^ 31)%Z ->
   (nms cfg = true ->
    SFleb f32_zero (nms_threshold cfg) && SFleb (nms_threshold cfg) f32_one = true) ->
   exists out, filter_detections boxes cls other cfg = Ok out).
Proof.
  split; [ | split].
  - intros Hbad.
    destruct (filter_detections boxes cls other cfg) as [out|e] eqn:H; [ | eauto].
    exfalso.
    destruct (filter_detections_accepted _ _ _ _ _ H) as [Hcl [Hmd Hthr]].
    destruct Hbad as [Hneg | [Hbig | [[Hnms Hbad] | Hzero]]]; try lia.
    rewrite (Hthr Hnms) in Hbad. discriminate.
  - intros out H.
    destruct (filter_detections_rows _ _ _ _ _ H)
      as (cands & scores & vals & top & Ec & _ & _ & _ & _ & _ & Ltop & _ & _ & _
          & Hreal & _).
    exists cands. split; [exact Ec | ].
    intros i Hi.
    destruct (real_row_exists top _ i Ltop Hi) as [p Hp].
    destruct (Hreal _ _ Hp) as (x & Hx & Hrow).
    exists x. split; [eapply nth_error_In; eauto | ]. split; [exact Hrow | ].
    destruct Hrow as (s & bx & Hlk & Hbx & _ & _ & _ & Haux).
    split; [apply nth_error_Some; congruence | ]. split.
    + destruct x as [b l]. destruct (lookup2_inv _ _ _ _ Hlk) as (r & Hr & _).
      simpl. apply nth_error_Some. congruence.
    + eapply Forall2_Forall_l; [exact Haux | ].
      intros o o' (_ & r & Hr & _). simpl. apply nth_error_Some. congruence.
  - intros Hi Hmd Hthr.
    destruct (filter_detections_total boxes cls other cfg (mk_accepted_config cfg Hmd Hthr) Hi)
      as (cands & out & _ & Eo).
    eauto.
Qed.

Lemma filter_detections_rejects_witness :
  (exists e, filter_detections sample_boxes sample_classification sample_other
                               overflow_config = Err e) /\
  (exists out, filter_detections sample_boxes nan_classification sample_other
                                 (mk_config false false S754_nan 0 S754_nan) = Ok out).
Proof.
  split.
  - apply (proj1 (filter_detections_rejects sample_boxes sample_classification
                                            sample_other overflow_config)).
    right. left. vm_compute. discriminate.
  - apply (proj2 (proj2 (filter_detections_rejects
                           sample_boxes nan_classification sample_other
                           (mk_config false false S754_nan 0 S754_nan)))).
    + constructor; [reflexivity | repeat constructor | simpl; lia | repeat constructor].
    + simpl. lia.
    + discriminate.
Defined.

(** * Further properties of the filter *)

(** ** Distinct candidates *)


Lemma StronglySorted_neq_NoDup {A : Type} (l : list A) :
  StronglySorted (fun a b => a <> b) l <-> NoDup l.
Proof.
  split.
  - induction 1 as [|a l Hs IH Hf]; constructor; auto.
    intros Hin. rewrite Forall_forall in Hf. exact (Hf a Hin eq_refl).
  - induction 1 as [|a l Hn Hd IH]; constructor; auto.
    apply Forall_forall. intros b Hb Heq. subst. contradiction.
Qed.

Lemma tf_where_increasing (mask : list bool) :
  StronglySorted lt (tf_where mask).
Proof.
  unfold tf_where. apply StronglySorted_map.
  apply StronglySorted_filter. apply enumerate_increasing.
Qed.

Lemma sort_desc_distinct (fs : list float) (l : list (nat * float)) :
  (forall a, In a l -> nth_error fs (fst a) = Some (snd a)) ->
  Forall (fun y => is_nan (snd y) = false) l ->
  StronglySorted (fun x y => fst x < fst y) l ->
  StronglySorted (fun a b => a <> b) (map fst (sort_desc l)).
Proof.
  intros Hin Hn Hs. apply StronglySorted_map.
  apply StronglySorted_impl with (R := before).
  - intros a b Ha Hb Hab Heq.
    apply (proj1 (sort_desc_In _ _)) in Ha. apply (proj1 (sort_desc_In _ _)) in Hb.
    pose proof (Hin _ Ha) as Ha'. pose proof (Hin _ Hb) as Hb'.
    rewrite Heq in Ha'. assert (snd a = snd b) as E by congruence.
    destruct Hab as [G | [_ L]]; [ | lia].
    rewrite E, greater_irrefl in G. discriminate.
  - apply sort_desc_sorted; auto.
Qed.

Lemma top_k_NoDup (values : list float) (k : Z) (vals : list float) (idx : list nat) :
  Forall (fun v => is_nan v = false) values ->
  top_k values k = Ok (vals, idx) -> NoDup idx.
Proof.
  intros Hn H. destruct (top_k_inv _ _ _ _ H) as (_ & _ & -> & _).
  apply StronglySorted_neq_NoDup. rewrite <- firstn_map.
  apply StronglySorted_firstn.
  apply sort_desc_distinct with (fs := values).
  - intros [p v] Hp. apply (proj1 (in_enumerate _ _ _)) in Hp. exact Hp.
  - apply Forall_forall. intros [p v] Hp. apply (proj1 (in_enumerate _ _ _)) in Hp.
    rewrite Forall_forall in Hn. simpl. apply Hn. eapply nth_error_In; eauto.
  - apply enumerate_increasing.
Qed.

Lemma non_max_suppression_NoDup (fb : list box) (fs : list float) (m : Z) (thr : float)
      (sel : list nat) :
  non_max_suppression fb fs m thr = Ok sel -> NoDup sel.
Proof.
  intros H. destruct (non_max_suppression_spec _ _ _ _ _ H) as (_ & K & _). exact K.
Qed.

Lemma gather_NoDup (params : list nat) (indices : list nat) (r : list nat) :
  NoDup params -> NoDup indices -> gather params indices = Ok r -> NoDup r.
Proof.
  intros Hp Hi H. apply gather_Forall2 in H.
  apply StronglySorted_neq_NoDup. apply StronglySorted_neq_NoDup in Hi.
  eapply StronglySorted_Forall2; [ | exact H | exact Hi].
  intros a b a' b' Ha Hb Hab Heq. simpl in *. subst b'.
  apply Hab. rewrite NoDup_nth_error in Hp. apply Hp.
  - apply nth_error_Some. congruence.
  - congruence.
Qed.

Lemma _filter_detections_fst (cfg : config) (boxes : list box)
      (scores : list float) (labels : list Z) (cands : list (nat * Z)) :
  _filter_detections cfg boxes scores labels = Ok cands ->
  NoDup (map fst cands) /\
  (nms cfg = false ->
   map fst cands = tf_where (map (fun s => greater s (score_threshold cfg)) scores)).
Proof.
  unfold _filter_detections.
  set (indices0 := tf_where (map (fun s => greater s (score_threshold cfg)) scores)).
  intros H.
  assert (NoDup indices0) as Hnd
      by (apply StronglySorted_lt_NoDup; apply tf_where_increasing).
  destruct (nms cfg) eqn:Hnms.
  - destruct (gather boxes indices0) as [fb|] eqn:E; simpl in H; [ | discriminate].
    destruct (gather scores indices0) as [fs|] eqn:E0; simpl in H; [ | discriminate].
    destruct (non_max_suppression fb fs (max_detections cfg) (nms_threshold cfg))
      as [nms_indices|] eqn:E1; simpl in H; [ | discriminate].
    destruct (gather indices0 nms_indices) as [indices|] eqn:E2; simpl in H;
      [ | discriminate].
    destruct (gather labels indices) as [labels'|] eqn:E3; simpl in H;
      [ | discriminate].
    injection H as <-.
    rewrite (Forall2_map_fst_combine _ _ _ (gather_Forall2 _ _ _ E3)).
    split; [ | discriminate].
    eapply gather_NoDup; [exact Hnd | | exact E2].
    eapply non_max_suppression_NoDup; eauto.
  - simpl in H.
    destruct (gather labels indices0) as [labels'|] eqn:E; simpl in H;
      [ | discriminate].
    injection H as <-.
    rewrite (Forall2_map_fst_combine _ _ _ (gather_Forall2 _ _ _ E)).
    split; auto.
Qed.

Lemma per_class_labels (cfg : config) (boxes : list box) (cls : matrix) (c : nat)
      (block : list (nat * Z)) :
  _filter_detections cfg boxes (column cls c)
    (repeat (Z.of_nat c) (length (column cls c))) = Ok block ->
  Forall (fun x => snd x = Z.of_nat c) block.
Proof.
  intros H. destruct (_filter_detections_spec _ _ _ _ _ H) as [Hp _].
  eapply Forall_impl; [ | exact Hp].
  intros x (s & _ & _ & Hl). apply nth_error_In in Hl.
  apply repeat_spec in Hl. exact Hl.
Qed.

Lemma per_class_distinct (cfg : config) (boxes : list box) (cls : matrix) (cs : list nat) :
  forall blocks,
    NoDup cs ->
    mapM (fun c => _filter_detections cfg boxes (column cls c)
                     (repeat (Z.of_nat c) (length (column cls c)))) cs = Ok blocks ->
    NoDup (concat blocks).
Proof.
  induction cs as [|c cs IH]; intros blocks Hnd H; simpl in H.
  - injection H as <-. constructor.
  - destruct (_filter_detections cfg boxes (column cls c)
                (repeat (Z.of_nat c) (length (column cls c)))) as [block|] eqn:E;
      simpl in H; [ | discriminate].
    destruct (mapM _ cs) as [blocks'|] eqn:E'; simpl in H; [ | discriminate].
    injection H as <-. simpl.
    inversion Hnd as [|? ? Hnotin Hnd']; subst.
    apply NoDup_app.
    + apply NoDup_map_inv with (f := fst).
      exact (proj1 (_filter_detections_fst _ _ _ _ _ E)).
    + apply IH; auto.
    + intros x Hx Hx'.
      pose proof (per_class_labels _ _ _ _ _ E) as Hl. rewrite Forall_forall in Hl.
      destruct (per_class_spec _ _ _ _ _ E') as [Hrest _].
      rewrite Forall_forall in Hrest.
      destruct (Hrest _ Hx') as (_ & c' & Hc' & Hl').
      rewrite (Hl _ Hx) in Hl'. assert (c' = c) by lia. subst. contradiction.
Qed.

Lemma candidate_indices_distinct (cfg : config) (boxes : list box) (cls : matrix)
      (cands : list (nat * Z)) :
  candidate_indices cfg boxes cls = Ok cands ->
  NoDup cands /\
  (class_specific_filter cfg = false -> NoDup (map fst cands)).
Proof.
  unfold candidate_indices. intros H.
  destruct (class_specific_filter cfg).
  - destruct (mapM _ (seq 0 (num_classes cls))) as [blocks|] eqn:E; simpl in H;
      [ | discriminate].
    apply concatenate_inv in H. destruct H as [-> _].
    split; [ | discriminate].
    eapply per_class_distinct; [apply seq_NoDup | exact E].
  - destruct (k_argmax cls) as [labels|] eqn:E; simpl in H; [ | discriminate].
    pose proof (proj1 (_filter_detections_fst _ _ _ _ _ H)) as Hnd.
    split; auto. eapply NoDup_map_inv; eauto.
Qed.

(** ** Without suppression *)

Lemma gather_map_nth {A : Type} (params : list A) (indices : list nat) (d : A) :
  Forall (fun i => i < length params) indices ->
  gather params indices = Ok (map (fun i => nth i params d) indices).
Proof.
  induction 1 as [|i l Hi _ IH]; simpl; auto.
  unfold gather in *. simpl.
  destruct (nth_error params i) as [a|] eqn:E.
  - simpl. rewrite IH. simpl. rewrite (nth_error_nth _ _ d E). reflexivity.
  - apply nth_error_None in E. lia.
Qed.

Lemma combine_map_r {A B : Type} (f : A -> B) (l : list A) :
  combine l (map f l) = map (fun a => (a, f a)) l.
Proof. induction l; simpl; congruence. Qed.

Lemma _filter_detections_no_nms (cfg : config) (boxes : list box)
      (scores : list float) (labels : list Z) :
  nms cfg = false -> length labels = length scores ->
  _filter_detections cfg boxes scores labels
  = Ok (map (fun b => (b, nth b labels 0%Z))
            (tf_where (map (fun s => greater s (score_threshold cfg)) scores))).
Proof.
  intros Hnms Hl. unfold _filter_detections. rewrite Hnms. simpl.
  rewrite (gather_map_nth labels _ 0%Z).
  - simpl. rewrite combine_map_r. reflexivity.
  - pose proof (tf_where_in_range (map (fun s => greater s (score_threshold cfg)) scores))
      as H. rewrite length_map in H. rewrite Hl. exact H.
Qed.

Lemma mapM_map {A B : Type} (f : A -> result B) (g : A -> B) (l : list A) :
  (forall a, In a l -> f a = Ok (g a)) -> mapM f l = Ok (map g l).
Proof.
  induction l as [|a l IH]; intros H; simpl; auto.
  rewrite (H a (or_introl eq_refl)). simpl.
  rewrite IH by (intros; apply H; simpl; auto). reflexivity.
Qed.

Lemma per_class_block_no_nms (cfg : config) (boxes : list box) (cls : matrix) (c : nat) :
  nms cfg = false ->
  _filter_detections cfg boxes (column cls c)
    (repeat (Z.of_nat c) (length (column cls c)))
  = Ok (map (fun b => (b, Z.of_nat c))
            (tf_where (map (fun s => greater s (score_threshold cfg)) (column cls c)))).
Proof.
  intros Hnms. rewrite _filter_detections_no_nms; auto using repeat_length.
  f_equal. apply map_ext_in. intros b Hb. f_equal.
  apply in_tf_where_greater in Hb. destruct Hb as (s & Hs & _).
  apply nth_error_nth. apply nth_error_repeat.
  apply nth_error_Some. congruence.
Qed.

Lemma class_major_blocks (f : nat -> list nat) (n : nat) :
  (forall c, StronglySorted lt (f c)) ->
  forall a,
    StronglySorted class_major
      (concat (map (fun c => map (fun b => (b, Z.of_nat c)) (f c)) (seq a n))).
Proof.
  intros Hf. induction n as [|n IH]; intros a; simpl.
  - constructor.
  - apply StronglySorted_app.
    + apply StronglySorted_map. eapply StronglySorted_impl; [ | apply Hf].
      intros x y _ _ Hxy. right. simpl. auto.
    + apply IH.
    + intros x y Hx Hy.
      apply in_map_iff in Hx. destruct Hx as (b & <- & _).
      apply in_concat in Hy. destruct Hy as (blk & Hblk & Hy).
      apply in_map_iff in Hblk. destruct Hblk as (c & <- & Hc).
      apply in_map_iff in Hy. destruct Hy as (b' & <- & _).
      apply in_seq in Hc. left. simpl. lia.
Qed.

(** X1.  Pass-through, per class: with suppression off and per-class
    filtering, the call of the candidate stage returns (whatever the
    boxes), and the candidates are exactly the (box, class) pairs whose
    score is strictly above the threshold, listed class by class and by
    increasing box index within a class. *)
Theorem per_class_pass_through (cfg : config) (boxes : list box) (cls : matrix) :
  nms cfg = false -> class_specific_filter cfg = true -> 0 < num_classes cls ->
  exists cands,
    candidate_indices cfg boxes cls = Ok cands /\
    StronglySorted class_major cands /\
    forall b l,
      In (b, l) cands <->
      (l < Z.of_nat (num_classes cls))%Z /\
      exists s, lookup2 cls (b, l) = Ok s /\ greater s (score_threshold cfg) = true.
Proof.
  intros Hnms Hcs HC. unfold candidate_indices. rewrite Hcs.
  rewrite (mapM_map _ (fun c => map (fun b => (b, Z.of_nat c))
                                  (tf_where (map (fun s => greater s (score_threshold cfg))
                                                 (column cls c)))))
    by (intros c _; apply per_class_block_no_nms; exact Hnms).
  simpl.
  destruct (num_classes cls) as [|n] eqn:En; [lia | ].
  change (seq 0 (S n)) with (0 :: seq 1 n). cbn [map concatenate].
  change (0 :: seq 1 n) with (seq 0 (S n)).
  eexists. split; [reflexivity | ]. split.
  - apply (class_major_blocks
             (fun c => tf_where (map (fun s => greater s (score_threshold cfg))
                                     (column cls c))) (S n)).
    intros c. apply tf_where_increasing.
  - intros b l. change (?x :: concat ?y) with (concat (x :: y)).
    split.
    + intros Hin.
      change (map ?f (tf_where ?m) :: map ?g (seq 1 n))
        with (map g (seq 0 (S n))) in Hin.
      apply in_concat in Hin. destruct Hin as (blk & Hblk & Hin).
      apply in_map_iff in Hblk. destruct Hblk as (c & <- & Hc).
      apply in_map_iff in Hin. destruct Hin as (b' & Heq & Hb').
      injection Heq as -> <-. apply in_seq in Hc.
      split; [lia | ].
      destruct (in_tf_where_greater _ _ _ Hb') as (s & Hs & Hg).
      exists s. split; auto. eapply column_lookup2; eauto.
    + intros (Hl & s & Hs & Hg).
      destruct (lookup2_inv _ _ _ _ Hs) as (r & Hr & Hl0 & Hv).
      apply in_concat.
      exists (map (fun b0 => (b0, Z.of_nat (Z.to_nat l)))
                  (tf_where (map (fun s0 => greater s0 (score_threshold cfg))
                                 (column cls (Z.to_nat l))))).
      split.
      * change (map ?f (tf_where ?m) :: map ?g (seq 1 n))
          with (map g (seq 0 (S n))).
        apply in_map_iff. exists (Z.to_nat l). split; auto.
        apply in_seq. lia.
      * apply in_map_iff. exists b. split; [f_equal; lia | ].
        apply in_tf_where. rewrite nth_error_map.
        rewrite <- (Z2Nat.id l) in Hs by lia.
        rewrite (lookup2_column _ _ _ _ Hs). simpl. rewrite Hg. reflexivity.
Qed.

Lemma per_class_pass_through_witness :
  exists cands,
    candidate_indices top_two_config sample_boxes one_class_scores = Ok cands /\
    StronglySorted class_major cands /\
    forall b l,
      In (b, l) cands <->
      (l < Z.of_nat (num_classes one_class_scores))%Z /\
      exists s, lookup2 one_class_scores (b, l) = Ok s /\
                greater s (score_threshold top_two_config) = true.
Proof.
  apply (per_class_pass_through top_two_config sample_boxes one_class_scores).
  - reflexivity.
  - reflexivity.
  - simpl. lia.
Defined.

(** ** The best class of a box *)

Lemma fold_max_bound (l : list float) :
  forall v,
    is_nan v = false ->
    let m := fold_left (fun acc x => if greater x acc then x else acc) l v in
    is_nan m = false /\ greater v m = false /\
    forall x, In x l -> greater x m = false.
Proof.
  induction l as [|x l IH]; intros v Nv; simpl.
  - split; [exact Nv | ]. split; [apply greater_irrefl | tauto].
  - destruct (greater x v) eqn:G.
    + destruct (greater_not_nan _ _ G) as [Nx _].
      destruct (IH x Nx) as (Nm & Hx & Hl).
      split; [exact Nm | ]. split.
      * apply (not_greater_trans v x _); auto. apply greater_asym. exact G.
      * intros y [<- | Hy]; auto.
    + destruct (IH v Nv) as (Nm & Hv & Hl).
      split; [exact Nm | ]. split; [exact Hv | ].
      intros y [Hy | Hy]; auto. subst y.
      destruct (is_nan x) eqn:Nx.
      * destruct x; try discriminate. apply greater_nan_l.
      * apply (not_greater_trans x v _); auto.
Qed.

(** No entry of a row is strictly greater than its maximum. *)
Lemma reduce_max_bound (r : list float) (x : float) :
  In x r -> greater x (reduce_max r) = false.
Proof.
  intros Hx. rewrite reduce_max_fold.
  destruct (existsb is_nan r); [reflexivity | ].
  destruct (fold_max_bound r neg_infinity eq_refl) as (_ & _ & H). auto.
Qed.


Lemma argmax_from_first (l : list float) :
  forall a i v j w,
    is_nan v = false -> i <= a ->
    argmax_from (combine (seq a (length l)) l) (i, v) = (j, w) ->
    (j <> i -> greater w v = true) /\
    forall c x, nth_error l c = Some x -> is_nan x = false -> a + c < j ->
                greater w x = true.
Proof.
  induction l as [|x0 l IH]; intros a i v j w Nv Hi H; simpl in H.
  - injection H as <- <-. split; [congruence | ].
    intros c x Hc. destruct c; discriminate.
  - destruct (greater x0 v) eqn:G.
    + destruct (greater_not_nan _ _ G) as [Nx _].
      destruct (IH (S a) a x0 j w Nx (Nat.le_succ_diag_r a) H) as [Q P].
      assert (j <> a -> greater w x0 = true) as Q' by exact Q.
      assert (j = a -> w = x0) as Heq.
      { intros ->. destruct (argmax_from_spec l (S a) a x0 a w H) as [_ [E | [E _]]].
        - congruence.
        - lia. }
      split.
      * intros _. destruct (Nat.eq_dec j a) as [E | E].
        -- rewrite (Heq E). exact G.
        -- eapply greater_trans; [apply Q'; exact E | exact G].
      * intros c x Hc Nx' Hlt. destruct c as [|c]; simpl in Hc.
        -- injection Hc as <-. apply Q'. lia.
        -- apply (P c x Hc Nx'). lia.
    + assert (i <= S a) as Hi' by lia.
      destruct (IH (S a) i v j w Nv Hi' H) as [Q P].
      split; [exact Q | ].
      intros c x Hc Nx' Hlt. destruct c as [|c]; simpl in Hc.
      * injection Hc as <-.
        apply (greater_not_greater_trans w v x0); auto. apply Q. lia.
      * apply (P c x Hc Nx'). lia.
Qed.

(** An entry before the index [argmax] returns is not the maximum. *)
Lemma argmax_row_first (r : list float) (c : nat) :
  is_nan (reduce_max r) = false ->
  c < argmax_row r -> nth_error r c <> Some (reduce_max r).
Proof.
  intros Nr. destruct (reduce_max_not_nan r Nr) as [_ ->].
  unfold argmax_row, enumerate.
  destruct (argmax_from (combine (seq 0 (length r)) r) (0, neg_infinity))
    as [j w] eqn:E. simpl. intros Hc Heq.
  destruct (argmax_from_spec r 0 0 neg_infinity j w E) as [Hw _].
  destruct (argmax_from_first r 0 0 neg_infinity j w eq_refl (Nat.le_refl 0) E) as [Q P].
  rewrite <- Hw in Heq.
  assert (greater w neg_infinity = true) as G by (apply Q; lia).
  destruct (greater_not_nan _ _ G) as [Nw _].
  pose proof (P c w Heq Nw Hc) as G'.
  rewrite greater_irrefl in G'. discriminate.
Qed.

(** X2.  Pass-through, best class: with suppression off and
    [class_specific_filter] off, on a score matrix with at least one class
    the candidate stage returns one candidate for each box whose row
    maximum is strictly above the threshold and none for the others, by
    increasing box index, labelled with the row's [argmax].  The maximum
    of a row that holds a NaN is NaN, which is above no threshold: such a
    box is no candidate. *)
Theorem best_class_pass_through (cfg : config) (boxes : list box) (cls : matrix) :
  nms cfg = false -> class_specific_filter cfg = false -> 0 < num_classes cls ->
  exists cands,
    candidate_indices cfg boxes cls = Ok cands /\
    StronglySorted lt (map fst cands) /\
    forall b l,
      In (b, l) cands <->
      exists r, nth_error (rows cls) b = Some r /\
                l = Z.of_nat (argmax_row r) /\
                greater (reduce_max r) (score_threshold cfg) = true.
Proof.
  intros Hnms Hcs HC. unfold candidate_indices, k_argmax. rewrite Hcs.
  destruct (num_classes cls =? 0) eqn:E; [apply Nat.eqb_eq in E; lia | ].
  simpl. rewrite _filter_detections_no_nms;
    [ | exact Hnms | unfold k_max; rewrite !length_map; reflexivity].
  eexists. split; [reflexivity | ]. split.
  - rewrite map_map. simpl. rewrite map_id. apply tf_where_increasing.
  - intros b l. rewrite in_map_iff. split.
    + intros (b' & Heq & Hb'). injection Heq as -> <-.
      destruct (in_tf_where_greater _ _ _ Hb') as (s & Hs & Hg).
      unfold k_max in Hs. rewrite nth_error_map in Hs.
      destruct (nth_error (rows cls) b) as [r|] eqn:Hr; simpl in Hs; [ | discriminate].
      injection Hs as <-. exists r. split; auto. split; auto.
      apply nth_error_nth. rewrite nth_error_map, Hr. reflexivity.
    + intros (r & Hr & -> & Hg). exists b. split.
      * f_equal. apply nth_error_nth. rewrite nth_error_map, Hr. reflexivity.
      * apply in_tf_where. unfold k_max. rewrite !nth_error_map, Hr. simpl.
        rewrite Hg. reflexivity.
Qed.

Lemma best_class_pass_through_witness :
  exists cands,
    candidate_indices (mk_config false false (score_threshold sample_config) 4
                                 (nms_threshold sample_config))
                      sample_boxes mixed_classification = Ok cands /\
    StronglySorted lt (map fst cands) /\
    forall b l,
      In (b, l) cands <->
      exists r, nth_error (rows mixed_classification) b = Some r /\
                l = Z.of_nat (argmax_row r) /\
                greater (reduce_max r) (score_threshold sample_config) = true.
Proof.
  apply (best_class_pass_through
           (mk_config false false (score_threshold sample_config) 4
                      (nms_threshold sample_config))
           sample_boxes mixed_classification).
  - reflexivity.
  - reflexivity.
  - simpl. lia.
Defined.


Lemma best_class_candidates (cfg : config) (boxes : list box) (cls : matrix)
      (cands : list (nat * Z)) :
  class_specific_filter cfg = false ->
  candidate_indices cfg boxes cls = Ok cands ->
  Forall (fun x => exists r, nth_error (rows cls) (fst x) = Some r /\
                             snd x = Z.of_nat (argmax_row r) /\
                             lookup2 cls x = Ok (reduce_max r) /\
                             greater (reduce_max r) (score_threshold cfg) = true)
         cands.
Proof.
  unfold candidate_indices. intros Hcs H. rewrite Hcs in H.
  destruct (k_argmax cls) as [labels|] eqn:E; simpl in H; [ | discriminate].
  unfold k_argmax in E. destruct (num_classes cls =? 0); [discriminate | ].
  injection E as <-.
  destruct (_filter_detections_spec _ _ _ _ _ H) as [Hp _].
  eapply Forall_impl; [ | exact Hp].
  intros [b l] (s & Hs & Hgt & Hlab). simpl in *.
  unfold k_max in Hs. rewrite nth_error_map in Hs, Hlab.
  destruct (nth_error (rows cls) b) as [r|] eqn:Hr; simpl in *; [ | discriminate].
  injection Hs as <-. injection Hlab as <-.
  exists r. repeat split; auto.
  apply lookup2_intro with (r := r); auto.
  eapply argmax_row_max; eauto.
Qed.

(** ** NaN among the scores *)

(** C8.  NaN scores.  When the call returns, whatever the score threshold:
    a (box, label) pair whose score in the matrix is NaN is not a
    candidate; a pair whose score in its pass is NaN is not a candidate,
    which on the best-class path, where the score of a box is the maximum
    of its row and that maximum is NaN as soon as the row holds a NaN,
    excludes every box with a NaN in its row; and no real row carries a
    NaN score. *)
Theorem filter_detections_no_nan (boxes : list box) (cls : matrix)
        (other : list aux) (cfg : config) (out : detections) :
  filter_detections boxes cls other cfg = Ok out ->
  exists cands,
    candidate_indices cfg boxes cls = Ok cands /\
    (forall x, lookup2 cls x = Ok S754_nan -> ~ In x cands) /\
    (forall b l, nth_error (pass_scores cfg cls l) b = Some S754_nan -> ~ In (b, l) cands) /\
    (class_specific_filter cfg = false ->
     forall b l r, nth_error (rows cls) b = Some r ->
                   Exists (fun v => is_nan v = true) r -> ~ In (b, l) cands) /\
    (forall i s, i < real_count cfg cands ->
                 nth_error (out_scores out) i = Some s -> is_nan s = false).
Proof.
  intros H.
  destruct (filter_detections_rows _ _ _ _ _ H)
    as (cands & scores & vals & top & Ec & Hok & _ & _ & _ & _ & Ltop & _ & _ & _
        & Hreal & _).
  exists cands. split; [exact Ec | ].
  rewrite Forall_forall in Hok.
  assert (class_specific_filter cfg = false ->
          forall b l r, nth_error (rows cls) b = Some r -> In (b, l) cands ->
                        greater (reduce_max r) (score_threshold cfg) = true) as Hbest.
  { intros Hcs b l r Hr Hin.
    pose proof (best_class_candidates _ _ _ _ Hcs Ec) as Hb.
    rewrite Forall_forall in Hb.
    destruct (Hb _ Hin) as (r' & Hr' & _ & _ & Hg). simpl in Hr'.
    assert (r' = r) by congruence. subst r'. exact Hg. }
  split; [ | split; [ | split]].
  - intros x Hx Hin. destruct (Hok x Hin) as (s & Hs & Hg).
    assert (s = S754_nan) by congruence. subst s.
    rewrite greater_nan_l in Hg. discriminate.
  - intros b l Hp Hin. unfold pass_scores in Hp.
    destruct (class_specific_filter cfg) eqn:Hcs.
    + destruct (Hok _ Hin) as (s & Hs & Hg).
      destruct (lookup2_inv _ _ _ _ Hs) as (_ & _ & Hl & _).
      rewrite <- (Z2Nat.id l) in Hs by exact Hl.
      pose proof (lookup2_column _ _ _ _ Hs) as Hcol.
      assert (s = S754_nan) by congruence. subst s.
      rewrite greater_nan_l in Hg. discriminate.
    + unfold k_max in Hp. rewrite nth_error_map in Hp.
      destruct (nth_error (rows cls) b) as [r|] eqn:Hr; simpl in Hp; [ | discriminate].
      injection Hp as Hp.
      pose proof (Hbest eq_refl b l r Hr Hin) as Hg.
      rewrite Hp, greater_nan_l in Hg. discriminate.
  - intros Hcs b l r Hr Hex Hin.
    pose proof (Hbest Hcs b l r Hr Hin) as Hg.
    rewrite (reduce_max_nan r Hex), greater_nan_l in Hg. discriminate.
  - intros i s Hi Hs.
    destruct (real_row_exists top _ i Ltop Hi) as [p Hp].
    destruct (Hreal _ _ Hp) as (x & Hx & s' & bx & Hlk & _ & _ & Hs' & _).
    assert (s' = s) by congruence. subst s'.
    destruct (Hok x (nth_error_In _ _ Hx)) as (s'' & Hlk' & Hg).
    assert (s'' = s) by congruence. subst s''.
    apply greater_not_nan in Hg. tauto.
Qed.

Lemma filter_detections_no_nan_witness :
  exists cands,
    candidate_indices best_class_config sample_boxes mixed_classification = Ok cands /\
    (forall x, lookup2 mixed_classification x = Ok S754_nan -> ~ In x cands) /\
    (forall b l, nth_error (pass_scores best_class_config mixed_classification l) b
                 = Some S754_nan -> ~ In (b, l) cands) /\
    (class_specific_filter best_class_config = false ->
     forall b l r, nth_error (rows mixed_classification) b = Some r ->
                   Exists (fun v => is_nan v = true) r -> ~ In (b, l) cands) /\
    (forall i s, i < real_count best_class_config cands ->
                 nth_error (out_scores mixed_detections) i = Some s -> is_nan s = false).
Proof.
  apply (filter_detections_no_nan sample_boxes mixed_classification sample_other
                                  best_class_config mixed_detections).
  vm_compute. reflexivity.
Defined.

(** The rows with NaN leave no trace in the result: the row of box 1 holds
    a NaN, and the real rows are box 0 under class 1 and box 2 under
    class 0. *)
Example scenario_nan_row :
  candidate_indices best_class_config sample_boxes mixed_classification
  = Ok [(0, 1%Z); (2, 0%Z)] /\
  out_labels mixed_detections = [1; 0; -1; -1]%Z /\
  out_scores mixed_detections
  = [f32_ratio 9 10; f32_ratio 6 10; minus_one; minus_one] /\
  candidate_indices best_class_config sample_boxes nan_classification = Ok [].
Proof. vm_compute. repeat split. Qed.

(** X3.  Best class: with [class_specific_filter] off, every real row
    reports its box under the first class at which the box scores highest:
    the row's score is the entry of the box's score row at the label, no
    entry of that row is strictly greater, and no earlier class has that
    score; and no box is reported in two rows.  (The score row of a real
    row holds no NaN: the maximum of a row with a NaN is NaN and passes no
    threshold.) *)
Theorem best_class_rows (boxes : list box) (cls : matrix) (other : list aux)
        (cfg : config) (out : detections) :
  class_specific_filter cfg = false ->
  filter_detections boxes cls other cfg = Ok out ->
  exists cands sel,
    candidate_indices cfg boxes cls = Ok cands /\
    length sel = real_count cfg cands /\
    NoDup (map fst sel) /\
    forall i x,
      nth_error sel i = Some x ->
      real_row boxes cls other x out i /\
      exists r s,
        nth_error (rows cls) (fst x) = Some r /\
        nth_error (out_scores out) i = Some s /\
        nth_error r (Z.to_nat (snd x)) = Some s /\
        (forall v, In v r -> greater v s = false) /\
        (forall c, c < Z.to_nat (snd x) -> nth_error r c <> Some s).
Proof.
  intros Hcs H.
  destruct (filter_detections_rows _ _ _ _ _ H)
    as (cands & scores & vals & top & Ec & _ & _ & Es & Hnan & Et & Ltop & _ & _ & _
        & Hreal & _).
  pose proof (best_class_candidates _ _ _ _ Hcs Ec) as Hbest.
  rewrite Forall_forall in Hbest.
  destruct (candidate_indices_distinct _ _ _ _ Ec) as [_ Hnd]. specialize (Hnd Hcs).
  pose proof (top_k_NoDup _ _ _ _ Hnan Et) as Htop.
  assert (Forall (fun p => p < length cands) top) as Hrange.
  { apply Forall_forall. intros p Hp. destruct (In_nth_error _ _ Hp) as [i Hi].
    destruct (Hreal _ _ Hi) as (x & Hx & _). apply nth_error_Some. congruence. }
  destruct (gather_total cands top Hrange) as [sel Esel].
  exists cands, sel.
  split; [exact Ec | ]. split; [rewrite (gather_length _ _ _ Esel); exact Ltop | ].
  pose proof (gather_Forall2 _ _ _ Esel) as F.
  split.
  - apply StronglySorted_neq_NoDup. apply StronglySorted_map.
    apply StronglySorted_neq_NoDup in Htop.
    eapply StronglySorted_Forall2; [ | exact F | exact Htop].
    intros p q x y Hp Hq Hpq Heq. simpl in *. apply Hpq.
    rewrite NoDup_nth_error in Hnd. apply Hnd.
    + rewrite length_map. apply nth_error_Some. congruence.
    + rewrite !nth_error_map, Hp, Hq. simpl. congruence.
  - intros i x Hx.
    destruct (Forall2_nth_r _ _ _ F _ _ Hx) as (p & Hp & Hpx). simpl in Hpx.
    destruct (Hreal _ _ Hp) as (x' & Hx' & Hrow).
    assert (x' = x) by congruence. subst x'.
    split; [exact Hrow | ].
    destruct (Hbest x (nth_error_In _ _ Hpx)) as (r & Hr & Hl & Hlk & Hg).
    destruct Hrow as (s & bx & Hlk' & _ & _ & Hs & _).
    assert (s = reduce_max r) by congruence. subst s.
    exists r, (reduce_max r).
    split; [exact Hr | ]. split; [exact Hs | ].
    rewrite Hl, Nat2Z.id.
    split; [eapply argmax_row_max; eauto | ].
    split; [intros v Hv; apply reduce_max_bound; exact Hv | ].
    intros c Hc. apply argmax_row_first; [ | exact Hc].
    apply greater_not_nan in Hg. tauto.
Qed.

Lemma best_class_rows_witness :
  exists cands sel,
    candidate_indices best_class_config sample_boxes mixed_classification = Ok cands /\
    length sel = real_count best_class_config cands /\
    NoDup (map fst sel) /\
    forall i x,
      nth_error sel i = Some x ->
      real_row sample_boxes mixed_classification sample_other x mixed_detections i /\
      exists r s,
        nth_error (rows mixed_classification) (fst x) = Some r /\
        nth_error (out_scores mixed_detections) i = Some s /\
        nth_error r (Z.to_nat (snd x)) = Some s /\
        (forall v, In v r -> greater v s = false) /\
        (forall c, c < Z.to_nat (snd x) -> nth_error r c <> Some s).
Proof.
  apply (best_class_rows sample_boxes mixed_classification sample_other
                         best_class_config mixed_detections).
  - reflexivity.
  - vm_compute. reflexivity.
Defined.

(** ** What suppression leaves out of the candidates *)



(** ** Ties *)











(** Two overlapping boxes with the same score: the one with the lower
    index is kept, the other one is suppressed. *)
Example scenario_tie :
  candidate_indices sample_config sample_boxes tied_scores = Ok [(0, 0%Z); (2, 0%Z)] /\
  out_boxes tied_detections
  = [box_of_Z 0 0 10 10; box_of_Z 20 20 30 30; pad_box; pad_box].
Proof. vm_compute. repeat split. Qed.

(** ** The best score survives *)






(** ** The rows as a selection of the candidates *)

Lemma filter_detections_selected (boxes : list box) (cls : matrix) (other : list aux)
      (cfg : config) (out : detections) :
  filter_detections boxes cls other cfg = Ok out ->
  exists cands sel,
    candidate_indices cfg boxes cls = Ok cands /\
    length sel = real_count cfg cands /\
    NoDup sel /\ incl sel cands /\
    forall i x, nth_error sel i = Some x -> real_row boxes cls other x out i.
Proof.
  intros H.
  destruct (filter_detections_rows _ _ _ _ _ H)
    as (cands & scores & vals & top & Ec & _ & _ & Es & Hnan & Et & Ltop & _ & _ & _
        & Hreal & _).
  destruct (candidate_indices_distinct _ _ _ _ Ec) as [Hnd _].
  pose proof (top_k_NoDup _ _ _ _ Hnan Et) as Htop.
  assert (Forall (fun p => p < length cands) top) as Hrange.
  { apply Forall_forall. intros p Hp. destruct (In_nth_error _ _ Hp) as [i Hi].
    destruct (Hreal _ _ Hi) as (x & Hx & _). apply nth_error_Some. congruence. }
  destruct (gather_total cands top Hrange) as [sel Esel].
  pose proof (gather_Forall2 _ _ _ Esel) as F.
  exists cands, sel.
  split; [exact Ec | ]. split; [rewrite (gather_length _ _ _ Esel); exact Ltop | ].
  split; [ | split].
  - apply StronglySorted_neq_NoDup. apply StronglySorted_neq_NoDup in Htop.
    eapply StronglySorted_Forall2; [ | exact F | exact Htop].
    intros p q x y Hp Hq Hpq Heq. simpl in *. apply Hpq.
    rewrite NoDup_nth_error in Hnd. apply Hnd.
    + apply nth_error_Some. congruence.
    + congruence.
  - intros x Hx. destruct (In_nth_error _ _ Hx) as [i Hi].
    destruct (Forall2_nth_r _ _ _ F _ _ Hi) as (p & _ & Hpx).
    eapply nth_error_In; eauto.
  - intros i x Hx.
    destruct (Forall2_nth_r _ _ _ F _ _ Hx) as (p & Hp & Hpx). simpl in Hpx.
    destruct (Hreal _ _ Hp) as (x' & Hx' & Hrow).
    assert (x' = x) by congruence. subst x'. exact Hrow.
Qed.

(** X6.  No detection twice, and none lost when there is room: the real
    rows are pairwise distinct (box, label) candidates; and when the
    candidates number at most [max_detections], every candidate is the
    detection of some row. *)
Theorem filter_detections_selection (boxes : list box) (cls : matrix)
        (other : list aux) (cfg : config) (out : detections) :
  filter_detections boxes cls other cfg = Ok out ->
  exists cands sel,
    candidate_indices cfg boxes cls = Ok cands /\
    length sel = real_count cfg cands /\
    NoDup sel /\
    (forall i x, nth_error sel i = Some x ->
                 In x cands /\ real_row boxes cls other x out i) /\
    ((Z.of_nat (length cands) <= max_detections cfg)%Z ->
     forall x, In x cands -> exists i, nth_error sel i = Some x).
Proof.
  intros H.
  destruct (filter_detections_selected _ _ _ _ _ H)
    as (cands & sel & Ec & Lsel & Hnd & Hincl & Hrows).
  exists cands, sel.
  split; [exact Ec | ]. split; [exact Lsel | ]. split; [exact Hnd | ]. split.
  - intros i x Hx. split; [ | apply Hrows; exact Hx].
    apply Hincl. eapply nth_error_In; eauto.
  - intros Hfew x Hx.
    assert (incl cands sel) as Hback.
    { apply NoDup_length_incl; auto. unfold real_count in Lsel. lia. }
    apply In_nth_error. apply Hback. exact Hx.
Qed.

Lemma filter_detections_selection_witness :
  exists cands sel,
    candidate_indices sample_config sample_boxes sample_classification = Ok cands /\
    length sel = real_count sample_config cands /\
    NoDup sel /\
    (forall i x, nth_error sel i = Some x ->
                 In x cands /\
                 real_row sample_boxes sample_classification sample_other x
                          sample_detections i) /\
    ((Z.of_nat (length cands) <= max_detections sample_config)%Z ->
     forall x, In x cands -> exists i, nth_error sel i = Some x).
Proof.
  apply (filter_detections_selection sample_boxes sample_classification sample_other
                                     sample_config sample_detections).
  vm_compute. reflexivity.
Defined.

(** X7.  Nothing above the threshold, nothing reported: when no entry of
    the score matrix is strictly greater than [score_threshold] (in
    particular when the threshold is NaN) and the call returns, there is no
    candidate and every one of the [max_detections] rows is sentinel
    padding. *)
Theorem filter_detections_nothing_passes (boxes : list box) (cls : matrix)
        (other : list aux) (cfg : config) (out : detections) :
  (is_nan (score_threshold cfg) = true \/
   forall x s, lookup2 cls x = Ok s -> greater s (score_threshold cfg) = false) ->
  filter_detections boxes cls other cfg = Ok out ->
  candidate_indices cfg boxes cls = Ok [] /\
  forall i, i < Z.to_nat (max_detections cfg) -> padded_row other out i.
Proof.
  intros Hnone H.
  destruct (filter_detections_rows _ _ _ _ _ H)
    as (cands & scores & vals & top & Ec & Hok & _ & _ & _ & _ & _ & _ & _ & _
        & _ & Hpad).
  assert (cands = []) as ->.
  { destruct cands as [|x cands]; auto. exfalso.
    inversion Hok as [|? ? (s & Hs & Hg) _]; subst.
    destruct Hnone as [Hnan | Hall].
    - destruct (score_threshold cfg); discriminate.
    - rewrite (Hall _ _ Hs) in Hg. discriminate. }
  split; [exact Ec | ].
  intros i Hi. apply Hpad. unfold real_count. simpl. lia.
Qed.

Lemma filter_detections_nothing_passes_witness :
  candidate_indices (mk_config true true S754_nan 4 (nms_threshold sample_config))
                    sample_boxes sample_classification = Ok [] /\
  forall i, i < Z.to_nat 4 ->
            padded_row sample_other
              (mk_detections (repeat pad_box 4) (repeat minus_one 4) (repeat (-1)%Z 4)
                             [mk_aux 2 (repeat [minus_one; minus_one] 4)]) i.
Proof.
  apply (filter_detections_nothing_passes
           sample_boxes sample_classification sample_other
           (mk_config true true S754_nan 4 (nms_threshold sample_config))).
  - left. reflexivity.
  - vm_compute. reflexivity.
Defined.

(** ** The cap of a suppression pass *)

Lemma _filter_detections_cap (cfg : config) (boxes : list box)
      (scores : list float) (labels : list Z) (cands : list (nat * Z)) :
  nms cfg = true ->
  _filter_detections cfg boxes scores labels = Ok cands ->
  length cands <= Z.to_nat (max_detections cfg).
Proof.
  unfold _filter_detections. intros Hnms H. rewrite Hnms in H.
  set (indices0 := tf_where (map (fun s => greater s (score_threshold cfg)) scores)) in H.
  destruct (gather boxes indices0) as [fb|] eqn:E; simpl in H; [ | discriminate].
  destruct (gather scores indices0) as [fs|] eqn:E0; simpl in H; [ | discriminate].
  destruct (non_max_suppression fb fs (max_detections cfg) (nms_threshold cfg))
    as [nms_indices|] eqn:E1; simpl in H; [ | discriminate].
  destruct (gather indices0 nms_indices) as [indices|] eqn:E2; simpl in H;
    [ | discriminate].
  destruct (gather labels indices) as [labels'|] eqn:E3; simpl in H; [ | discriminate].
  injection H as <-.
  rewrite length_combine, (gather_length _ _ _ E3), Nat.min_id, (gather_length _ _ _ E2).
  destruct (non_max_suppression_spec _ _ _ _ _ E1) as (_ & _ & _ & Hcap & _). lia.
Qed.

Lemma filter_label_none (l : Z) (L : list (nat * Z)) :
  Forall (fun x => snd x <> l) L -> filter (fun x => (snd x =? l)%Z) L = [].
Proof.
  induction 1 as [|x L Hx _ IH]; simpl; auto.
  destruct (snd x =? l)%Z eqn:E; [apply Z.eqb_eq in E; contradiction | exact IH].
Qed.

Lemma per_class_cap (cfg : config) (boxes : list box) (cls : matrix) (l : Z)
      (cs : list nat) :
  forall blocks,
    nms cfg = true -> NoDup cs ->
    mapM (fun c => _filter_detections cfg boxes (column cls c)
                     (repeat (Z.of_nat c) (length (column cls c)))) cs = Ok blocks ->
    length (filter (fun x => (snd x =? l)%Z) (concat blocks))
    <= Z.to_nat (max_detections cfg).
Proof.
  induction cs as [|c cs IH]; intros blocks Hnms Hnd H; simpl in H.
  - injection H as <-. simpl. lia.
  - destruct (_filter_detections cfg boxes (column cls c)
                (repeat (Z.of_nat c) (length (column cls c)))) as [block|] eqn:E;
      simpl in H; [ | discriminate].
    destruct (mapM _ cs) as [blocks'|] eqn:E'; simpl in H; [ | discriminate].
    injection H as <-. simpl.
    inversion Hnd as [|? ? Hnotin Hnd']; subst.
    rewrite filter_app, length_app.
    pose proof (per_class_labels _ _ _ _ _ E) as Hlab.
    destruct (Z.eq_dec (Z.of_nat c) l) as [Heq | Hne].
    + rewrite (filter_label_none l (concat blocks')).
      * simpl. pose proof (filter_length_le (fun x => (snd x =? l)%Z) block).
        pose proof (_filter_detections_cap _ _ _ _ _ Hnms E). lia.
      * destruct (per_class_spec _ _ _ _ _ E') as [Hrest _].
        eapply Forall_impl; [ | exact Hrest].
        intros x (_ & c' & Hc' & Hl) Hx. simpl in *.
        assert (c' = c) by lia. subst. contradiction.
    + rewrite (filter_label_none l block).
      * simpl. apply IH; auto.
      * eapply Forall_impl; [ | exact Hlab]. simpl. intros x Hx. congruence.
Qed.

(** X8.  The cap of a pass: with suppression on, the candidate stage
    returns at most [max_detections] candidates for any one label, and at
    most [max_detections] in all when [class_specific_filter] is off. *)
Theorem candidate_indices_cap (cfg : config) (boxes : list box) (cls : matrix)
        (cands : list (nat * Z)) :
  nms cfg = true ->
  candidate_indices cfg boxes cls = Ok cands ->
  (forall l, length (filter (fun x => (snd x =? l)%Z) cands)
             <= Z.to_nat (max_detections cfg)) /\
  (class_specific_filter cfg = false ->
   length cands <= Z.to_nat (max_detections cfg)).
Proof.
  unfold candidate_indices. intros Hnms H.
  destruct (class_specific_filter cfg).
  - destruct (mapM _ (seq 0 (num_classes cls))) as [blocks|] eqn:E; simpl in H;
      [ | discriminate].
    apply concatenate_inv in H. destruct H as [-> _].
    split; [ | discriminate].
    intros l. eapply per_class_cap; [exact Hnms | apply seq_NoDup | exact E].
  - destruct (k_argmax cls) as [labels|] eqn:E; simpl in H; [ | discriminate].
    pose proof (_filter_detections_cap _ _ _ _ _ Hnms H) as Hcap.
    split; [ | intros _; exact Hcap].
    intros l. pose proof (filter_length_le (fun x => (snd x =? l)%Z) cands). lia.
Qed.

Lemma candidate_indices_cap_witness :
  (forall l, length (filter (fun x => (snd x =? l)%Z) [(0, 0%Z); (1, 1%Z); (2, 1%Z)])
             <= Z.to_nat (max_detections sample_config)) /\
  (class_specific_filter sample_config = false ->
   length [(0, 0%Z); (1, 1%Z); (2, 1%Z)] <= Z.to_nat (max_detections sample_config)).
Proof.
  apply (candidate_indices_cap sample_config sample_boxes sample_classification
                               [(0, 0%Z); (1, 1%Z); (2, 1%Z)]).
  - reflexivity.
  - vm_compute. reflexivity.
Defined.

(** * The Keras layer *)

(** ** Configuration dictionaries *)

Lemma dict_get_app (d l : Keras.dict) (k : String.string) :
  Keras.dict_get d k = None ->
  Keras.dict_get (d ++ l) k = Keras.dict_get l k.
Proof.
  induction d as [|[k' v] d IH]; simpl; auto.
  destruct (String.eqb k' k); [discriminate | exact IH].
Qed.

Lemma dict_set_absent (d : Keras.dict) (k : String.string) (v : Keras.pyval) :
  Keras.dict_get d k = None -> Keras.dict_set d k v = d ++ [(k, v)].
Proof.
  induction d as [|[k' v'] d IH]; simpl; auto.
  destruct (String.eqb k' k); [discriminate | ].
  intros H. rewrite IH by exact H. reflexivity.
Qed.

Lemma dict_remove_absent (d : Keras.dict) (k : String.string) :
  Keras.dict_get d k = None -> Keras.dict_remove d k = d.
Proof.
  unfold Keras.dict_remove.
  induction d as [|[k' v'] d IH]; simpl; auto.
  destruct (String.eqb k' k); [discriminate | ].
  intros H. simpl. rewrite IH by exact H. reflexivity.
Qed.

Lemma dict_remove_app (d l : Keras.dict) (k : String.string) :
  Keras.dict_remove (d ++ l) k = Keras.dict_remove d k ++ Keras.dict_remove l k.
Proof. unfold Keras.dict_remove. apply filter_app. Qed.

(** With a base configuration that uses none of the layer's six keys,
    [get_config] appends the six entries to it. *)
Lemma get_config_append (base : Keras.dict -> Keras.dict) (self : Keras.layer) :
  (forall k, In k Keras.own_keys ->
             Keras.dict_get (base (Keras.self_kwargs self)) k = None) ->
  Keras.get_config base self
  = base (Keras.self_kwargs self)
    ++ [(Keras.key_nms, Keras.PBool (Keras.self_nms self));
        (Keras.key_class_specific_filter,
         Keras.PBool (Keras.self_class_specific_filter self));
        (Keras.key_nms_threshold, Keras.PFloat (Keras.self_nms_threshold self));
        (Keras.key_score_threshold, Keras.PFloat (Keras.self_score_threshold self));
        (Keras.key_max_detections, Keras.PInt (Keras.self_max_detections self));
        (Keras.key_parallel_iterations,
         Keras.PInt (Keras.self_parallel_iterations self))].
Proof.
  intros H. unfold Keras.get_config, Keras.dict_update. simpl.
  set (cfg := base (Keras.self_kwargs self)) in *.
  assert (forall k, In k Keras.own_keys -> Keras.dict_get cfg k = None) as H' by exact H.
  clearbody cfg.
  rewrite (dict_set_absent cfg Keras.key_nms) by (apply H'; simpl; auto).
  rewrite (dict_set_absent (cfg ++ _) Keras.key_class_specific_filter)
    by (rewrite dict_get_app by (apply H'; simpl; auto 10); reflexivity).
  rewrite <- app_assoc.
  rewrite (dict_set_absent (cfg ++ _) Keras.key_nms_threshold)
    by (rewrite dict_get_app by (apply H'; simpl; auto 10); reflexivity).
  rewrite <- app_assoc.
  rewrite (dict_set_absent (cfg ++ _) Keras.key_score_threshold)
    by (rewrite dict_get_app by (apply H'; simpl; auto 10); reflexivity).
  rewrite <- app_assoc.
  rewrite (dict_set_absent (cfg ++ _) Keras.key_max_detections)
    by (rewrite dict_get_app by (apply H'; simpl; auto 10); reflexivity).
  rewrite <- app_assoc.
  rewrite (dict_set_absent (cfg ++ _) Keras.key_parallel_iterations)
    by (rewrite dict_get_app by (apply H'; simpl; auto 10); reflexivity).
  rewrite <- app_assoc. reflexivity.
Qed.

(** X9.  Configuration round trip: when the base class's configuration
    uses none of the layer's six keys, building a layer from
    [get_config] gives back the six attributes, with the base
    configuration as the keyword arguments of the base class; and when the
    base class reproduces its configuration from it, the rebuilt layer has
    the same [get_config]. *)
Theorem get_config_round_trip (base : Keras.dict -> Keras.dict) (self : Keras.layer) :
  (forall k, In k Keras.own_keys ->
             Keras.dict_get (base (Keras.self_kwargs self)) k = None) ->
  Keras.__init__ (Keras.get_config base self)
  = Some (Keras.mk_layer
            (Keras.self_nms self) (Keras.self_class_specific_filter self)
            (Keras.self_nms_threshold self) (Keras.self_score_threshold self)
            (Keras.self_max_detections self) (Keras.self_parallel_iterations self)
            (base (Keras.self_kwargs self))) /\
  (base (base (Keras.self_kwargs self)) = base (Keras.self_kwargs self) ->
   forall rebuilt,
     Keras.__init__ (Keras.get_config base self) = Some rebuilt ->
     Keras.get_config base rebuilt = Keras.get_config base self).
Proof.
  intros H.
  assert (Keras.__init__ (Keras.get_config base self)
          = Some (Keras.mk_layer
                    (Keras.self_nms self) (Keras.self_class_specific_filter self)
                    (Keras.self_nms_threshold self) (Keras.self_score_threshold self)
                    (Keras.self_max_detections self)
                    (Keras.self_parallel_iterations self)
                    (base (Keras.self_kwargs self)))) as Hinit.
  { rewrite (get_config_append base self H).
    set (cfg := base (Keras.self_kwargs self)) in *.
    assert (forall k, In k Keras.own_keys -> Keras.dict_get cfg k = None) as H'
        by exact H.
    clearbody cfg.
    unfold Keras.__init__, Keras.keyword.
    rewrite !dict_get_app by (apply H'; simpl; auto 10).
    simpl. f_equal. f_equal.
    rewrite !dict_remove_app.
    rewrite (dict_remove_absent cfg Keras.key_nms) by (apply H'; simpl; auto 10).
    rewrite (dict_remove_absent cfg Keras.key_class_specific_filter)
      by (apply H'; simpl; auto 10).
    rewrite (dict_remove_absent cfg Keras.key_nms_threshold)
      by (apply H'; simpl; auto 10).
    rewrite (dict_remove_absent cfg Keras.key_score_threshold)
      by (apply H'; simpl; auto 10).
    rewrite (dict_remove_absent cfg Keras.key_max_detections)
      by (apply H'; simpl; auto 10).
    rewrite (dict_remove_absent cfg Keras.key_parallel_iterations)
      by (apply H'; simpl; auto 10).
    simpl. apply app_nil_r. }
  split; [exact Hinit | ].
  intros Hidem rebuilt Hr. rewrite Hinit in Hr. injection Hr as <-.
  unfold Keras.get_config. simpl. rewrite Hidem. reflexivity.
Qed.

Lemma get_config_round_trip_witness :
  Keras.__init__ (Keras.get_config (fun d => d) Keras.sample_layer)
  = Some (Keras.mk_layer
            (Keras.self_nms Keras.sample_layer)
            (Keras.self_class_specific_filter Keras.sample_layer)
            (Keras.self_nms_threshold Keras.sample_layer)
            (Keras.self_score_threshold Keras.sample_layer)
            (Keras.self_max_detections Keras.sample_layer)
            (Keras.self_parallel_iterations Keras.sample_layer)
            (Keras.self_kwargs Keras.sample_layer)) /\
  (Keras.self_kwargs Keras.sample_layer = Keras.self_kwargs Keras.sample_layer ->
   forall rebuilt,
     Keras.__init__ (Keras.get_config (fun d => d) Keras.sample_layer) = Some rebuilt ->
     Keras.get_config (fun d => d) rebuilt
     = Keras.get_config (fun d => d) Keras.sample_layer).
Proof.
  apply (get_config_round_trip (fun d => d) Keras.sample_layer).
  intros k Hk. simpl in Hk.
  repeat (destruct Hk as [<- | Hk]; [reflexivity | ]). contradiction.
Defined.

(** ** Static shapes *)

Lemma omap_map {A B : Type} (f : A -> option B) (g : A -> B) (l : list A) :
  (forall a, In a l -> f a = Some (g a)) -> Keras.omap f l = Some (map g l).
Proof.
  induction l as [|a l IH]; intros H; simpl; auto.
  rewrite (H a (or_introl eq_refl)). simpl.
  rewrite IH by (intros; apply H; simpl; auto). reflexivity.
Qed.

Lemma omap_None {A B : Type} (f : A -> option B) (l : list A) :
  Exists (fun a => f a = None) l -> Keras.omap f l = None.
Proof.
  induction 1 as [a l Ha | a l _ IH]; simpl.
  - rewrite Ha. reflexivity.
  - rewrite IH. destruct (f a); reflexivity.
Qed.

Lemma omap_seq_nth {A B : Type} (g : A -> option B) (rest : list A) :
  forall pre,
    Keras.omap (fun i => Keras.obind (nth_error (pre ++ rest) i) g)
               (seq (length pre) (length rest))
    = Keras.omap g rest.
Proof.
  induction rest as [|x rest IH]; intros pre; simpl; auto.
  rewrite nth_error_app2, Nat.sub_diag by lia. simpl.
  specialize (IH (pre ++ [x])).
  rewrite <- app_assoc, length_app in IH. simpl in IH.
  rewrite Nat.add_1_r in IH. rewrite IH. reflexivity.
Qed.

Lemma compute_output_shape_eq (self : Keras.layer) (s0 s1 : Keras.shape)
      (rest : list Keras.shape) :
  Keras.compute_output_shape self (s0 :: s1 :: rest)
  = Keras.obind (nth_error s0 0) (fun b0 =>
    Keras.obind (nth_error s1 0) (fun b1 =>
    Keras.obind (Keras.omap (fun si =>
                   Keras.obind (nth_error si 0) (fun bi =>
                   Some (bi :: Some (Keras.self_max_detections self) :: skipn 2 si)))
                 rest) (fun r =>
    Some ([b0; Some (Keras.self_max_detections self); Some 4%Z]
          :: [b1; Some (Keras.self_max_detections self)]
          :: [b1; Some (Keras.self_max_detections self)]
          :: r)))).
Proof.
  unfold Keras.compute_output_shape.
  destruct s0 as [|b0 t0]; [reflexivity | ].
  destruct s1 as [|b1 t1]; [reflexivity | ].
  set (om := Keras.omap _ (seq 2 _)).
  cbn [nth_error Keras.obind]. subst om.
  change (length ((b0 :: t0) :: (b1 :: t1) :: rest) - 2) with (length rest - 0).
  rewrite Nat.sub_0_r.
  change ((b0 :: t0) :: (b1 :: t1) :: rest) with ([b0 :: t0; b1 :: t1] ++ rest).
  change (seq 2) with (seq (length [b0 :: t0; b1 :: t1])).
  rewrite omap_seq_nth. reflexivity.
Qed.

(** X10.  [compute_output_shape] raises exactly when it is given fewer
    than two shapes or a shape of rank zero; otherwise it returns one
    shape more than it was given (as many as [compute_mask] returns
    masks): boxes [(batch, max_detections, 4)], scores and labels
    [(batch, max_detections)] with the batch dimension of the score input,
    and for every auxiliary input its own batch dimension, then
    [max_detections], then its dimensions from the third on. *)
Theorem compute_output_shape_spec (self : Keras.layer) (input_shape : list Keras.shape) :
  (Keras.compute_output_shape self input_shape = None <->
   length input_shape < 2 \/ Exists (fun sh => sh = []) input_shape) /\
  forall shapes,
    Keras.compute_output_shape self input_shape = Some shapes ->
    length shapes = length input_shape + 1 /\
    length shapes = length (Keras.compute_mask input_shape) /\
    exists b0 s0 b1 s1 rest,
      input_shape = (b0 :: s0) :: (b1 :: s1) :: rest /\
      Forall2 (fun si so => exists bi ti,
                   si = bi :: ti /\
                   so = bi :: Some (Keras.self_max_detections self) :: skipn 2 si)
              rest (skipn 3 shapes) /\
      firstn 3 shapes = [[b0; Some (Keras.self_max_detections self); Some 4%Z];
                         [b1; Some (Keras.self_max_detections self)];
                         [b1; Some (Keras.self_max_detections self)]].
Proof.
  set (f := fun si : Keras.shape =>
              Keras.obind (nth_error si 0) (fun bi =>
                Some (bi :: Some (Keras.self_max_detections self) :: skipn 2 si))).
  assert (forall rest : list Keras.shape,
             (Keras.omap f rest = None <-> Exists (fun sh => sh = []) rest) /\
             forall r, Keras.omap f rest = Some r ->
                       Forall2 (fun si so => exists bi ti,
                                    si = bi :: ti /\
                                    so = bi :: Some (Keras.self_max_detections self)
                                            :: skipn 2 si) rest r) as Hrest.
  { induction rest as [|x rest [IH1 IH2]]; simpl.
    - split.
      + split; [discriminate | intros H; inversion H].
      + intros r Hr. injection Hr as <-. constructor.
    - destruct x as [|bi ti]; simpl.
      + split; [split; auto | discriminate].
      + destruct (Keras.omap f rest) as [r'|] eqn:E; simpl.
        * split.
          -- split; [discriminate | ].
             intros H. inversion H as [? ? Hx | ? ? Hx]; subst; [discriminate | ].
             apply IH1 in Hx. discriminate.
          -- intros r Hr. injection Hr as <-. constructor; eauto.
        * split; [ | discriminate].
          split; auto. intros _. apply Exists_cons_tl. apply IH1. reflexivity. }
  destruct input_shape as [|s0 [|s1 rest]].
  - split; [ | discriminate]. split; [simpl; lia | reflexivity].
  - split.
    + split; [simpl; lia | ].
      intros _. unfold Keras.compute_output_shape.
      destruct s0; reflexivity.
    + intros shapes H. unfold Keras.compute_output_shape in H.
      destruct s0; discriminate.
  - rewrite compute_output_shape_eq. fold f.
    destruct (Hrest rest) as [Hn Hs].
    destruct s0 as [|b0 t0]; cbn [nth_error Keras.obind].
    { split; [ | discriminate]. split; auto. }
    destruct s1 as [|b1 t1]; cbn [nth_error Keras.obind].
    { split; [ | discriminate]. split; auto. }
    destruct (Keras.omap f rest) as [r|] eqn:E; cbn [Keras.obind].
    + split.
      * split; [discriminate | ].
        intros [H | H]; [simpl in H; lia | ].
        inversion H as [? ? Hx | ? ? Hx]; subst; [discriminate | ].
        inversion Hx as [? ? Hy | ? ? Hy]; subst; [discriminate | ].
        apply Hn in Hy. discriminate.
      * intros shapes H. injection H as <-.
        pose proof (Forall2_len _ _ _ (Hs r eq_refl)) as L.
        split; [simpl; lia | ].
        split; [unfold Keras.compute_mask; rewrite repeat_length; simpl; lia | ].
        exists b0, t0, b1, t1, rest. split; [reflexivity | ]. split; [ | reflexivity].
        simpl. apply Hs. reflexivity.
    + split; [ | discriminate].
      split; auto. intros _. right.
      apply Exists_cons_tl. apply Exists_cons_tl. apply Hn. reflexivity.
Qed.

Lemma compute_output_shape_spec_witness :
  length [[Some 2%Z; Some 4%Z; Some 4%Z]; [Some 2%Z; Some 4%Z]; [Some 2%Z; Some 4%Z];
          [Some 2%Z; Some 4%Z; Some 2%Z]]
  = length [[Some 2%Z; None; Some 4%Z]; [Some 2%Z; None; Some 2%Z];
            [Some 2%Z; None; Some 2%Z]] + 1.
Proof.
  apply (proj2 (compute_output_shape_spec
                  Keras.sample_layer
                  [[Some 2%Z; None; Some 4%Z]; [Some 2%Z; None; Some 2%Z];
                   [Some 2%Z; None; Some 2%Z]])
               [[Some 2%Z; Some 4%Z; Some 4%Z]; [Some 2%Z; Some 4%Z];
                [Some 2%Z; Some 4%Z]; [Some 2%Z; Some 4%Z; Some 2%Z]]).
  reflexivity.
Defined.

(** ** The batch *)

Lemma select_top_k_aux_width (cfg : config) (boxes : list box) (cls : matrix)
      (other : list aux) (cands : list (nat * Z)) (out : detections) :
  select_top_k cfg boxes cls other cands = Ok out ->
  Forall2 (fun o o' => aux_width o' = aux_width o) other (out_other out).
Proof.
  unfold select_top_k. intros H.
  destruct (gather_nd2 cls cands) as [scores|] eqn:Es; simpl in H; [ | discriminate].
  destruct (k_minimum (max_detections cfg) (Z.of_nat (length scores))) as [k|] eqn:Ek;
    simpl in H; [ | discriminate].
  destruct (top_k scores k) as [[vals top]|] eqn:Et; simpl in H; [ | discriminate].
  destruct (gather (map fst cands) top) as [idx|] eqn:Ei; simpl in H; [ | discriminate].
  destruct (gather boxes idx) as [bxs|] eqn:Eb; simpl in H; [ | discriminate].
  destruct (gather (map snd cands) top) as [lbs|] eqn:El; simpl in H; [ | discriminate].
  destruct (mapM (fun o => gather_aux o idx) other) as [oth|] eqn:Eo; simpl in H;
    [ | discriminate].
  set (ps := Z.max 0 (max_detections cfg - Z.of_nat (length vals))) in *.
  destruct (set_shape (pad bxs ps pad_box) (max_detections cfg)) as [b'|] eqn:S1;
    simpl in H; [ | discriminate].
  destruct (set_shape (pad vals ps minus_one) (max_detections cfg)) as [s'|] eqn:S2;
    simpl in H; [ | discriminate].
  destruct (set_shape (map cast_int32 (pad lbs ps (-1)%Z)) (max_detections cfg))
    as [l'|] eqn:S3; simpl in H; [ | discriminate].
  destruct (mapM (fun o => set_shape_aux o (max_detections cfg))
                 (map (fun o => pad_aux o ps) oth)) as [o'|] eqn:S4; simpl in H;
    [ | discriminate].
  injection H as <-. simpl.
  apply set_shape_aux_all in S4. destruct S4 as [-> _].
  apply Forall2_map_r.
  eapply Forall2_impl; [ | exact (mapM_Forall2 _ _ _ Eo)].
  intros o o1 Hg. simpl in Hg. unfold gather_aux in Hg.
  destruct (gather (aux_rows o) idx) as [rs|]; simpl in Hg; [ | discriminate].
  injection Hg as <-. reflexivity.
Qed.

Lemma filter_detections_widths (boxes : list box) (cls : matrix) (other : list aux)
      (cfg : config) (out : detections) :
  filter_detections boxes cls other cfg = Ok out ->
  (0 <= max_detections cfg)%Z /\
  width_is other out (Z.to_nat (max_detections cfg)) /\
  Forall2 (fun o o' => aux_width o' = aux_width o) other (out_other out).
Proof.
  intros H. destruct (filter_detections_inv _ _ _ _ _ H) as (cands & _ & Es).
  destruct (select_top_k_spec _ _ _ _ _ _ Es)
    as (scores & vals & top & _ & _ & _ & Hmd & Hw & _).
  split; [lia | ]. split; [exact Hw | ].
  eapply select_top_k_aux_width; eauto.
Qed.

Lemma nth_error_map_seq {A : Type} (f : nat -> A) (n i : nat) :
  i < n -> nth_error (map f (seq 0 n)) i = Some (f i).
Proof.
  intros Hi. rewrite nth_error_map, nth_error_seq.
  destruct (Nat.ltb_spec i n); [reflexivity | lia].
Qed.

Lemma unstack_inv (boxes : list (list box)) (cls : Keras.batch_matrix)
      (other : list Keras.batch_aux) (items : list (list box * matrix * list aux)) :
  Keras.unstack boxes cls other = Some items ->
  length (Keras.bm_items cls) = length boxes /\
  Forall (fun o => length (Keras.ba_items o) = length boxes) other /\
  items = map (fun i =>
                 (nth i boxes [],
                  mk_matrix (Keras.bm_classes cls) (nth i (Keras.bm_items cls) []),
                  map (fun o => mk_aux (Keras.ba_width o) (nth i (Keras.ba_items o) []))
                      other))
              (seq 0 (length boxes)).
Proof.
  unfold Keras.unstack. intros H.
  destruct ((length (Keras.bm_items cls) =? length boxes)
            && forallb (fun o => length (Keras.ba_items o) =? length boxes) other)
           eqn:E; [ | discriminate].
  injection H as <-. apply andb_true_iff in E. destruct E as [E1 E2].
  apply Nat.eqb_eq in E1. rewrite forallb_forall in E2.
  split; [exact E1 | ]. split; [ | reflexivity].
  apply Forall_forall. intros o Ho. apply Nat.eqb_eq. apply E2. exact Ho.
Qed.

Lemma call_inv (self : Keras.layer) (boxes : list (list box))
      (cls : Keras.batch_matrix) (other : list Keras.batch_aux)
      (out : Keras.batch_detections) :
  Keras.call self boxes cls other = inr out ->
  exists items outs,
    Keras.unstack boxes cls other = Some items /\
    mapM (fun item =>
            filter_detections (fst (fst item)) (snd (fst item)) (snd item)
                              (Keras.layer_config self)) items = Ok outs /\
    out = Keras.stack other outs.
Proof.
  unfold Keras.call. intros H.
  destruct (Keras.unstack boxes cls other) as [items|]; [ | discriminate].
  destruct (mapM _ items) as [outs|] eqn:E; [ | discriminate].
  injection H as <-. eauto.
Qed.

(** X11.  The batch, item by item: when [call] returns, each output has
    one entry per batch item, and entry [i] of every output, auxiliary
    outputs included, is what [filter_detections] returns on item [i] of
    the inputs alone under the layer's configuration. *)
Theorem call_items (self : Keras.layer) (boxes : list (list box))
        (cls : Keras.batch_matrix) (other : list Keras.batch_aux)
        (out : Keras.batch_detections) :
  Keras.call self boxes cls other = inr out ->
  length (Keras.b_boxes out) = length boxes /\
  length (Keras.b_scores out) = length boxes /\
  length (Keras.b_labels out) = length boxes /\
  forall i, i < length boxes ->
    exists o,
      filter_detections
        (nth i boxes [])
        (mk_matrix (Keras.bm_classes cls) (nth i (Keras.bm_items cls) []))
        (map (fun a => mk_aux (Keras.ba_width a) (nth i (Keras.ba_items a) [])) other)
        (Keras.layer_config self) = Ok o /\
      nth_error (Keras.b_boxes out) i = Some (out_boxes o) /\
      nth_error (Keras.b_scores out) i = Some (out_scores o) /\
      nth_error (Keras.b_labels out) i = Some (out_labels o) /\
      Forall2 (fun bo oo => Keras.ba_width bo = aux_width oo /\
                            nth_error (Keras.ba_items bo) i = Some (aux_rows oo))
              (Keras.b_other out) (out_other o).
Proof.
  intros H. destruct (call_inv _ _ _ _ _ H) as (items & outs & Eu & Em & ->).
  destruct (unstack_inv _ _ _ _ Eu) as (_ & _ & ->).
  pose proof (mapM_length _ _ _ Em) as L. rewrite length_map, length_seq in L.
  unfold Keras.stack. simpl. rewrite !length_map.
  split; [exact L | ]. split; [exact L | ]. split; [exact L | ].
  intros i Hi.
  destruct (Forall2_nth_l _ _ _ (mapM_Forall2 _ _ _ Em) i _
              (nth_error_map_seq _ _ _ Hi)) as (o & Ho & Hfd).
  simpl in Hfd. exists o. split; [exact Hfd | ].
  rewrite !nth_error_map, Ho. simpl.
  split; [reflexivity | ]. split; [reflexivity | ]. split; [reflexivity | ].
  destruct (filter_detections_widths _ _ _ _ _ Hfd) as (_ & Hw & Haux).
  destruct Hw as (_ & _ & _ & Hlen & _). rewrite length_map in Hlen.
  assert (forall k oo, nth_error (out_other o) k = Some oo ->
                       aux_width oo
                       = Keras.ba_width (nth k other (Keras.mk_batch_aux 0 []))) as Hwid.
  { intros k oo Hk.
    destruct (Forall2_nth_r _ _ _ Haux _ _ Hk) as (a & Ha & Hwa). simpl in Hwa.
    apply nth_error_map_Some in Ha. destruct Ha as (bo & Hbo & <-). simpl in Hwa.
    rewrite (nth_error_nth _ _ _ Hbo). exact Hwa. }
  assert (forall n a,
             a + n = length (out_other o) ->
             Forall2 (fun bo x => Keras.ba_width bo = aux_width x /\
                                  nth_error (Keras.ba_items bo) i = Some (aux_rows x))
                     (map (fun k =>
                             Keras.mk_batch_aux
                               (Keras.ba_width (nth k other (Keras.mk_batch_aux 0 [])))
                               (map (fun out => aux_rows (nth k (out_other out)
                                                              (mk_aux 0 []))) outs))
                          (seq a n))
                     (skipn a (out_other o))) as Hgen.
  { induction n as [|n IH]; intros a Ha.
    - simpl. rewrite skipn_all2 by lia. constructor.
    - destruct (nth_error (out_other o) a) as [x|] eqn:Ex;
        [ | apply nth_error_None in Ex; lia].
      assert (skipn a (out_other o) = x :: skipn (S a) (out_other o)) as ->.
      { revert Ex. generalize (out_other o) as oo. clear.
        intros oo. revert a. induction oo as [|y oo IHo]; intros a Ex.
        - destruct a; discriminate.
        - destruct a as [|a]; simpl in *.
          + injection Ex as ->. reflexivity.
          + apply IHo. exact Ex. }
      simpl. constructor.
      + simpl. split; [symmetry; apply Hwid; exact Ex | ].
        rewrite nth_error_map, Ho. simpl. f_equal. f_equal.
        apply nth_error_nth. exact Ex.
      + apply IH. lia. }
  specialize (Hgen (length other) 0). simpl in Hgen. apply Hgen. lia.
Qed.

Lemma call_items_witness :
  length (Keras.b_boxes Keras.sample_batch_detections) = length Keras.sample_batch_boxes /\
  length (Keras.b_scores Keras.sample_batch_detections) = length Keras.sample_batch_boxes /\
  length (Keras.b_labels Keras.sample_batch_detections) = length Keras.sample_batch_boxes /\
  forall i, i < length Keras.sample_batch_boxes ->
    exists o,
      filter_detections
        (nth i Keras.sample_batch_boxes [])
        (mk_matrix (Keras.bm_classes Keras.sample_batch_scores)
                   (nth i (Keras.bm_items Keras.sample_batch_scores) []))
        (map (fun a => mk_aux (Keras.ba_width a) (nth i (Keras.ba_items a) []))
             Keras.sample_batch_other)
        (Keras.layer_config Keras.sample_layer) = Ok o /\
      nth_error (Keras.b_boxes Keras.sample_batch_detections) i = Some (out_boxes o) /\
      nth_error (Keras.b_scores Keras.sample_batch_detections) i = Some (out_scores o) /\
      nth_error (Keras.b_labels Keras.sample_batch_detections) i = Some (out_labels o) /\
      Forall2 (fun bo oo => Keras.ba_width bo = aux_width oo /\
                            nth_error (Keras.ba_items bo) i = Some (aux_rows oo))
              (Keras.b_other Keras.sample_batch_detections) (out_other o).
Proof.
  apply (call_items Keras.sample_layer Keras.sample_batch_boxes
                    Keras.sample_batch_scores Keras.sample_batch_other
                    Keras.sample_batch_detections).
  vm_compute. reflexivity.
Defined.

Lemma unstack_None (boxes : list (list box)) (cls : Keras.batch_matrix)
      (other : list Keras.batch_aux) :
  Keras.unstack boxes cls other = None <->
  ~ (length (Keras.bm_items cls) = length boxes /\
     Forall (fun o => length (Keras.ba_items o) = length boxes) other).
Proof.
  unfold Keras.unstack.
  destruct ((length (Keras.bm_items cls) =? length boxes)
            && forallb (fun o => length (Keras.ba_items o) =? length boxes) other)
           eqn:E.
  - apply andb_true_iff in E. destruct E as [E1 E2].
    apply Nat.eqb_eq in E1. rewrite forallb_forall in E2.
    split; [discriminate | ].
    intros H. exfalso. apply H. split; auto.
    apply Forall_forall. intros o Ho. apply Nat.eqb_eq. auto.
  - split; auto. intros _ [H1 H2].
    apply andb_false_iff in E. destruct E as [E | E].
    + apply Nat.eqb_neq in E. contradiction.
    + assert (forallb (fun o => length (Keras.ba_items o) =? length boxes) other = true)
        as X; [ | congruence].
      apply forallb_forall. intros o Ho. apply Nat.eqb_eq.
      rewrite Forall_forall in H2. auto.
Qed.

Lemma mapM_Err {A B : Type} (f : A -> result B) (l : list A) (e : tf_error) :
  mapM f l = Err e -> exists i a, nth_error l i = Some a /\ f a = Err e.
Proof.
  induction l as [|a l IH]; simpl; [discriminate | ].
  destruct (f a) as [b|e'] eqn:E; simpl.
  - destruct (mapM f l) as [bs|e''] eqn:E'; simpl; [discriminate | ].
    intros H. injection H as ->.
    destruct (IH eq_refl) as (i & a' & Hi & Ha). exists (S i), a'. auto.
  - intros H. injection H as ->. exists 0, a. auto.
Qed.

(** X12.  Errors of the batch: [call] fails on the shape of its inputs
    exactly when the score tensor or an auxiliary tensor has another
    batch size than the boxes; it fails with an item's error only if
    [filter_detections] raises that error on some item; and it returns
    exactly when the batch sizes agree and [filter_detections] returns on
    every item. *)
Theorem call_errors (self : Keras.layer) (boxes : list (list box))
        (cls : Keras.batch_matrix) (other : list Keras.batch_aux) :
  let item i :=
    filter_detections
      (nth i boxes [])
      (mk_matrix (Keras.bm_classes cls) (nth i (Keras.bm_items cls) []))
      (map (fun a => mk_aux (Keras.ba_width a) (nth i (Keras.ba_items a) [])) other)
      (Keras.layer_config self) in
  let agree :=
    length (Keras.bm_items cls) = length boxes /\
    Forall (fun o => length (Keras.ba_items o) = length boxes) other in
  (Keras.call self boxes cls other = inl Keras.ElemsMismatch <-> ~ agree) /\
  (forall e, Keras.call self boxes cls other = inl (Keras.ItemFailed e) ->
             exists i, i < length boxes /\ item i = Err e) /\
  ((exists out, Keras.call self boxes cls other = inr out) <->
   agree /\ forall i, i < length boxes -> exists o, item i = Ok o).
Proof.
  intros item agree.
  pose proof (unstack_None boxes cls other) as Hnone. fold agree in Hnone.
  unfold Keras.call.
  destruct (Keras.unstack boxes cls other) as [items|] eqn:Eu.
  - destruct (unstack_inv _ _ _ _ Eu) as (H1 & H2 & Hitems).
    assert (agree) as Hagree by (split; assumption).
    assert (forall i it, nth_error items i = Some it ->
                         i < length boxes /\
                         filter_detections (fst (fst it)) (snd (fst it)) (snd it)
                                           (Keras.layer_config self) = item i) as Hit.
    { intros i it Hi. rewrite Hitems in Hi.
      assert (i < length boxes) as Hlt.
      { assert (i < length (map (fun i0 =>
                  (nth i0 boxes [],
                   mk_matrix (Keras.bm_classes cls) (nth i0 (Keras.bm_items cls) []),
                   map (fun o => mk_aux (Keras.ba_width o)
                                        (nth i0 (Keras.ba_items o) [])) other))
                  (seq 0 (length boxes)))) as L
            by (apply nth_error_Some; congruence).
        rewrite length_map, length_seq in L. exact L. }
      rewrite (nth_error_map_seq _ _ _ Hlt) in Hi. injection Hi as <-.
      split; [exact Hlt | reflexivity]. }
    destruct (mapM _ items) as [outs|e] eqn:Em.
    + split; [split; [discriminate | intros H; contradiction] | ].
      split; [discriminate | ].
      split; [intros _ | eauto].
      split; [exact Hagree | ].
      intros i Hi.
      assert (nth_error items i
              = Some (nth i boxes [],
                      mk_matrix (Keras.bm_classes cls) (nth i (Keras.bm_items cls) []),
                      map (fun o => mk_aux (Keras.ba_width o)
                                           (nth i (Keras.ba_items o) [])) other)) as Hi'
          by (rewrite Hitems, nth_error_map, nth_error_seq;
              destruct (Nat.ltb_spec i (length boxes)); [reflexivity | lia]).
      destruct (Forall2_nth_l _ _ _ (mapM_Forall2 _ _ _ Em) _ _ Hi') as (o & _ & Ho).
      exists o. exact Ho.
    + split; [split; [discriminate | intros H; contradiction] | ].
      split.
      * intros e' He. injection He as <-.
        destruct (mapM_Err _ _ _ Em) as (i & it & Hi & Hf).
        destruct (Hit _ _ Hi) as [Hlt Heq]. exists i. split; auto. congruence.
      * split; [intros [out Hout]; discriminate | ].
        intros [_ Hall]. exfalso.
        destruct (mapM_Err _ _ _ Em) as (i & it & Hi & Hf).
        destruct (Hit _ _ Hi) as [Hlt Heq].
        destruct (Hall i Hlt) as [o Ho]. congruence.
  - assert (~ agree) as Hn by (apply Hnone; reflexivity).
    split; [split; auto | ].
    split; [discriminate | ].
    split; [intros [out Hout]; discriminate | ].
    intros [Ha _]. contradiction.
Qed.

Lemma call_errors_witness :
  Keras.call Keras.sample_layer Keras.sample_batch_boxes (Keras.mk_batch_matrix 2 []) []
  = inl Keras.ElemsMismatch.
Proof.
  apply (proj2 (proj1 (call_errors Keras.sample_layer Keras.sample_batch_boxes
                                   (Keras.mk_batch_matrix 2 []) []))).
  simpl. intros [H _]. discriminate.
Defined.

Lemma map_nth_seq {A B : Type} (h : A -> B) (l : list A) (d : A) :
  map (fun k => h (nth k l d)) (seq 0 (length l)) = map h l.
Proof.
  induction l as [|a l IH]; simpl; auto.
  f_equal. rewrite <- seq_shift, map_map. exact IH.
Qed.

(** X13.  Declared and actual shapes agree: when [call] returns on a
    batch of [B] items, every output has [B] entries of [max_detections]
    rows each, an auxiliary output keeping the width of its input, and
    these are the shapes [compute_output_shape] computes from input
    shapes with batch dimension [B] (whatever the number of boxes and of
    classes they declare); [compute_mask] returns one mask per output. *)
Theorem call_shapes (self : Keras.layer) (boxes : list (list box))
        (cls : Keras.batch_matrix) (other : list Keras.batch_aux)
        (out : Keras.batch_detections) :
  Keras.call self boxes cls other = inr out ->
  let B := Some (Z.of_nat (length boxes)) in
  let md := Keras.self_max_detections self in
  (forall n c,
      Keras.compute_output_shape self
        ([B; n; Some 4%Z] :: [B; n; c]
         :: map (fun o => [B; n; Some (Z.of_nat (Keras.ba_width o))]) other)
      = Some ([B; Some md; Some 4%Z] :: [B; Some md] :: [B; Some md]
              :: map (fun o' => [B; Some md; Some (Z.of_nat (Keras.ba_width o'))])
                     (Keras.b_other out))) /\
  length (Keras.b_boxes out) = length boxes /\
  Forall (fun it => Z.of_nat (length it) = md) (Keras.b_boxes out) /\
  length (Keras.b_scores out) = length boxes /\
  Forall (fun it => Z.of_nat (length it) = md) (Keras.b_scores out) /\
  length (Keras.b_labels out) = length boxes /\
  Forall (fun it => Z.of_nat (length it) = md) (Keras.b_labels out) /\
  Forall (fun o' => length (Keras.ba_items o') = length boxes /\
                    Forall (fun it => Z.of_nat (length it) = md) (Keras.ba_items o'))
         (Keras.b_other out) /\
  forall (A : Type) (inputs : list A),
    length inputs = 2 + length other ->
    length (Keras.compute_mask inputs) = 3 + length (Keras.b_other out).
Proof.
  intros H B md.
  destruct (call_inv _ _ _ _ _ H) as (items & outs & Eu & Em & ->).
  destruct (unstack_inv _ _ _ _ Eu) as (_ & _ & Hitems).
  pose proof (mapM_length _ _ _ Em) as L.
  rewrite Hitems, length_map, length_seq in L.
  assert (forall o, In o outs ->
                    Z.of_nat (length (out_boxes o)) = md /\
                    Z.of_nat (length (out_scores o)) = md /\
                    Z.of_nat (length (out_labels o)) = md /\
                    length (out_other o) = length other /\
                    Forall (fun o' => Z.of_nat (length (aux_rows o')) = md)
                           (out_other o)) as Houts.
  { intros o Ho. destruct (In_nth_error _ _ Ho) as [i Hi].
    destruct (Forall2_nth_r _ _ _ (mapM_Forall2 _ _ _ Em) _ _ Hi) as (it & Hit & Hfd).
    rewrite Hitems in Hit. apply nth_error_map_Some in Hit.
    destruct Hit as (k & _ & <-). simpl in Hfd.
    destruct (filter_detections_widths _ _ _ _ _ Hfd) as (Hmd & Hw & _).
    destruct Hw as (H1 & H2 & H3 & H4 & H5).
    rewrite length_map in H4.
    change (max_detections (Keras.layer_config self)) with md in Hmd, H1, H2, H3, H5.
    split; [lia | ]. split; [lia | ]. split; [lia | ]. split; [exact H4 | ].
    eapply Forall_impl; [ | exact H5]. simpl. intros o' Ho'. lia. }
  unfold Keras.stack. simpl.
  split; [ | split; [ | split; [ | split; [ | split; [ | split; [ | split; [ | split]]]]]]].
  - intros n c. rewrite compute_output_shape_eq. simpl.
    rewrite (omap_map _ (fun si => hd None si :: Some md :: skipn 2 si)).
    + simpl. rewrite !map_map. simpl.
      rewrite (map_nth_seq
                 (fun o => [B; Some md; Some (Z.of_nat (Keras.ba_width o))])
                 other (Keras.mk_batch_aux 0 [])).
      reflexivity.
    + intros a Ha. apply in_map_iff in Ha. destruct Ha as (o & <- & _). reflexivity.
  - rewrite length_map. exact L.
  - apply Forall_map. apply Forall_forall. intros o Ho. apply Houts. exact Ho.
  - rewrite length_map. exact L.
  - apply Forall_map. apply Forall_forall. intros o Ho. apply Houts. exact Ho.
  - rewrite length_map. exact L.
  - apply Forall_map. apply Forall_forall. intros o Ho. apply Houts. exact Ho.
  - apply Forall_map. apply Forall_forall. intros k Hk. simpl.
    apply in_seq in Hk. rewrite length_map. split; [exact L | ].
    apply Forall_map. apply Forall_forall. intros o Ho.
    destruct (Houts o Ho) as (_ & _ & _ & H4 & H5).
    rewrite Forall_forall in H5. apply H5. apply nth_In. lia.
  - intros A inputs Hin. unfold Keras.compute_mask.
    rewrite repeat_length, length_map, length_seq. lia.
Qed.

Lemma call_shapes_witness :
  length (Keras.b_boxes Keras.sample_batch_detections) = length Keras.sample_batch_boxes.
Proof.
  apply (call_shapes Keras.sample_layer Keras.sample_batch_boxes
                     Keras.sample_batch_scores Keras.sample_batch_other
                     Keras.sample_batch_detections).
  vm_compute. reflexivity.
Defined.
